(** * respecDocWriter: a shallow embedding of [tools/respecDocWriter.js]

    The script drives a headless browser over a ReSpec document and extracts
    the rendered HTML.  This development embeds the pure decision logic of the
    script (version gating, request interception predicate, console relay,
    timer arithmetic, data-URL decoding) together with the small amount of
    ECMAScript runtime it relies on (strings as UTF-16 code units, [parseInt],
    [split], regular expressions, [encodeURIComponent]/[decodeURIComponent]),
    the hand-over of values between the page and the script, and the run of
    [fetchAndWrite] as a whole, and proves the properties the specification
    states about them. *)

From Stdlib Require Import String Ascii DecimalString DecimalPos ZArith Bool Lia List.
Import ListNotations.
Open Scope Z_scope.

(* ================================================================== *)
(** * ECMAScript strings and the built-ins the script calls *)
(* ================================================================== *)

Module JS.

(** A JavaScript string is a finite sequence of UTF-16 code units. *)
Definition str := list Z.

(** ASCII literals of the source, as code units. *)
Definition lit (s : string) : str :=
  map (fun a => Z.of_N (N_of_ascii a)) (list_ascii_of_string s).

(** [a === b] on strings. *)
Fixpoint str_eqb (a b : str) : bool :=
  match a, b with
  | [], [] => true
  | x :: a', y :: b' => (x =? y) && str_eqb a' b'
  | _, _ => false
  end.

(** [s.startsWith(p)] *)
Fixpoint startsWith (s p : str) {struct p} : bool :=
  match p, s with
  | [], _ => true
  | y :: p', x :: s' => (x =? y) && startsWith s' p'
  | _ :: _, [] => false
  end.

(** [s.includes(p)] *)
Fixpoint includes (s p : str) : bool :=
  startsWith s p ||
  match s with
  | [] => false
  | _ :: s' => includes s' p
  end.

(** [s.split(sep)] for a one-character separator. *)
Fixpoint split (sep : Z) (s : str) : list str :=
  match s with
  | [] => [[]]
  | c :: t =>
      if c =? sep then [] :: split sep t
      else match split sep t with
           | h :: r => (c :: h) :: r
           | [] => [[c]]
           end
  end.

(** [l.join(sep)] *)
Fixpoint join (sep : str) (l : list str) : str :=
  match l with
  | [] => []
  | [x] => x
  | x :: r => x ++ sep ++ join sep r
  end.

(** Numbers as the script meets them: the results of [parseInt] are
    integers or NaN, a destructured array slot may be [undefined], and a
    NaN that has crossed between the page and the script has become [null].
    Integers are kept exact, which is what JavaScript computes for safe
    integers (magnitude below 2^53); the properties that print or parse a
    number bound it.  The comparisons against 20 and 10 are preserved by
    rounding to a double. *)
Inductive value :=
| Undefined
| Null
| NaN
| Int (z : Z).

(** ToNumber on these values: [null] is 0 and [undefined] is NaN. *)
Definition toNumber (v : value) : value :=
  match v with
  | Undefined => NaN
  | Null => Int 0
  | NaN => NaN
  | Int z => Int z
  end.

(** [a < b]: both sides are converted to numbers, and every comparison
    with NaN is false. *)
Definition lt (a b : value) : bool :=
  match toNumber a, toNumber b with
  | Int x, Int y => x <? y
  | _, _ => false
  end.

(** [a === b] on these values: no conversion, and NaN equals nothing. *)
Definition strict_eq (a b : value) : bool :=
  match a, b with
  | Int x, Int y => x =? y
  | Undefined, Undefined => true
  | Null, Null => true
  | _, _ => false
  end.

(** StrWhiteSpaceChar: WhiteSpace and LineTerminator code points. *)
Definition isWhiteSpace (c : Z) : bool :=
  (c =? 9) || (c =? 10) || (c =? 11) || (c =? 12) || (c =? 13) || (c =? 32) ||
  (c =? 160) || (c =? 5760) || ((8192 <=? c) && (c <=? 8202)) ||
  (c =? 8232) || (c =? 8233) || (c =? 8239) || (c =? 8287) ||
  (c =? 12288) || (c =? 65279).

Definition isDigit (c : Z) : bool := (48 <=? c) && (c <=? 57).

Fixpoint trimStart (s : str) : str :=
  match s with
  | c :: t => if isWhiteSpace c then trimStart t else s
  | [] => []
  end.

Fixpoint takeDigits (s : str) : str :=
  match s with
  | c :: t => if isDigit c then c :: takeDigits t else []
  | [] => []
  end.

Definition digitsValue (ds : str) : Z :=
  fold_left (fun acc c => 10 * acc + (c - 48)) ds 0.

(** [parseInt(s, 10)]: skip leading white space, read an optional sign, then
    the longest run of decimal digits; NaN when that run is empty.  The
    result is kept as the exact integer the digits denote; JavaScript rounds
    it to a double, and to Infinity when it is too large for one (see
    [isFinite]). *)
Definition parseInt (s : str) : value :=
  let t := trimStart s in
  let '(sign, body) :=
    match t with
    | c :: r => if c =? 45 then (-1, r) else if c =? 43 then (1, r) else (1, t)
    | [] => (1, t)
    end in
  match takeDigits body with
  | [] => NaN
  | ds => Int (sign * digitsValue ds)
  end.

(** Whether the double nearest to an integer is finite: from
    2^1024 - 2^970 on, rounding gives Infinity. *)
Definition isFinite (z : Z) : bool :=
  Z.abs z <? Z.shiftl 1 1024 - Z.shiftl 1 970.

(** [String(z)] / template interpolation of an integer-valued number: its
    decimal numeral.  JavaScript prints this for every integer it holds
    exactly up to 10^21, where it changes to exponent notation; the
    properties that print a number keep it within the safe integers. *)
Definition toString (z : Z) : str :=
  lit (NilZero.string_of_int (Z.to_int z)).

(** ** URI component coding

    [encodeURIComponent] keeps the unreserved characters and writes every
    other code point as the percent-escaped octets of its UTF-8 form; a lone
    surrogate raises URIError ([None]).  [decodeURIComponent] reverses every
    escape; a malformed escape or octet sequence raises URIError. *)

Definition isAlpha (c : Z) : bool :=
  ((65 <=? c) && (c <=? 90)) || ((97 <=? c) && (c <=? 122)).

(** uriUnreserved: letters, digits and the marks [- _ . ! ~ * ' ( )]. *)
Definition isUnreserved (c : Z) : bool :=
  isAlpha c || isDigit c ||
  (c =? 45) || (c =? 95) || (c =? 46) || (c =? 33) || (c =? 126) ||
  (c =? 42) || (c =? 39) || (c =? 40) || (c =? 41).

Definition isLeadSurrogate (c : Z) : bool := (55296 <=? c) && (c <=? 56319).
Definition isTrailSurrogate (c : Z) : bool := (56320 <=? c) && (c <=? 57343).

Definition codePointOfPair (hi lo : Z) : Z :=
  (hi - 55296) * 1024 + (lo - 56320) + 65536.

Definition utf8 (cp : Z) : list Z :=
  if cp <? 128 then [cp]
  else if cp <? 2048 then [192 + cp / 64; 128 + cp mod 64]
  else if cp <? 65536 then
    [224 + cp / 4096; 128 + (cp / 64) mod 64; 128 + cp mod 64]
  else
    [240 + cp / 262144; 128 + (cp / 4096) mod 64;
     128 + (cp / 64) mod 64; 128 + cp mod 64].

Definition hexDigit (d : Z) : Z := if d <? 10 then 48 + d else 55 + d.

Definition percent (octet : Z) : str :=
  [37; hexDigit (octet / 16); hexDigit (octet mod 16)].

Definition percentAll (octets : list Z) : str := flat_map percent octets.

Fixpoint encodeURIComponent (s : str) : option str :=
  match s with
  | [] => Some []
  | c :: t =>
      if isUnreserved c then option_map (cons c) (encodeURIComponent t)
      else if isTrailSurrogate c then None
      else if isLeadSurrogate c then
        match t with
        | d :: t' =>
            if isTrailSurrogate d
            then option_map (app (percentAll (utf8 (codePointOfPair c d))))
                            (encodeURIComponent t')
            else None
        | [] => None
        end
      else if (0 <=? c) && (c <? 65536)
      then option_map (app (percentAll (utf8 c))) (encodeURIComponent t)
      else None
  end.

Definition hexVal (c : Z) : option Z :=
  if isDigit c then Some (c - 48)
  else if (65 <=? c) && (c <=? 70) then Some (c - 55)
  else if (97 <=? c) && (c <=? 102) then Some (c - 87)
  else None.

(** Reads one [%XX] escape at the head of [s]. *)
Definition readOctet (s : str) : option (Z * str) :=
  match s with
  | c :: h :: l :: r =>
      if c =? 37 then
        match hexVal h, hexVal l with
        | Some a, Some b => Some (16 * a + b, r)
        | _, _ => None
        end
      else None
  | _ => None
  end.

(** Reads one escaped continuation octet [10xxxxxx], giving its payload. *)
Definition readCont (s : str) : option (Z * str) :=
  match readOctet s with
  | Some (b, r) => if (128 <=? b) && (b <=? 191) then Some (b - 128, r) else None
  | None => None
  end.

Definition utf16 (cp : Z) : str :=
  if cp <? 65536 then [cp]
  else [55296 + (cp - 65536) / 1024; 56320 + (cp - 65536) mod 1024].

(** Decodes the escape sequence at the head of [s] into code units and the
    text that follows it.  Overlong forms, surrogates and values above
    U+10FFFF are not valid UTF-8. *)
Definition decodeEscape (s : str) : option (str * str) :=
  match readOctet s with
  | None => None
  | Some (b, r) =>
      if b <? 128 then Some ([b], r)
      else if b <? 192 then None
      else if b <? 224 then
        match readCont r with
        | Some (c1, r1) =>
            let cp := (b - 192) * 64 + c1 in
            if 128 <=? cp then Some (utf16 cp, r1) else None
        | None => None
        end
      else if b <? 240 then
        match readCont r with
        | Some (c1, r1) =>
            match readCont r1 with
            | Some (c2, r2) =>
                let cp := (b - 224) * 4096 + c1 * 64 + c2 in
                if (2048 <=? cp) && negb ((55296 <=? cp) && (cp <=? 57343))
                then Some (utf16 cp, r2) else None
            | None => None
            end
        | None => None
        end
      else if b <? 248 then
        match readCont r with
        | Some (c1, r1) =>
            match readCont r1 with
            | Some (c2, r2) =>
                match readCont r2 with
                | Some (c3, r3) =>
                    let cp := (b - 240) * 262144 + c1 * 4096 + c2 * 64 + c3 in
                    if (65536 <=? cp) && (cp <=? 1114111)
                    then Some (utf16 cp, r3) else None
                | None => None
                end
            | None => None
            end
        | None => None
        end
      else None
  end.

(** The decoding loop; every turn consumes at least one code unit, so
    [length s] turns always suffice. *)
Fixpoint decode (fuel : nat) (s : str) : option str :=
  match s with
  | [] => Some []
  | c :: t =>
      match fuel with
      | O => None
      | S fuel' =>
          if c =? 37 then
            match decodeEscape s with
            | Some (u, r) => option_map (app u) (decode fuel' r)
            | None => None
            end
          else option_map (cons c) (decode fuel' t)
      end
  end.

Definition decodeURIComponent (s : str) : option str := decode (length s) s.

End JS.



(* ================================================================== *)
(** * Regular expressions

    A backtracking matcher for the fragment of ECMAScript patterns the
    script uses: literal characters, character classes, sequencing, greedy
    [+] and [?], capturing groups and the assertions [^] and [$] (without the
    multiline flag).  A run lists every way the pattern can match at the
    current position, in the order in which the engine tries them; the first
    one is the match ECMAScript reports. *)
(* ================================================================== *)

Module RegExp.
Import JS.

Inductive regex :=
| Eps
| Chr (c : Z)
| Cls (p : Z -> bool)
| Seq (r1 r2 : regex)
| Plus (r : regex)
| Opt (r : regex)
| Group (i : nat) (r : regex)
| Bol
| Eol.

Definition captures := list (nat * str).

(** One way of matching: the text consumed, the text left, the groups set. *)
Definition branch := (str * str * captures)%type.

Definition rest (b : branch) : str := snd (fst b).

Fixpoint shorter (a b : str) : bool :=
  match a, b with
  | _, [] => false
  | [], _ :: _ => true
  | _ :: a', _ :: b' => shorter a' b'
  end.

Definition andThen (b : branch) (f : str -> list branch) : list branch :=
  let '(m1, s1, c1) := b in
  map (fun b2 : branch => let '(m2, s2, c2) := b2 in (m1 ++ m2, s2, c2 ++ c1)) (f s1).

(** Greedy repetition: keep iterating [step] while it advances, longest
    first, then stop. *)
Fixpoint star (step : str -> list branch) (fuel : nat) (s : str) : list branch :=
  match fuel with
  | O => [([], s, [])]
  | S n =>
      flat_map (fun b => if shorter (rest b) s then andThen b (star step n) else [])
               (step s)
      ++ [([], s, [])]
  end.

Fixpoint run (r : regex) (input s : str) : list branch :=
  match r with
  | Eps => [([], s, [])]
  | Chr c =>
      match s with
      | x :: t => if x =? c then [([x], t, [])] else []
      | [] => []
      end
  | Cls p =>
      match s with
      | x :: t => if p x then [([x], t, [])] else []
      | [] => []
      end
  | Seq r1 r2 => flat_map (fun b => andThen b (run r2 input)) (run r1 input s)
  | Plus r1 =>
      flat_map (fun b => andThen b (star (run r1 input) (length s))) (run r1 input s)
  | Opt r1 => run r1 input s ++ [([], s, [])]
  | Group i r1 =>
      map (fun b : branch => let '(m, s', c) := b in (m, s', (i, m) :: c)) (run r1 input s)
  | Bol => if (length s =? length input)%nat then [([], s, [])] else []
  | Eol => match s with [] => [([], s, [])] | _ :: _ => [] end
  end.

Record matchResult := {
  before : str;
  matched : str;
  after : str;
  groups : captures
}.

(** Tries every start position from left to right. *)
Fixpoint scan (r : regex) (input pre s : str) : option matchResult :=
  match run r input s with
  | (m, s', c) :: _ =>
      Some {| before := pre; matched := m; after := s'; groups := c |}
  | [] =>
      match s with
      | [] => None
      | x :: t => scan r input (pre ++ [x]) t
      end
  end.

(** [re.exec(input)] / [input.match(re)] for a pattern without flags. *)
Definition exec (r : regex) (input : str) : option matchResult :=
  scan r input [] input.

(** [re.test(input)] *)
Definition test (r : regex) (input : str) : bool :=
  match exec r input with Some _ => true | None => false end.

(** [input.replace(re, repl)] for a replacement text without [$] patterns. *)
Definition replace (r : regex) (input repl : str) : str :=
  match exec r input with
  | Some m => before m ++ repl ++ after m
  | None => input
  end.

(** [m[i]] for [i >= 1]: the text of group [i], or undefined. *)
Fixpoint group (c : captures) (i : nat) : option str :=
  match c with
  | [] => None
  | (j, t) :: c' => if (j =? i)%nat then Some t else group c' i
  end.

(** What a pattern means, independently of how the matcher searches:
    [matches r pre m post] says that [r] matches the text [m] when [pre]
    precedes it and [post] follows it in the input. *)
Inductive matches : regex -> str -> str -> str -> Prop :=
| M_Eps pre post : matches Eps pre [] post
| M_Chr c pre post : matches (Chr c) pre [c] post
| M_Cls (p : Z -> bool) x pre post :
    p x = true -> matches (Cls p) pre [x] post
| M_Seq r1 r2 pre m1 m2 post :
    matches r1 pre m1 (m2 ++ post) ->
    matches r2 (pre ++ m1) m2 post ->
    matches (Seq r1 r2) pre (m1 ++ m2) post
| M_PlusOne r pre m post :
    matches r pre m post -> matches (Plus r) pre m post
| M_PlusMore r pre m1 m2 post :
    matches r pre m1 (m2 ++ post) ->
    matches (Plus r) (pre ++ m1) m2 post ->
    matches (Plus r) pre (m1 ++ m2) post
| M_OptNone r pre post : matches (Opt r) pre [] post
| M_OptSome r pre m post :
    matches r pre m post -> matches (Opt r) pre m post
| M_Group i r pre m post :
    matches r pre m post -> matches (Group i r) pre m post
| M_Bol post : matches Bol [] [] post
| M_Eol pre : matches Eol pre [] [].

(** A literal run of characters. *)
Definition text (l : str) : regex := fold_right (fun c r => Seq (Chr c) r) Eps l.

(** [\w] *)
Definition isWord (c : Z) : bool := isAlpha c || isDigit c || (c =? 95).

(** [[\w-]] *)
Definition isWordOrHyphen (c : Z) : bool := isWord c || (c =? 45).

(** The pattern has no capturing group. *)
Fixpoint groupFree (r : regex) : bool :=
  match r with
  | Group _ _ => false
  | Seq r1 r2 => groupFree r1 && groupFree r2
  | Plus r1 | Opt r1 => groupFree r1
  | Eps | Chr _ | Cls _ | Bol | Eol => true
  end.

End RegExp.

(* ================================================================== *)
(** * The script: [tools/respecDocWriter.js] *)
(* ================================================================== *)

Module DocWriter.
Import JS RegExp.

(** ** Values thrown or used as rejection reasons *)
Inductive exn :=
| Reason (msg : str)          (* a promise rejected with a bare string *)
| Error (message : str)       (* [new Error(message)] *)
| TypeError                   (* indexing [null] *)
| URIError                    (* malformed escape in [decodeURIComponent] *)
| PageReason (tag : str).     (* whatever the page's own promise rejected with *)

Inductive outcome (A : Type) :=
| Returned (a : A)
| Threw (e : exn)
| Hung.
Arguments Returned {A} a.
Arguments Threw {A} e.
Arguments Hung {A}.

(** ** [createTimer] *)

(** [createTimer(duration)] captures [Date.now()] as [start]; times are
    integer milliseconds. *)
Record timer := { start : Z; duration : Z }.

Definition createTimer (now : Z) (d : Z) : timer :=
  {| start := now; duration := d |}.

(** The [remaining] getter, read when the clock shows [now]. *)
Definition remaining (t : timer) (now : Z) : Z :=
  let spent := now - start t in
  Z.max 0 (duration t - spent).

(** ** [getVersion]

    The array as the function returns it inside the page. *)
Definition getVersion (respecVersion : str) : list value :=
  if str_eqb respecVersion (lit "Developer Edition")
  then [Int 123456789; Int 0; Int 0]
  else map parseInt (split 46 respecVersion).

(** [page.evaluate] hands a result from the page to the script, and an
    argument from the script to the page, by value, serialised as JSON:
    inside an array a NaN, an Infinity or an [undefined] arrives as [null].
    The array [getVersion] returns crosses once in each direction before
    [evaluateHTML] reads it; the second crossing changes nothing more. *)
Definition byValue (version : list value) : list value :=
  map (fun v => match v with
                | Undefined | NaN => Null
                | Null => Null
                | Int z => if isFinite z then Int z else Null
                end) version.

(** ** [evaluateHTML] *)

(** The inner [timeout(promise, ms)]: a new promise settled by whichever
    comes first of the readiness promise settling and the timer firing.
    The event loop delivers these callbacks in some order; later calls of
    [resolve]/[reject] on a settled promise are ignored. *)
Inductive event :=
| ReadyResolved
| ReadyRejected (tag : str)
| TimerFired.

Inductive settled :=
| Pending
| Fulfilled
| Rejected (e : exn).

Definition timeoutMsg (ms : Z) : str :=
  lit "Timeout: document.respecIsReady didn't resolve in "
  ++ toString ms ++ lit "ms.".

Definition settle (ms : Z) (st : settled) (e : event) : settled :=
  match st with
  | Pending =>
      match e with
      | ReadyResolved => Fulfilled
      | ReadyRejected tag => Rejected (PageReason tag)
      | TimerFired => Rejected (Reason (timeoutMsg ms))
      end
  | _ => st
  end.

Definition timeout (events : list event) (ms : Z) : settled :=
  fold_left (settle ms) events Pending.

(** What the page offers to the export step: each in-page module either
    fails to load with a message or provides its export function. *)
Record page := {
  respecVersion : str;
  saveHtml : str + (str -> str -> str);   (* ui/save-html: exportDocument *)
  exporter : str + (str -> str)           (* core/exporter: rsDocToDataURL *)
}.

Inductive exportPath := Legacy | Modern.

(** The version test [major < 20 || (major === 20 && minor < 10)]. *)
Definition selectExport (version : list value) : exportPath :=
  let major := nth 0 version Undefined in
  let minor := nth 1 version Undefined in
  if lt major (Int 20) || (strict_eq major (Int 20) && lt minor (Int 10))
  then Legacy else Modern.

(** [/^data:\w+\/\w+;charset=utf-8,/] *)
Definition dataUrlPrefixRegex : regex :=
  Seq Bol (Seq (text (lit "data:")) (Seq (Plus (Cls isWord)) (Seq (Chr 47)
    (Seq (Plus (Cls isWord)) (text (lit ";charset=utf-8,")))))).

(** The modern branch after the module has loaded. *)
Definition fromDataURL (dataURL : str) : outcome str :=
  let encodedString := replace dataUrlPrefixRegex dataURL [] in
  match decodeURIComponent encodedString with
  | Some html => Returned html
  | None => Threw URIError
  end.

(** The [console.warn] line of the legacy branch. *)
Definition oldVersionWarning (pg : page) : str :=
  [55357; 56436; 55356; 57341]
  ++ lit "  Ye Olde ReSpec version detected! Please update to 20.10.0 or above. "
  ++ lit "Your version: " ++ respecVersion pg ++ lit ".".

(** [evaluateHTML(version, timer)], run in the page: the lines it writes
    with [console.warn] and how its promise settles.  [now] is the clock
    value at which [timer.remaining] is read, [events] the order in which
    the event loop delivers the readiness and timer callbacks. *)
Definition evaluateHTML (pg : page) (version : list value)
    (t : timer) (now : Z) (events : list event) : list str * outcome str :=
  match timeout events (remaining t now) with
  | Pending => ([], Hung)
  | Rejected e => ([], Threw e)
  | Fulfilled =>
      match selectExport version with
      | Legacy =>
          ([oldVersionWarning pg],
           match saveHtml pg with
           | inl message => Threw (Error message)
           | inr exportDocument =>
               Returned (exportDocument (lit "html") (lit "text/html"))
           end)
      | Modern =>
          ([],
           match exporter pg with
           | inl message => Threw (Error message)
           | inr rsDocToDataURL => fromDataURL (rsDocToDataURL (lit "text/html"))
           end)
      end
  end.

(** ** Requests and URLs *)

(** The components of [new URL(...)] the script reads. *)
Record URL := {
  href : str;
  origin : str;
  host : str;
  pathname : str;
  search : str
}.

Record request := {
  method : str;
  resourceType : str;
  url : URL
}.

(** [/\/builds\/respec-[\w-]+\.js$/] *)
Definition respecBuildRegex : regex :=
  Seq (text (lit "/builds/respec-"))
      (Seq (Plus (Cls isWordOrHyphen)) (Seq (text (lit ".js")) Eol)).

(** [/\/(respec-[\w-]+)(?:\.js)?$/] *)
Definition respecProfileRegex : regex :=
  Seq (Chr 47)
      (Seq (Group 1 (Seq (text (lit "respec-")) (Plus (Cls isWordOrHyphen))))
           (Seq (Opt (text (lit ".js"))) Eol)).

Definition isRespecScript (req : request) : bool :=
  if negb (str_eqb (method req) (lit "GET"))
     || negb (str_eqb (resourceType req) (lit "script"))
  then false
  else
    let u := url req in
    if str_eqb (host u) (lit "www.w3.org") then
      startsWith (pathname u) (lit "/Tools/respec/")
      && negb (includes (pathname u) (lit "respec-highlight"))
    else if str_eqb (host u) (lit "w3c.github.io") then
      startsWith (pathname u) (lit "/respec/builds/")
    else test respecBuildRegex (pathname u).

(** [/document\.respecDone/] *)
Definition respecDoneRegex : regex := text (lit "document.respecDone").

(** ** Console relay state *)
Record haltFlags := { error : bool; warn : bool }.

Record consoleMessage := {
  msgType : str;          (* [message.type()] *)
  msgText : str;          (* [message.text()] *)
  msgArgs : list str      (* [String(o)] of each argument handle *)
}.

Record relay := {
  flags : haltFlags;
  printed : list str      (* lines written by console.error / console.warn *)
}.

(** [args.filter(msg => msg !== "undefined").join(" ")] *)
Definition resolvedText (message : consoleMessage) : str :=
  join (lit " ")
       (filter (fun msg => negb (str_eqb msg (lit "undefined"))) (msgArgs message)).

(** ** Navigation response *)
Record response := { ok : bool; status : Z }.

(** ** Interception state

    The listener is an async function: it runs up to its first [await] when
    the request event is dispatched and resumes when the awaited operation
    completes.  Other events may be dispatched in between. *)
Inductive answer :=
| Continued                                  (* passed through unmodified *)
| Substituted (localPath : str) (body : str).

Record net := {
  intercepting : bool;                  (* [page.setRequestInterception] flag *)
  listening : bool;                     (* [requestInterceptor] is registered *)
  reading : list (request * str);       (* listeners suspended in [readFile] *)
  responding : list request;            (* listeners suspended in [respond] *)
  answered : list (request * answer);   (* latest first *)
  stdout : list str
}.

Inductive netEvent :=
| Arrives (r : request)       (* the browser issues a request *)
| FileRead (i : nat)          (* the i-th pending [readFile] completes *)
| Responded (i : nat).        (* the i-th pending [respond] completes *)

(** What the synchronous prefix of the listener does with a request. *)
Inductive dispatch :=
| CallContinue
| StartRead (profile : str)
| Throws (e : exn).

Definition requestInterceptor (r : request) : dispatch :=
  if negb (isRespecScript r) then CallContinue
  else
    match exec respecProfileRegex (pathname (url r)) with
    | None => Throws TypeError
    | Some m =>
        match group (groups m) 1 with
        | Some profile => StartRead profile
        | None => StartRead (lit "undefined")
        end
    end.

Fixpoint remove_nth {A} (i : nat) (l : list A) : list A :=
  match l, i with
  | [], _ => []
  | _ :: t, O => t
  | x :: t, S j => x :: remove_nth j t
  end.

Section Host.

(** The [colors] theme functions, the directory of the local builds
    ([path.join(__dirname, "..", "builds")]) and the file system. *)
Variable colors_debug colors_error colors_warn colors_info : str -> str.
Variable buildsDir : str.
Variable readFile : str -> option str.

Definition handleConsoleMessage (st : relay) (message : consoleMessage) : relay :=
  let text := resolvedText message in
  let type := msgType message in
  if (str_eqb type (lit "error") || str_eqb type (lit "warning"))
     && negb (str_eqb (msgText message) [])
     && (List.length (msgArgs message) =? 0)%nat
  then st
  else
    let output := lit "ReSpec " ++ type ++ lit ": " ++ colors_debug text in
    if str_eqb type (lit "error") then
      {| flags := {| error := true; warn := warn (flags st) |};
         printed := printed st ++ [colors_error ([55357; 56881] ++ lit " " ++ output)] |}
    else if str_eqb type (lit "warning") then
      if test respecDoneRegex text then st
      else
        {| flags := {| error := error (flags st); warn := true |};
           printed := printed st ++ [colors_warn ([55357; 57000] ++ lit " " ++ output)] |}
    else st.

(** The response check of [fetchAndWrite]: [Some] is the error thrown. *)
Definition checkResponse (u : URL) (resp : response) : option exn :=
  if negb (ok resp) && negb (status resp =? 0) then
    let warn := colors_warn ([55357; 56545] ++ lit " HTTP Error "
                             ++ toString (status resp) ++ lit ":") in
    let debugURL := origin u ++ pathname u in
    Some (Error (warn ++ lit " " ++ colors_debug debugURL))
  else None.

Definition localPath (profile : str) : str :=
  buildsDir ++ lit "/" ++ profile ++ lit ".js".

(** The state after [useLocalReSpec]: interception on, listener registered. *)
Definition useLocalReSpec : net :=
  {| intercepting := true; listening := true; reading := []; responding := [];
     answered := []; stdout := [] |}.

(** A page on which [useLocalReSpec] was not called. *)
Definition plainPage : net :=
  {| intercepting := false; listening := false; reading := []; responding := [];
     answered := []; stdout := [] |}.

Definition step (st : net) (ev : netEvent) : net :=
  match ev with
  | Arrives r =>
      if listening st then
        match requestInterceptor r with
        | CallContinue =>
            {| intercepting := intercepting st; listening := listening st;
               reading := reading st; responding := responding st;
               answered := (r, Continued) :: answered st; stdout := stdout st |}
        | Throws _ => st
        | StartRead profile =>
            {| intercepting := intercepting st; listening := listening st;
               reading := reading st ++ [(r, localPath profile)];
               responding := responding st;
               answered := answered st;
               stdout := stdout st ++
                 [colors_info (lit "Intercepted " ++ href (url r)
                               ++ lit " to respond with " ++ localPath profile)] |}
        end
      else if intercepting st then st
      else
        {| intercepting := intercepting st; listening := listening st;
           reading := reading st; responding := responding st;
           answered := (r, Continued) :: answered st; stdout := stdout st |}
  | FileRead i =>
      match nth_error (reading st) i with
      | None => st
      | Some (r, path) =>
          match readFile path with
          | None =>
              {| intercepting := intercepting st; listening := listening st;
                 reading := remove_nth i (reading st); responding := responding st;
                 answered := answered st; stdout := stdout st |}
          | Some body =>
              {| intercepting := intercepting st; listening := listening st;
                 reading := remove_nth i (reading st);
                 responding := responding st ++ [r];
                 answered := (r, Substituted path body) :: answered st;
                 stdout := stdout st |}
          end
      end
  | Responded i =>
      match nth_error (responding st) i with
      | None => st
      | Some _ =>
          {| intercepting := false; listening := false;
             reading := reading st; responding := remove_nth i (responding st);
             answered := answered st; stdout := stdout st |}
      end
  end.

Definition steps (st : net) (evs : list netEvent) : net := fold_left step evs st.

Definition isSubstituted (a : request * answer) : bool :=
  match snd a with Substituted _ _ => true | Continued => false end.

(** How many requests were answered with a local build. *)
Definition substitutions (st : net) : nat :=
  List.length (filter isSubstituted (answered st)).

End Host.

(** ** The rest of the script: document check, error report, output, and
    the run as a whole *)

(** What [isRespec] looks at in the page. *)
Record document := {
  headHasRespecScript : bool;  (* [document.head.querySelector(query)] finds one *)
  becomesComplete : bool;      (* [readyState] is or becomes "complete" *)
  hasRespecUi : bool           (* [getElementById("respec-ui")] after the wait *)
}.

(** [isRespec]: true at once when the head has a ReSpec script; otherwise it
    waits for the document to be complete (for ever, if it never is), then
    two seconds, and answers whether the ReSpec UI element exists. *)
Definition isRespec (d : document) : outcome bool :=
  if headHasRespecScript d then Returned true
  else if becomesComplete d then Returned (hasRespecUi d)
  else Hung.

(** How [Array.prototype.join] prints an element of the version array.
    Integers are printed exactly, which is what JavaScript does for safe
    integers. *)
Definition elementText (v : value) : str :=
  match v with
  | Undefined | Null => []
  | NaN => lit "NaN"
  | Int z => toString z
  end.

(** [version.join(".")] *)
Definition versionText (version : list value) : str :=
  join (lit ".") (map elementText version).

(** The console event the relay receives for [console.warn(text)] called
    in the page with one string: severity "warning", the string as the
    text and as the only argument. *)
Definition warnEvent (text : str) : consoleMessage :=
  {| msgType := lit "warning"; msgText := text; msgArgs := [text] |}.

(** The steps of a run that the outside can observe. *)
Inductive effect :=
| Mkdtemp
| Launch (noSandbox devtools : bool)
| NewPage
| ArmInterception                       (* [useLocalReSpec(page)] *)
| ListenConsole
| Goto (target : str) (timeoutMs : Z)
| StdoutWrite (data : str)
| WriteFile (path data : str)
| ConsoleError                          (* [console.error(err, err.stack)] *)
| Sleep (ms : Z)
| ClosePage
| CloseBrowser
| Exit (code : Z).

(** How the promise of [fetchAndWrite] ends, if the process lives. *)
Inductive final :=
| Resolves (html : str)
| Rejects (e : exn)
| Exits (code : Z)
| NeverSettles.

Record options := {
  timeoutOpt : Z;
  disableSandbox : bool;
  debug : bool;
  useLocal : bool
}.

Definition defaultOptions : options :=
  {| timeoutOpt := 300000; disableSandbox := false; debug := false; useLocal := false |}.

Record haltPolicy := { haltOnWarn : bool; haltOnError : bool }.

(** What the browser, the page and the clock do in one run. *)
Record environment := {
  launch : option exn;                   (* [puppeteer.launch] rejects *)
  clockAtStart : Z;                      (* [Date.now()] in [createTimer] *)
  parseURL : str -> option URL;          (* [new URL(src)], [None] when it throws *)
  navigation : exn + response;           (* [page.goto] rejects, or its response *)
  theDocument : document;
  versionWait : option exn;              (* [page.waitForFunction] rejects *)
  thePage : page;
  clockAtWait : Z;                       (* when [timer.remaining] is read *)
  race : list event;
  consoleEvents : list consoleMessage    (* handled before the halt check *)
}.

Section Run.

Variable colors_debug colors_error colors_warn : str -> str.

(** [String(page.url)]: the script passes the method itself, not its
    result, to [colors.debug]. *)
Variable pageUrlMethod : str.

(** Whether the value [page.evaluate] rejects with is truthy, and the text
    of its [stack]. *)
Variable errTruthy : exn -> bool.
Variable errStack : exn -> str.

(** [path.isAbsolute], [path.resolve], [process.cwd()], and whether
    [writeFile] succeeds on a path. *)
Variable pathIsAbsolute : str -> bool.
Variable pathResolve : str -> str -> str.
Variable cwd : str.
Variable writable : str -> bool.

(** The console listener over the events of a run. *)
Definition relayAll (st : relay) (messages : list consoleMessage) : relay :=
  fold_left (handleConsoleMessage colors_debug colors_error colors_warn) messages st.

Definition notRespecMsg : str :=
  colors_warn ([55357; 56693; 65039; 8205; 9792; 65039]
               ++ lit "  That doesn't seem to be a ReSpec document. Please check manually:")
  ++ lit " " ++ colors_debug pageUrlMethod.

Definition checkIfReSpec (d : document) : outcome bool :=
  match isRespec d with
  | Returned false => Threw (Error notRespecMsg)
  | o => o
  end.

(** The message of the error [generateHTML] throws. *)
Definition generateErrorMsg (u : URL) (version : list value) (err : exn) : str :=
  [10; 55357; 56877]
  ++ lit "  Sorry, there was an error generating the HTML. Please report this issue!"
  ++ [10]
  ++ colors_debug
       ((lit "Specification: " ++ href u ++ [10]
         ++ lit "ReSpec version: " ++ versionText version ++ [10]
         ++ lit "File a bug: https://github.com/w3c/respec/" ++ [10])
        ++ (if errTruthy err then lit "Error: " ++ errStack err ++ [10] else [])).

(** [generateHTML(page, url, timer)]: [version] is what
    [page.evaluate(getVersion)] resolves with in the script. *)
Definition generateHTML (wait : option exn) (pg : page) (u : URL)
    (t : timer) (now : Z) (events : list event) : outcome str :=
  match wait with
  | Some e => Threw e
  | None =>
      let version := byValue (getVersion (respecVersion pg)) in
      match snd (evaluateHTML pg version t now events) with
      | Returned html => Returned html
      | Threw err => Threw (Error (generateErrorMsg u version err))
      | Hung => Hung
      end
  end.

(** [writeTo]: the effects, and whether the process is still alive. *)
Definition writeTo (outPath data : str) : list effect * bool :=
  let newFilePath :=
    if pathIsAbsolute outPath then outPath else pathResolve cwd outPath in
  if writable newFilePath then ([WriteFile newFilePath data], true)
  else ([ConsoleError; Exit 1], false).

Definition noFlags : relay :=
  {| flags := {| error := false; warn := false |}; printed := [] |}.

(** [fetchAndWrite(src, out, whenToHalt, options)]; [out] is [None] for
    [null].  A [finally] closes the browser whenever the [try] block is
    left by returning or throwing; [process.exit] ends the process on the
    spot.  [mkdtemp], [newPage], [page.close] and [browser.close] are taken
    to succeed. *)
Definition fetchAndWrite (src : str) (out : option str) (whenToHalt : haltPolicy)
    (opts : options) (env : environment) : list effect * final :=
  let timer := createTimer (clockAtStart env) (timeoutOpt opts) in
  let started := [Mkdtemp; Launch (disableSandbox opts) (debug opts)] in
  match launch env with
  | Some e => (started, Rejects e)
  | None =>
      let opened :=
        started ++ [NewPage]
        ++ (if useLocal opts then [ArmInterception] else []) ++ [ListenConsole] in
      match parseURL env src with
      | None => (opened ++ [CloseBrowser], Rejects TypeError)
      | Some u =>
          let navigated := opened ++ [Goto (href u) (timeoutOpt opts)] in
          match navigation env with
          | inl e => (navigated ++ [CloseBrowser], Rejects e)
          | inr resp =>
              match checkResponse colors_debug colors_warn u resp with
              | Some e => (navigated ++ [CloseBrowser], Rejects e)
              | None =>
                  match checkIfReSpec (theDocument env) with
                  | Hung => (navigated, NeverSettles)
                  | Threw e => (navigated ++ [CloseBrowser], Rejects e)
                  | Returned _ =>
                      match generateHTML (versionWait env) (thePage env) u timer
                                         (clockAtWait env) (race env) with
                      | Hung => (navigated, NeverSettles)
                      | Threw e => (navigated ++ [CloseBrowser], Rejects e)
                      | Returned html =>
                          let haltFlags := flags (relayAll noFlags (consoleEvents env)) in
                          let abortOnWarning := haltOnWarn whenToHalt && warn haltFlags in
                          let abortOnError := haltOnError whenToHalt && error haltFlags in
                          if abortOnError || abortOnWarning
                          then (navigated ++ [Exit 1], Exits 1)
                          else
                            let written :=
                              match out with
                              | None => ([StdoutWrite html], true)
                              | Some o =>
                                  if str_eqb o [] then ([], true) else writeTo o html
                              end in
                            if snd written
                            then (navigated ++ fst written
                                  ++ [Sleep 1000; ClosePage; CloseBrowser],
                                  Resolves html)
                            else (navigated ++ fst written, Exits 1)
                      end
                  end
              end
          end
      end
  end.

End Run.

End DocWriter.

(* ================================================================== *)
(** * Notions the specification uses to describe the script *)
(* ================================================================== *)

Module Spec.
Import JS RegExp DocWriter.


(** A decimal integer: an optional sign and then only digits, at least one. *)
Definition isDecimalInteger (c : str) : bool :=
  let body :=
    match c with
    | x :: r => if (x =? 45) || (x =? 43) then r else c
    | [] => c
    end in
  match body with
  | [] => false
  | _ :: _ => forallb isDigit body
  end.

(** The text begins, after optional white space and an optional sign, with a
    decimal digit. *)
Definition hasIntegerPrefix (c : str) : bool :=
  let t := trimStart c in
  let body :=
    match t with
    | x :: r => if (x =? 45) || (x =? 43) then r else t
    | [] => t
    end in
  match body with
  | d :: _ => isDigit d
  | [] => false
  end.

(** The last segment of a path. *)
Definition filename (path : str) : str := last (split 47 path) [].

(** The whole text is [respec-<identifier>.js]. *)
Definition isRespecFileName (f : str) : bool :=
  test (Seq Bol (Seq (text (lit "respec-"))
         (Seq (Plus (Cls isWordOrHyphen)) (Seq (text (lit ".js")) Eol)))) f.

(** The path ends with [/builds/respec-<identifier>.js]. *)
Definition endsWithBuildFile (path : str) : Prop :=
  exists dir id,
    path = dir ++ lit "/builds/respec-" ++ id ++ lit ".js"
    /\ id <> [] /\ Forall (fun c => isWordOrHyphen c = true) id.

(** A Unicode scalar value: a code point that is not a surrogate. *)
Definition isScalar (cp : Z) : Prop :=
  0 <= cp < 55296 \/ 57344 <= cp <= 1114111.

(** A well-formed text: code units in range and every surrogate paired. *)
Fixpoint wellFormed (s : str) : bool :=
  match s with
  | [] => true
  | c :: t =>
      if isLeadSurrogate c then
        match t with
        | d :: t' => isTrailSurrogate d && wellFormed t'
        | [] => false
        end
      else (0 <=? c) && (c <? 65536) && negb (isTrailSurrogate c) && wellFormed t
  end.

(** A run in which every request is handled to completion (file read,
    response sent) before the next one arrives. *)
Definition handledOneAtATime (rs : list request) : list netEvent :=
  flat_map (fun r => [Arrives r; FileRead 0; Responded 0]) rs.

(** The state between two requests of a one-at-a-time run. *)
Definition quiescent (st : net) : Prop :=
  reading st = [] /\ responding st = []
  /\ ((listening st = true /\ substitutions st = 0%nat)
      \/ (listening st = false /\ intercepting st = false
          /\ (substitutions st <= 1)%nat)).

(** Host-browser noise: an error or warning with text and no arguments. *)
Definition isBrowserNoise (m : consoleMessage) : Prop :=
  (msgType m = lit "error" \/ msgType m = lit "warning")
  /\ msgText m <> [] /\ msgArgs m = [].

(** The path ends with [/respec-<identifier>] or [/respec-<identifier>.js]:
    what the profile pattern looks for. *)
Definition endsWithProfile (path : str) : Prop :=
  exists dir id ext,
    path = dir ++ 47 :: lit "respec-" ++ id ++ ext
    /\ (ext = [] \/ ext = lit ".js")
    /\ id <> [] /\ Forall (fun c => isWordOrHyphen c = true) id.

(** The text the relay resolves for the event contains the expression the
    readiness polling evaluates, [document.respecDone]. *)
Definition mentionsPolling (m : consoleMessage) : Prop :=
  exists a b, resolvedText m = a ++ lit "document.respecDone" ++ b.

(** An error the relay counts: severity "error" and not browser noise. *)
Definition isGenuineError (m : consoleMessage) : Prop :=
  msgType m = lit "error" /\ ~ isBrowserNoise m.

(** A warning the relay counts: severity "warning", not browser noise and
    not the readiness polling. *)
Definition isGenuineWarning (m : consoleMessage) : Prop :=
  msgType m = lit "warning" /\ ~ isBrowserNoise m /\ ~ mentionsPolling m.

(** The effect writes the result to standard output or to a file. *)
Definition isOutput (e : effect) : Prop :=
  match e with
  | StdoutWrite _ | WriteFile _ _ => True
  | _ => False
  end.

(** The requests that arrive in a sequence of events. *)
Definition arrivals (evs : list netEvent) : list request :=
  flat_map (fun ev => match ev with Arrives r => [r] | _ => [] end) evs.

(** The dotted decimal form of a list of integers, as in "20.10.0". *)
Definition dotted (l : list Z) : str := join (lit ".") (map toString l).

(** The largest integer below which every integer is a JavaScript number. *)
Definition maxSafeInteger : Z := 9007199254740991.

(** A version component the script holds exactly: a safe integer, or no
    number at all. *)
Definition isExact (v : value) : Prop :=
  match v with
  | Int z => - maxSafeInteger <= z <= maxSafeInteger
  | _ => True
  end.

(** A non-numeric component counted as 0. *)
Definition nanAsZero (v : value) : value :=
  match v with
  | NaN => Int 0
  | _ => v
  end.

(** A text of one line without escape characters: no ESC, no line feed, no
    carriage return.  The serialised parts of a URL are such texts. *)
Definition plainLine (s : str) : Prop :=
  Forall (fun c => c <> 27 /\ c <> 10 /\ c <> 13) s.

(** A text without line breaks. *)
Definition oneLine (s : str) : Prop :=
  Forall (fun c => c <> 10 /\ c <> 13) s.

(** The requests of a sequence of events that the interception predicate
    accepts. *)
Definition acceptedArrivals (evs : list netEvent) : list request :=
  filter isRespecScript (arrivals evs).

(** One request handled alone: it arrives, then the pending file read and
    the pending response, if any, complete. *)
Definition handledAlone (r : request) : list netEvent :=
  [Arrives r; FileRead 0; Responded 0].

(** The same run with another navigation response. *)
Definition withResponse (env : environment) (resp : response) : environment :=
  {| launch := launch env; clockAtStart := clockAtStart env;
     parseURL := parseURL env; navigation := inr resp;
     theDocument := theDocument env; versionWait := versionWait env;
     thePage := thePage env; clockAtWait := clockAtWait env;
     race := race env; consoleEvents := consoleEvents env |}.

(** The file a suspended listener reads is the local build of the profile
    of its own request. *)
Definition readsOwnBuild (buildsDir : str) (rp : request * str) : Prop :=
  exists profile,
    requestInterceptor (fst rp) = StartRead profile
    /\ snd rp = localPath buildsDir profile.

(** A substituted answer carries the content of the local build of the
    request's profile. *)
Definition answeredFromBuild (buildsDir : str) (readFile : str -> option str)
    (ra : request * answer) : Prop :=
  match snd ra with
  | Continued => True
  | Substituted path body =>
      readsOwnBuild buildsDir (fst ra, path) /\ readFile path = Some body
  end.

Definition wellServed (buildsDir : str) (readFile : str -> option str)
    (st : net) : Prop :=
  Forall (readsOwnBuild buildsDir) (reading st)
  /\ Forall (answeredFromBuild buildsDir readFile) (answered st).

End Spec.

(* ================================================================== *)
(** * Concrete inputs used in examples *)
(* ================================================================== *)

Module Samples.
Import JS RegExp DocWriter.

(** The [colors] package with colours on.  A style has an open and a close
    code.  Applied to a text that is not empty, it replaces every close
    code inside the text by the open code and puts the open code before and
    the close code after the result; if the text has a line feed, the style
    is then closed before and opened again after every run of line breaks. *)
Definition sgr (n : string) : str := [27; 91] ++ lit n ++ [109].

Definition isLineBreak (c : Z) : bool := (c =? 10) || (c =? 13).

(** [s.replace(/pat/g, rep)] for a literal pattern that is not empty; [skip]
    counts the characters of a match still to be passed over. *)
Fixpoint replaceAll (pat rep : str) (skip : nat) (s : str) : str :=
  match s with
  | [] => []
  | c :: t =>
      match skip with
      | S k => replaceAll pat rep k t
      | O =>
          if startsWith s pat
          then rep ++ replaceAll pat rep (List.length pat - 1) t
          else c :: replaceAll pat rep O t
      end
  end.

(** [s.replace(/[\r\n]+/g, m => close + m + open)]; [inRun] says that the
    previous character was a line break. *)
Fixpoint reopenLines (open close : str) (inRun : bool) (s : str) : str :=
  match s with
  | [] => if inRun then open else []
  | c :: t =>
      if isLineBreak c
      then (if inRun then [c] else close ++ [c]) ++ reopenLines open close true t
      else (if inRun then open ++ [c] else [c]) ++ reopenLines open close false t
  end.

Definition applyStyle (open close : str) (s : str) : str :=
  match s with
  | [] => []
  | _ :: _ =>
      let wrapped := open ++ replaceAll close open O s ++ close in
      if existsb (fun c => c =? 10) s
      then reopenLines open close false wrapped
      else wrapped
  end.

Definition cyan : str -> str := applyStyle (sgr "36") (sgr "39").
Definition red : str -> str := applyStyle (sgr "31") (sgr "39").
Definition yellow : str -> str := applyStyle (sgr "33") (sgr "39").
Definition blue : str -> str := applyStyle (sgr "34") (sgr "39").

(** An [https] URL with the given host, path and query. *)
Definition httpsURL (h p q : string) : URL :=
  {| href := lit "https://" ++ lit h ++ lit p ++ lit q;
     origin := lit "https://" ++ lit h;
     host := lit h;
     pathname := lit p;
     search := lit q |}.

(** A GET request for a script. *)
Definition scriptRequest (h p : string) : request :=
  {| method := lit "GET"; resourceType := lit "script"; url := httpsURL h p "" |}.

Definition buildsDir : str := lit "/opt/respec/builds".

(** A file system in which every local build exists. *)
Definition everyBuild (path : str) : option str := Some (lit "/* local build */").

(** A file system without any local build. *)
Definition noBuild (path : str) : option str := None.

Definition noPage : page :=
  {| respecVersion := lit "30.0.0"; saveHtml := inl []; exporter := inl [] |}.

Definition freshRelay : relay :=
  {| flags := {| error := false; warn := false |}; printed := [] |}.

(** A page of a current ReSpec whose exporter hands out a small document. *)
Definition modernPage : page :=
  {| respecVersion := lit "30.0.0";
     saveHtml := inl (lit "no such module");
     exporter := inr (fun _ => lit "data:text/html;charset=utf-8,%3Chtml%3E") |}.

(** A page of an old ReSpec that still ships the save-html module. *)
Definition legacyPage : page :=
  {| respecVersion := lit "19.5.2";
     saveHtml := inr (fun _ _ => lit "<html></html>");
     exporter := inl (lit "no such module") |}.

(** A page whose version is not a number, with both export modules. *)
Definition unversionedPage : page :=
  {| respecVersion := lit "abc.def";
     saveHtml := inr (fun _ _ => lit "<html>legacy</html>");
     exporter := inr (fun _ => lit "data:text/html;charset=utf-8,%3Chtml%3Emodern") |}.

Definition respecDocument : document :=
  {| headHasRespecScript := true; becomesComplete := true; hasRespecUi := true |}.

Definition parseAny (src : str) : option URL :=
  Some (httpsURL "example.org" "/spec/index.html" "?key=secret").

(** A run in which everything succeeds and the console stays silent. *)
Definition quietRun : environment :=
  {| launch := None; clockAtStart := 0; parseURL := parseAny;
     navigation := inr {| ok := true; status := 200 |};
     theDocument := respecDocument; versionWait := None; thePage := modernPage;
     clockAtWait := 1000; race := [ReadyResolved]; consoleEvents := [] |}.

Definition scriptError : consoleMessage :=
  {| msgType := lit "error"; msgText := lit "JSHandle@error";
     msgArgs := [lit "ReferenceError: x is not defined"] |}.

(** The same run with a script error on the console. *)
Definition failingRun : environment :=
  {| launch := None; clockAtStart := 0; parseURL := parseAny;
     navigation := inr {| ok := true; status := 200 |};
     theDocument := respecDocument; versionWait := None; thePage := modernPage;
     clockAtWait := 1000; race := [ReadyResolved]; consoleEvents := [scriptError] |}.

(** A run whose navigation ends in a 404 response. *)
Definition notFoundRun : environment :=
  {| launch := None; clockAtStart := 0; parseURL := parseAny;
     navigation := inr {| ok := false; status := 404 |};
     theDocument := respecDocument; versionWait := None; thePage := modernPage;
     clockAtWait := 1000; race := [ReadyResolved]; consoleEvents := [] |}.

Definition posixAbsolute (p : str) : bool := startsWith p (lit "/").
Definition posixResolve (dir p : str) : str := dir ++ lit "/" ++ p.
Definition everyPathWritable (p : str) : bool := true.
Definition isTruthy (e : exn) : bool := true.
Definition stackText (e : exn) : str :=
  lit "Error: Evaluation failed" ++ [10] ++ lit "    at ExecutionContext.evaluate".
Definition haltOnBoth : haltPolicy := {| haltOnWarn := true; haltOnError := true |}.

(** [fetchAndWrite] with the host functions above. *)
Definition sampleRun (out : option str) (pol : haltPolicy) (env : environment)
  : list effect * final :=
  fetchAndWrite cyan red yellow (lit "function url() { ... }") isTruthy stackText
                posixAbsolute posixResolve (lit "/home/user") everyPathWritable
                (lit "https://example.org/spec/index.html?key=secret")
                out pol defaultOptions env.

End Samples.

(* ================================================================== *)
(** * Properties *)
(* ================================================================== *)

Import JS RegExp DocWriter Spec.

(** ** Strings *)

Lemma str_eqb_eq (a b : str) : str_eqb a b = true <-> a = b.
Proof.
  revert b; induction a as [|x a IH]; intros [|y b]; simpl; split;
    try congruence; try reflexivity.
  - intros H. apply andb_prop in H as [Hx Hab].
    apply Z.eqb_eq in Hx. apply IH in Hab. congruence.
  - intros H. injection H as -> ->. rewrite Z.eqb_refl. simpl. now apply IH.
Qed.

Lemma str_eqb_refl (a : str) : str_eqb a a = true.
Proof. now apply str_eqb_eq. Qed.

Lemma str_eqb_neq (a b : str) : str_eqb a b = false <-> a <> b.
Proof.
  split.
  - intros H E. apply str_eqb_eq in E. congruence.
  - intros H. destruct (str_eqb a b) eqn:E; [|reflexivity].
    apply str_eqb_eq in E. contradiction.
Qed.

Example toString_300000 : toString 300000 = lit "300000".
Proof. reflexivity. Qed.

Example split_version : split 46 (lit "20.10.0") = [lit "20"; lit "10"; lit "0"].
Proof. reflexivity. Qed.

Example parseInt_prefix : parseInt (lit "12abc") = Int 12.
Proof. reflexivity. Qed.

Example parseInt_nan : parseInt (lit "abc") = NaN.
Proof. reflexivity. Qed.

(** ** The regular-expression matcher agrees with the meaning of patterns *)

Section StarFuel.

Lemma shorter_lt (a b : str) : shorter a b = true <-> (List.length a < List.length b)%nat.
Proof.
  revert b; induction a as [|x a IH]; intros [|y b]; simpl; try (split; [discriminate|lia]).
  - split; [lia|reflexivity].
  - rewrite IH. lia.
Qed.

Lemma shorter_nil (a : str) : shorter a [] = false.
Proof. destruct a; reflexivity. Qed.

Lemma flat_map_same {A B} (f g : A -> list B) (l : list A) :
  (forall a, f a = g a) -> flat_map f l = flat_map g l.
Proof. intros H. induction l as [|a l IH]; simpl; [reflexivity|]. now rewrite H, IH. Qed.

Lemma flat_map_none {A B} (l : list A) : flat_map (fun _ : A => @nil B) l = [].
Proof. induction l; simpl; auto. Qed.

Variable step_ : str -> list branch.

Lemma star_fuel (n1 : nat) : forall n2 s,
  (List.length s <= n1)%nat -> (List.length s <= n2)%nat ->
  star step_ n1 s = star step_ n2 s.
Proof.
  induction n1 as [|k1 IH]; intros n2 s H1 H2.
  - destruct s; [|simpl in H1; lia].
    destruct n2 as [|k2]; simpl; [reflexivity|].
    rewrite (flat_map_same _ (fun _ => [])), flat_map_none; [reflexivity|].
    intros b. now rewrite shorter_nil.
  - destruct n2 as [|k2].
    + destruct s; [|simpl in H2; lia]. simpl.
      rewrite (flat_map_same _ (fun _ => [])), flat_map_none; [reflexivity|].
      intros b. now rewrite shorter_nil.
    + simpl. f_equal. apply flat_map_same. intros b.
      destruct (shorter (rest b) s) eqn:E; [|reflexivity].
      apply shorter_lt in E. destruct b as [[m1 s1] c1]. unfold rest in E; simpl in E.
      unfold andThen. f_equal. apply IH; lia.
Qed.

Lemma star_has_empty (n : nat) (s : str) : In ([], s, []) (star step_ n s).
Proof.
  destruct n; simpl; [auto|]. apply in_or_app. right. simpl. auto.
Qed.

End StarFuel.

Lemma in_andThen (x : branch) (m1 s1 : str) (c1 : captures) (f : str -> list branch) :
  In x (andThen (m1, s1, c1) f) <->
  exists m2 s2 c2, In (m2, s2, c2) (f s1) /\ x = (m1 ++ m2, s2, c2 ++ c1).
Proof.
  unfold andThen. rewrite in_map_iff. split.
  - intros ([[m2 s2] c2] & <- & Hin). now exists m2, s2, c2.
  - intros (m2 & s2 & c2 & Hin & ->). now exists (m2, s2, c2).
Qed.

Section StarSound.

Variable r : regex.
Variable input : str.
Hypothesis step_sound : forall s pre m s' c,
  In (m, s', c) (run r input s) -> input = pre ++ s ->
  s = m ++ s' /\ matches r pre m s'.

Lemma star_sound (n : nat) : forall s pre m s' c,
  In (m, s', c) (star (run r input) n s) -> input = pre ++ s ->
  s = m ++ s' /\ (m = [] \/ matches (Plus r) pre m s').
Proof.
  induction n as [|n IH]; intros s pre m s' c Hin Hpre; simpl in Hin.
  - destruct Hin as [E|[]]. injection E as <- <- <-. auto.
  - apply in_app_or in Hin as [Hin|[E|[]]].
    + apply in_flat_map in Hin as ([[m1 s1] c1] & Hb & Hin).
      destruct (shorter (rest (m1, s1, c1)) s); [|contradiction].
      apply in_andThen in Hin as (m2 & s2 & c2 & Hin & E).
      injection E as -> -> ->.
      destruct (step_sound _ _ _ _ _ Hb Hpre) as [-> Hm1].
      assert (Hpre' : input = (pre ++ m1) ++ s1) by now rewrite <- app_assoc.
      destruct (IH _ _ _ _ _ Hin Hpre') as [-> Hm2].
      split; [now rewrite app_assoc|].
      right. destruct Hm2 as [->|Hm2].
      * rewrite app_nil_r. now apply M_PlusOne.
      * now apply M_PlusMore.
    + injection E as <- <- <-. auto.
Qed.

End StarSound.

Theorem run_sound (r : regex) (input : str) : forall s pre m s' c,
  In (m, s', c) (run r input s) -> input = pre ++ s ->
  s = m ++ s' /\ matches r pre m s'.
Proof.
  induction r as [|ch|p|r1 IH1 r2 IH2|r1 IH1|r1 IH1|i r1 IH1| |];
    intros s pre m s' c Hin Hpre; simpl in Hin.
  - destruct Hin as [E|[]]. injection E as <- <- <-. split; [reflexivity|constructor].
  - destruct s as [|x t]; [contradiction|].
    destruct (x =? ch) eqn:E; [|contradiction]. apply Z.eqb_eq in E; subst x.
    destruct Hin as [E|[]]. injection E as <- <- <-. split; [reflexivity|constructor].
  - destruct s as [|x t]; [contradiction|].
    destruct (p x) eqn:E; [|contradiction].
    destruct Hin as [E'|[]]. injection E' as <- <- <-.
    split; [reflexivity|now constructor].
  - apply in_flat_map in Hin as ([[m1 s1] c1] & Hb & Hin).
    apply in_andThen in Hin as (m2 & s2 & c2 & Hin & E).
    injection E as -> -> ->.
    destruct (IH1 _ _ _ _ _ Hb Hpre) as [-> Hm1].
    assert (Hpre' : input = (pre ++ m1) ++ s1) by now rewrite <- app_assoc.
    destruct (IH2 _ _ _ _ _ Hin Hpre') as [-> Hm2].
    split; [now rewrite app_assoc|]. now constructor.
  - apply in_flat_map in Hin as ([[m1 s1] c1] & Hb & Hin).
    apply in_andThen in Hin as (m2 & s2 & c2 & Hin & E).
    injection E as -> -> ->.
    destruct (IH1 _ _ _ _ _ Hb Hpre) as [-> Hm1].
    assert (Hpre' : input = (pre ++ m1) ++ s1) by now rewrite <- app_assoc.
    destruct (star_sound r1 input IH1 _ _ _ _ _ _ Hin Hpre') as [-> Hm2].
    split; [now rewrite app_assoc|].
    destruct Hm2 as [->|Hm2].
    + rewrite app_nil_r. now apply M_PlusOne.
    + now apply M_PlusMore.
  - apply in_app_or in Hin as [Hin|[E|[]]].
    + destruct (IH1 _ _ _ _ _ Hin Hpre) as [-> Hm]. split; [reflexivity|now constructor].
    + injection E as <- <- <-. split; [reflexivity|constructor].
  - apply in_map_iff in Hin as ([[m1 s1] c1] & E & Hin). injection E as -> -> <-.
    destruct (IH1 _ _ _ _ _ Hin Hpre) as [-> Hm]. split; [reflexivity|now constructor].
  - destruct (Nat.eqb_spec (List.length s) (List.length input)) as [E|E]; [|contradiction].
    destruct Hin as [E'|[]]. injection E' as <- <- <-. split; [reflexivity|].
    rewrite Hpre, length_app in E. destruct pre; [constructor|simpl in E; lia].
  - destruct s; [|contradiction].
    destruct Hin as [E|[]]. injection E as <- <- <-. split; [reflexivity|constructor].
Qed.

Lemma plus_in_star (r : regex) (input pre s m post : str) (c : captures) (n : nat) :
  input = pre ++ s -> (List.length s <= n)%nat -> (1 <= n)%nat ->
  In (m, post, c) (run (Plus r) input s) ->
  exists c', In (m, post, c') (star (run r input) n s).
Proof.
  intros Hpre Hn H1 Hin. simpl in Hin.
  apply in_flat_map in Hin as ([[m1 s1] c1] & Hb & Hin).
  apply in_andThen in Hin as (m2 & s2 & c2 & Hin & E).
  injection E as -> -> ->.
  destruct (run_sound _ _ _ _ _ _ _ Hb Hpre) as [Hs _].
  destruct n as [|n']; [lia|]. simpl.
  destruct (shorter s1 s) eqn:Esh.
  - exists (c2 ++ c1). apply in_or_app. left.
    apply in_flat_map. exists (m1, s1, c1). split; [exact Hb|].
    unfold rest; simpl. rewrite Esh.
    apply in_andThen. exists m2, s2, c2. split; [|reflexivity].
    apply shorter_lt in Esh.
    rewrite (star_fuel _ n' (List.length s)); [exact Hin| lia | lia].
  - assert (Hlen : List.length s1 = List.length s).
    { assert (~ (List.length s1 < List.length s)%nat).
      { intros Hlt. apply shorter_lt in Hlt. congruence. }
      rewrite Hs, length_app in *. lia. }
    assert (m1 = []).
    { rewrite Hs, length_app in Hlen. destruct m1; [reflexivity|simpl in Hlen; lia]. }
    subst m1. simpl in Hs. subst s1. simpl.
    exists c2.
    change (In (m2, s2, c2) (star (run r input) (S n') s)).
    rewrite (star_fuel _ (S n') (List.length s)); [exact Hin| lia | lia].
Qed.

Theorem run_complete (r : regex) (pre m post : str) :
  matches r pre m post ->
  forall input, input = pre ++ m ++ post ->
  exists c, In (m, post, c) (run r input (m ++ post)).
Proof.
  induction 1 as [pre post|ch pre post|p x pre post Hp
                 |r1 r2 pre m1 m2 post H1 IH1 H2 IH2
                 |r1 pre m post H1 IH1
                 |r1 pre m1 m2 post H1 IH1 H2 IH2
                 |r1 pre post|r1 pre m post H1 IH1|i r1 pre m post H1 IH1
                 |post|pre];
    intros input Hin; simpl.
  - exists []. auto.
  - exists []. rewrite Z.eqb_refl. simpl. auto.
  - exists []. rewrite Hp. simpl. auto.
  - destruct (IH1 input) as [c1 Hc1]; [now rewrite Hin, <- !app_assoc|].
    destruct (IH2 input) as [c2 Hc2]; [now rewrite Hin, <- !app_assoc|].
    exists (c2 ++ c1). rewrite <- app_assoc.
    apply in_flat_map. exists (m1, m2 ++ post, c1). split; [exact Hc1|].
    apply in_andThen. now exists m2, post, c2.
  - destruct (IH1 input Hin) as [c1 Hc1].
    exists ([] ++ c1).
    apply in_flat_map. exists (m, post, c1). split; [exact Hc1|].
    apply in_andThen. exists [], post, []. split; [apply star_has_empty|].
    now rewrite app_nil_r.
  - destruct m1 as [|x m1].
    + simpl in *. apply IH2. now rewrite app_nil_r in IH2 |- *.
    + destruct (IH1 input) as [c1 Hc1]; [now rewrite Hin, <- !app_assoc|].
      destruct (IH2 input) as [c2 Hc2]; [now rewrite Hin, <- !app_assoc|].
      rewrite <- (app_assoc (x :: m1) m2 post).
      destruct (plus_in_star r1 input (pre ++ x :: m1) (m2 ++ post) m2 post c2
                  (List.length ((x :: m1) ++ m2 ++ post))) as [c' Hc'].
      * now rewrite Hin, <- !app_assoc.
      * rewrite !length_app. simpl. lia.
      * simpl. lia.
      * exact Hc2.
      * exists (c' ++ c1).
        apply in_flat_map. exists (x :: m1, m2 ++ post, c1). split; [exact Hc1|].
        apply in_andThen. now exists m2, post, c'.
  - exists []. apply in_or_app. right. simpl. auto.
  - destruct (IH1 input Hin) as [c1 Hc1]. exists c1. apply in_or_app. now left.
  - destruct (IH1 input Hin) as [c1 Hc1]. exists ((i, m) :: c1).
    apply in_map_iff. now exists (m, post, c1).
  - exists []. simpl in Hin. subst input. rewrite Nat.eqb_refl. simpl. auto.
  - exists []. auto.
Qed.

(** ** [exec] and [test] *)

Lemma scan_some (r : regex) (input : str) : forall s pre res,
  input = pre ++ s -> scan r input pre s = Some res ->
  input = before res ++ matched res ++ after res
  /\ matches r (before res) (matched res) (after res).
Proof.
  induction s as [|x t IH]; intros pre res Hpre Hs; simpl in Hs.
  - destruct (run r input []) as [|[[m s'] c] l] eqn:E; [discriminate|].
    injection Hs as <-. simpl.
    destruct (run_sound r input [] pre m s' c) as [Hm H]; [rewrite E; now left|exact Hpre|].
    split; [now rewrite <- Hm|exact H].
  - destruct (run r input (x :: t)) as [|[[m s'] c] l] eqn:E.
    + apply (IH (pre ++ [x])); [now rewrite <- app_assoc|exact Hs].
    + injection Hs as <-. simpl.
      destruct (run_sound r input (x :: t) pre m s' c) as [Hm H];
        [rewrite E; now left|exact Hpre|].
      split; [now rewrite <- Hm|exact H].
Qed.

Lemma scan_none (r : regex) (input : str) : forall s pre,
  scan r input pre s = None ->
  forall a b, s = a ++ b -> run r input b = [].
Proof.
  induction s as [|x t IH]; intros pre Hs a b Hab; simpl in Hs.
  - destruct a; [|discriminate]. simpl in Hab. subst b.
    destruct (run r input []) as [|[[m s'] c] l]; [reflexivity|discriminate].
  - destruct (run r input (x :: t)) as [|[[m s'] c] l] eqn:E; [|discriminate].
    destruct a as [|y a]; simpl in Hab.
    + now subst b.
    + injection Hab as _ Hab. exact (IH _ Hs a b Hab).
Qed.

(** The matcher reports a match exactly when the pattern matches some part
    of the input. *)
Theorem test_iff (r : regex) (input : str) :
  test r input = true <->
  exists pre m post, input = pre ++ m ++ post /\ matches r pre m post.
Proof.
  unfold test, exec. split.
  - destruct (scan r input [] input) as [res|] eqn:E; [|discriminate].
    intros _. destruct (scan_some r input input [] res eq_refl E) as [H1 H2].
    now exists (before res), (matched res), (after res).
  - intros (pre & m & post & Hin & Hm).
    destruct (scan r input [] input) eqn:E; [reflexivity|].
    destruct (run_complete r pre m post Hm input Hin) as [c Hc].
    rewrite (scan_none r input input [] E pre (m ++ post) Hin) in Hc.
    contradiction.
Qed.

(** A match at the very start of the input is the one [exec] reports. *)
Lemma exec_at_start (r : regex) (input m post : str) :
  input = m ++ post -> matches r [] m post ->
  exists res, exec r input = Some res /\ before res = []
              /\ input = matched res ++ after res
              /\ matches r [] (matched res) (after res).
Proof.
  intros Hin Hm.
  destruct (run_complete r [] m post Hm input Hin) as [c Hc].
  rewrite <- Hin in Hc.
  unfold exec.
  assert (E : exists b l, run r input input = b :: l).
  { destruct (run r input input) as [|b l]; [contradiction|now exists b, l]. }
  destruct E as ([[m' s'] c'] & l & E).
  destruct (run_sound r input input [] m' s' c') as [Hm' H']; [rewrite E; now left|reflexivity|].
  destruct input as [|x t]; simpl; rewrite E; eexists; repeat split; simpl; auto.
Qed.

(** ** The meaning of the pattern forms the script uses *)

Lemma matches_chr (c : Z) (pre m post : str) :
  matches (Chr c) pre m post <-> m = [c].
Proof. split; [inversion 1; reflexivity | intros ->; constructor]. Qed.

Lemma matches_seq (r1 r2 : regex) (pre m post : str) :
  matches (Seq r1 r2) pre m post <->
  exists m1 m2, m = m1 ++ m2 /\ matches r1 pre m1 (m2 ++ post)
                /\ matches r2 (pre ++ m1) m2 post.
Proof.
  split.
  - inversion 1; subst. now exists m1, m2.
  - intros (m1 & m2 & -> & H1 & H2). now constructor.
Qed.

Lemma matches_text (l pre m post : str) :
  matches (text l) pre m post <-> m = l.
Proof.
  revert pre m. induction l as [|c l IH]; intros pre m; simpl.
  - split; [inversion 1; reflexivity | intros ->; constructor].
  - rewrite matches_seq. split.
    + intros (m1 & m2 & -> & H1 & H2). apply matches_chr in H1. apply IH in H2.
      now subst.
    + intros ->. exists [c], l. repeat split; [now apply matches_chr | now apply IH].
Qed.

Lemma matches_plus_cls (p : Z -> bool) (pre m post : str) :
  matches (Plus (Cls p)) pre m post <->
  m <> [] /\ Forall (fun c => p c = true) m.
Proof.
  split.
  - intros H. remember (Plus (Cls p)) as r eqn:Er.
    induction H as [| | |? ? ? ? ? ? ? ? ? ?|r1 pre m post H1 _
                   |r1 pre m1 m2 post H1 _ H2 IH2| | | | |];
      try discriminate; injection Er as ->.
    + inversion H1; subst. split; [discriminate|]. now repeat constructor.
    + inversion H1; subst. destruct (IH2 eq_refl) as [_ HF].
      split; [discriminate|]. simpl. now constructor.
  - intros [Hne HF]. revert pre. induction HF as [|x l Hx HF IH]; intros pre.
    + contradiction.
    + destruct l as [|y l].
      * apply M_PlusOne. now constructor.
      * change (x :: y :: l) with ([x] ++ y :: l).
        apply M_PlusMore; [now constructor|]. apply IH. discriminate.
Qed.

Lemma matches_bol (pre m post : str) :
  matches Bol pre m post <-> pre = [] /\ m = [].
Proof. split; [inversion 1; auto | intros [-> ->]; constructor]. Qed.

Lemma matches_eol (pre m post : str) :
  matches Eol pre m post <-> m = [] /\ post = [].
Proof. split; [inversion 1; auto | intros [-> ->]; constructor]. Qed.

(** ** The patterns of the script *)

Lemma respecBuild_matches (pre m post : str) :
  matches respecBuildRegex pre m post <->
  post = [] /\ exists id, m = lit "/builds/respec-" ++ id ++ lit ".js"
                          /\ id <> [] /\ Forall (fun c => isWordOrHyphen c = true) id.
Proof.
  unfold respecBuildRegex. split.
  - intros H.
    apply matches_seq in H as (m1 & m2 & -> & H1 & H2).
    apply matches_text in H1.
    apply matches_seq in H2 as (m3 & m4 & -> & H3 & H4).
    apply matches_plus_cls in H3 as [Hne HF].
    apply matches_seq in H4 as (m5 & m6 & -> & H5 & H6).
    apply matches_text in H5. apply matches_eol in H6 as [-> ->].
    subst. split; [reflexivity|]. exists m3. rewrite app_nil_r. auto.
  - intros (-> & id & -> & Hne & HF).
    apply matches_seq. exists (lit "/builds/respec-"), (id ++ lit ".js").
    split; [reflexivity|]. split; [now apply matches_text|].
    apply matches_seq. exists id, (lit ".js").
    split; [reflexivity|]. split; [now apply matches_plus_cls|].
    apply matches_seq. exists (lit ".js"), [].
    split; [now rewrite app_nil_r|]. split; [now apply matches_text|].
    now apply matches_eol.
Qed.

(** The build-file pattern accepts exactly the paths that end with
    [/builds/respec-<identifier>.js]. *)
Lemma respecBuild_test (path : str) :
  test respecBuildRegex path = true <-> endsWithBuildFile path.
Proof.
  rewrite test_iff. unfold endsWithBuildFile. split.
  - intros (pre & m & post & -> & H).
    apply respecBuild_matches in H as (-> & id & -> & Hne & HF).
    exists pre, id. rewrite app_nil_r. auto.
  - intros (dir & id & -> & Hne & HF).
    exists dir, (lit "/builds/respec-" ++ id ++ lit ".js"), [].
    split; [now rewrite app_nil_r|].
    apply respecBuild_matches. split; [reflexivity|]. now exists id.
Qed.

(** The polling pattern accepts exactly the texts that contain
    [document.respecDone]. *)
Lemma respecDone_test (t : str) :
  test respecDoneRegex t = true <->
  exists a b, t = a ++ lit "document.respecDone" ++ b.
Proof.
  rewrite test_iff. unfold respecDoneRegex. split.
  - intros (pre & m & post & -> & H). apply matches_text in H. subst. now exists pre, post.
  - intros (a & b & ->). exists a, (lit "document.respecDone"), b.
    split; [reflexivity|]. now apply matches_text.
Qed.

Lemma span_unique (p : Z -> bool) (w1 : str) : forall w2 x y r1 r2,
  Forall (fun c => p c = true) w1 -> Forall (fun c => p c = true) w2 ->
  p x = false -> p y = false ->
  w1 ++ x :: r1 = w2 ++ y :: r2 ->
  w1 = w2 /\ x = y /\ r1 = r2.
Proof.
  induction w1 as [|a w1 IH]; intros w2 x y r1 r2 H1 H2 Hx Hy E.
  - destruct w2 as [|b w2]; simpl in E.
    + injection E as -> ->. auto.
    + injection E as -> _. inversion H2; subst. congruence.
  - destruct w2 as [|b w2]; simpl in E.
    + injection E as -> _. inversion H1; subst. congruence.
    + injection E as -> E. inversion H1; inversion H2; subst.
      destruct (IH w2 x y r1 r2) as (-> & -> & ->); auto.
Qed.

Lemma dataUrlPrefix_matches (pre m post : str) :
  matches dataUrlPrefixRegex pre m post <->
  pre = [] /\ exists w1 w2,
    m = lit "data:" ++ w1 ++ 47 :: w2 ++ lit ";charset=utf-8,"
    /\ w1 <> [] /\ Forall (fun c => isWord c = true) w1
    /\ w2 <> [] /\ Forall (fun c => isWord c = true) w2.
Proof.
  unfold dataUrlPrefixRegex. split.
  - intros H.
    apply matches_seq in H as (m0 & m1 & -> & H0 & H).
    apply matches_bol in H0 as [-> ->].
    apply matches_seq in H as (m2 & m3 & -> & H2 & H).
    apply matches_text in H2.
    apply matches_seq in H as (w1 & m4 & -> & H3 & H).
    apply matches_plus_cls in H3 as [Hne1 HF1].
    apply matches_seq in H as (m5 & m6 & -> & H5 & H).
    apply matches_chr in H5.
    apply matches_seq in H as (w2 & m7 & -> & H6 & H).
    apply matches_plus_cls in H6 as [Hne2 HF2].
    apply matches_text in H. subst.
    split; [reflexivity|]. exists w1, w2. simpl. auto.
  - intros (-> & w1 & w2 & -> & Hne1 & HF1 & Hne2 & HF2).
    apply matches_seq. exists [], (lit "data:" ++ w1 ++ 47 :: w2 ++ lit ";charset=utf-8,").
    split; [reflexivity|]. split; [now apply matches_bol|].
    apply matches_seq. exists (lit "data:"), (w1 ++ 47 :: w2 ++ lit ";charset=utf-8,").
    split; [reflexivity|]. split; [now apply matches_text|].
    apply matches_seq. exists w1, (47 :: w2 ++ lit ";charset=utf-8,").
    split; [reflexivity|]. split; [now apply matches_plus_cls|].
    apply matches_seq. exists [47], (w2 ++ lit ";charset=utf-8,").
    split; [reflexivity|]. split; [now apply matches_chr|].
    apply matches_seq. exists w2, (lit ";charset=utf-8,").
    split; [reflexivity|]. split; [now apply matches_plus_cls|].
    now apply matches_text.
Qed.

(** Replacing the prefix pattern by the empty text removes exactly the
    fixed prefix of a [text/html] data URL. *)
Lemma strip_data_url_prefix (e : str) :
  replace dataUrlPrefixRegex (lit "data:text/html;charset=utf-8," ++ e) [] = e.
Proof.
  unfold replace.
  destruct (exec_at_start dataUrlPrefixRegex
              (lit "data:text/html;charset=utf-8," ++ e)
              (lit "data:text/html;charset=utf-8,") e eq_refl)
    as (res & -> & Hb & Hin & Hm).
  { apply dataUrlPrefix_matches. split; [reflexivity|].
    exists (lit "text"), (lit "html").
    split; [reflexivity|].
    repeat split; try discriminate; repeat constructor. }
  rewrite Hb. cbn [app].
  apply dataUrlPrefix_matches in Hm as (_ & w1 & w2 & Em & _ & HF1 & _ & HF2).
  rewrite Em in Hin.
  change (lit "data:text/html;charset=utf-8," ++ e)
    with (lit "data:" ++ lit "text" ++ 47 :: lit "html" ++ 59 :: lit "charset=utf-8," ++ e) in Hin.
  rewrite <- !app_assoc in Hin. apply app_inv_head in Hin.
  simpl in Hin.
  change (lit ";charset=utf-8,") with (59 :: lit "charset=utf-8,") in Hin.
  destruct (span_unique isWord (lit "text") w1 47 47
              (lit "html" ++ 59 :: lit "charset=utf-8," ++ e)
              ((w2 ++ 59 :: lit "charset=utf-8,") ++ after res))
    as (<- & _ & Hin2); auto.
  { repeat constructor. }
  rewrite <- app_assoc in Hin2.
  destruct (span_unique isWord (lit "html") w2 59 59
              (lit "charset=utf-8," ++ e)
              (lit "charset=utf-8," ++ after res))
    as (<- & _ & Hin3); auto.
  { repeat constructor. }
  apply app_inv_head in Hin3. now symmetry.
Qed.

(** ** The timer *)

Section TimerFacts.

Lemma remaining_unfold (t : timer) (now : Z) :
  remaining t now = Z.max 0 (duration t - (now - start t)).
Proof. reflexivity. Qed.

(** Read at the instant of creation, a timer with a non-negative duration
    still has all of it. *)
Lemma remaining_at_start (t0 d : Z) :
  0 <= d -> remaining (createTimer t0 d) t0 = d.
Proof. intros H. unfold remaining, createTimer; simpl. lia. Qed.

(** C8: every read of a timer's [remaining] value is non-negative, and of
    two reads at non-decreasing clock times the later one is less than or
    equal to the earlier one: the value only decreases and floors at zero. *)
Theorem remaining_nonneg_monotone (t : timer) (now1 now2 : Z) :
  now1 <= now2 ->
  0 <= remaining t now1 /\ 0 <= remaining t now2 /\
  remaining t now2 <= remaining t now1.
Proof.
  intros H. unfold remaining. lia.
Qed.

Lemma remaining_nonneg_monotone_witness :
  0 <= remaining (createTimer 1000 300000) 1500 /\
  0 <= remaining (createTimer 1000 300000) 400000 /\
  remaining (createTimer 1000 300000) 400000
    <= remaining (createTimer 1000 300000) 1500.
Proof.
  apply (remaining_nonneg_monotone (createTimer 1000 300000) 1500 400000).
  lia.
Defined.

End TimerFacts.

(** ** Version gating *)

Section VersionFacts.


(** Once readiness has won the race, [evaluateHTML] does what the selected
    path says: the legacy path calls [exportDocument("html", "text/html")]
    of [ui/save-html] and returns its result as it is; the modern path calls
    [rsDocToDataURL("text/html")] of [core/exporter] and decodes the data
    URL. *)
Lemma evaluateHTML_ready (pg : page) (v : list value) (t : timer) (now : Z)
    (evs : list event) :
  evaluateHTML pg v t now (ReadyResolved :: evs) =
  match selectExport v with
  | Legacy =>
      ([oldVersionWarning pg],
       match saveHtml pg with
       | inl message => Threw (Error message)
       | inr exportDocument => Returned (exportDocument (lit "html") (lit "text/html"))
       end)
  | Modern =>
      ([],
       match exporter pg with
       | inl message => Threw (Error message)
       | inr rsDocToDataURL => fromDataURL (rsDocToDataURL (lit "text/html"))
       end)
  end.
Proof.
  unfold evaluateHTML, timeout. simpl.
  assert (H : forall l, fold_left (settle (remaining t now)) l Fulfilled = Fulfilled).
  { induction l as [|e l IH]; simpl; auto. }
  now rewrite H.
Qed.



End VersionFacts.

Section VersionParsing.

Lemma split_not_nil (sep : Z) (s : str) : split sep s <> [].
Proof.
  destruct s as [|c t]; simpl; [discriminate|].
  destruct (c =? sep); [discriminate|].
  destruct (split sep t); discriminate.
Qed.

Lemma getVersion_parsed (s : str) :
  s <> lit "Developer Edition" ->
  getVersion s = map parseInt (split 46 s).
Proof.
  intros H. unfold getVersion.
  apply str_eqb_neq in H. now rewrite H.
Qed.

(** [parseInt] yields NaN exactly when no digit follows the optional white
    space and sign. *)
Lemma parseInt_NaN_iff (c : str) :
  parseInt c = NaN <-> hasIntegerPrefix c = false.
Proof.
  unfold parseInt, hasIntegerPrefix.
  destruct (trimStart c) as [|x r]; simpl; [tauto|].
  destruct (x =? 45) eqn:E1; simpl.
  - destruct r as [|d r]; simpl; [tauto|].
    destruct (isDigit d); split; congruence.
  - destruct (x =? 43) eqn:E2; simpl.
    + destruct r as [|d r]; simpl; [tauto|].
      destruct (isDigit d); split; congruence.
    + destruct (isDigit x); split; congruence.
Qed.

(** What [parseInt] returns is an integer or NaN. *)
Lemma parseInt_cases (c : str) : parseInt c = NaN \/ exists z, parseInt c = Int z.
Proof.
  unfold parseInt.
  destruct (trimStart c) as [|x r]; [now left|].
  destruct (x =? 45); [|destruct (x =? 43)];
    match goal with
    | |- context [takeDigits ?b] => destruct (takeDigits b); [now left|right; eexists; reflexivity]
    end.
Qed.

Lemma getVersion_cases (s : str) :
  Forall (fun v => v = NaN \/ exists z, v = Int z) (getVersion s).
Proof.
  unfold getVersion. destruct (str_eqb s (lit "Developer Edition")).
  - repeat (apply Forall_cons; [right; eexists; reflexivity|]). apply Forall_nil.
  - apply Forall_map. apply Forall_forall. intros c _. apply parseInt_cases.
Qed.

(** A safe integer is far below the numbers that round to Infinity. *)
Lemma exact_is_finite (z : Z) : isExact (Int z) -> isFinite z = true.
Proof.
  unfold isExact, isFinite. intros H. apply Z.ltb_lt.
  assert (Hb : maxSafeInteger < Z.shiftl 1 1024 - Z.shiftl 1 970)
    by (vm_compute; reflexivity).
  revert Hb. generalize (Z.shiftl 1 1024 - Z.shiftl 1 970). unfold maxSafeInteger in *.
  intros B HB. lia.
Qed.

Lemma byValue_exact (z : Z) (rest : list value) :
  isExact (Int z) -> byValue (Int z :: rest) = Int z :: byValue rest.
Proof. intros H. cbn [byValue map]. now rewrite (exact_is_finite z H). Qed.

Lemma byValue_nan (rest : list value) : byValue (NaN :: rest) = Null :: byValue rest.
Proof. reflexivity. Qed.

(** After the transfer by value, the version test reads a component that
    was NaN as 0. *)
Lemma byValue_counts_as_zero (version : list value) :
  Forall (fun v => v = NaN \/ exists z, v = Int z) version ->
  Forall isExact version ->
  selectExport (byValue version) = selectExport (map nanAsZero version).
Proof.
  intros H Hx.
  destruct H as [|a l Ha H]; [reflexivity|].
  inversion Hx as [|? ? Hxa Hxl]; subst.
  destruct H as [|b l' Hb _].
  - destruct Ha as [-> | [z ->]]; [reflexivity|].
    now rewrite byValue_exact.
  - inversion Hxl as [|? ? Hxb _]; subst.
    destruct Ha as [-> | [z ->]]; destruct Hb as [-> | [z' ->]];
      rewrite ?byValue_nan, ?byValue_exact by assumption;
      rewrite ?byValue_nan, ?byValue_exact by assumption; reflexivity.
Qed.

(** C10, as the code has it: in a version string that is not exactly
    "Developer Edition", a component that does not begin (after optional
    white space and an optional sign) with a decimal digit parses to NaN in
    the page; the parsed array reaches the version test by value, where NaN
    has become null, and null compares as 0.  So the version test reads
    every non-numeric component as 0 (the numeric ones being safe
    integers); a version whose first component is non-numeric selects the
    legacy export path, never the modern one, and so does a version whose
    first component parses to 20 and whose second is non-numeric; and
    [generateHTML] then returns what [exportDocument] of the legacy module
    returns. *)
Theorem non_numeric_version_selects_legacy (s : str) :
  s <> lit "Developer Edition" ->
  hasIntegerPrefix (hd [] (split 46 s)) = false ->
  hd Undefined (getVersion s) = NaN
  /\ hd Undefined (byValue (getVersion s)) = Null
  /\ (Forall (fun c => hasIntegerPrefix c = false) (split 46 s) ->
      Forall (fun v => v = NaN) (getVersion s)
      /\ Forall (fun v => v = Null) (byValue (getVersion s)))
  /\ (Forall isExact (getVersion s) ->
      selectExport (byValue (getVersion s)) = selectExport (map nanAsZero (getVersion s)))
  /\ selectExport (byValue (getVersion s)) = Legacy
  /\ (forall s' c0 c1 rest,
        s' <> lit "Developer Edition" -> split 46 s' = c0 :: c1 :: rest ->
        parseInt c0 = Int 20 -> hasIntegerPrefix c1 = false ->
        selectExport (byValue (getVersion s')) = Legacy)
  /\ (forall colors_debug errTruthy errStack pg u t now evs exportDocument,
        respecVersion pg = s -> saveHtml pg = inr exportDocument ->
        generateHTML colors_debug errTruthy errStack None pg u t now
                     (ReadyResolved :: evs)
        = Returned (exportDocument (lit "html") (lit "text/html"))).
Proof.
  intros Hde Hfirst.
  rewrite (getVersion_parsed s Hde).
  destruct (split 46 s) as [|c cs] eqn:E; [exfalso; exact (split_not_nil 46 s E)|].
  cbn [hd] in Hfirst. apply parseInt_NaN_iff in Hfirst.
  assert (Hleg : selectExport (byValue (map parseInt (c :: cs))) = Legacy).
  { cbn [map byValue]. rewrite Hfirst. reflexivity. }
  split; [exact Hfirst|]. split; [cbn [map byValue hd]; now rewrite Hfirst|].
  split; [|split; [|split; [exact Hleg|split]]].
  - intros Hall.
    assert (Hnan : Forall (fun v => v = NaN) (map parseInt (c :: cs))).
    { apply Forall_map. eapply Forall_impl; [|exact Hall].
      intros c' Hc. now apply parseInt_NaN_iff. }
    split; [exact Hnan|].
    unfold byValue. apply Forall_map. eapply Forall_impl; [|exact Hnan].
    intros v ->. reflexivity.
  - apply byValue_counts_as_zero.
    apply Forall_map. apply Forall_forall. intros c' _. apply parseInt_cases.
  - intros s' c0 c1 rest Hde' Es H20 H1.
    rewrite (getVersion_parsed s' Hde'), Es. cbn [map].
    apply parseInt_NaN_iff in H1. rewrite H20, H1.
    rewrite byValue_exact by (unfold isExact, maxSafeInteger; lia).
    reflexivity.
  - intros colors_debug errTruthy errStack pg u t now evs exportDocument Hv Hs.
    unfold generateHTML. rewrite evaluateHTML_ready, Hv.
    rewrite (getVersion_parsed s Hde), E, Hleg, Hs. reflexivity.
Qed.

Lemma non_numeric_version_selects_legacy_witness :
  hd Undefined (getVersion (lit "abc.def")) = NaN
  /\ selectExport (byValue (getVersion (lit "abc.def"))) = Legacy
  /\ generateHTML Samples.cyan Samples.isTruthy Samples.stackText None
       Samples.unversionedPage
       (Samples.httpsURL "example.org" "/spec/index.html" "")
       (createTimer 0 300000) 1000 [ReadyResolved]
     = Returned (lit "<html>legacy</html>").
Proof.
  destruct (non_numeric_version_selects_legacy (lit "abc.def"))
    as (H1 & _ & _ & _ & H2 & _ & H3).
  - vm_compute. discriminate.
  - vm_compute. reflexivity.
  - split; [exact H1|]. split; [exact H2|].
    exact (H3 Samples.cyan Samples.isTruthy Samples.stackText Samples.unversionedPage
              (Samples.httpsURL "example.org" "/spec/index.html" "")
              (createTimer 0 300000) 1000 [] (fun _ _ => lit "<html>legacy</html>")
              eq_refl eq_refl).
Defined.

(** C10 as stated fails: no component of "abc.def" is a decimal integer and
    both parse to NaN in the page, yet the array reaches the version test as
    [null, null], the legacy path is selected, and on a page that offers
    both export modules [generateHTML] returns the document of the legacy
    one. *)
Lemma non_numeric_version_takes_legacy_path :
  lit "abc.def" <> lit "Developer Edition"
  /\ Forall (fun c => isDecimalInteger c = false) (split 46 (lit "abc.def"))
  /\ getVersion (lit "abc.def") = [NaN; NaN]
  /\ byValue (getVersion (lit "abc.def")) = [Null; Null]
  /\ selectExport (byValue (getVersion (lit "abc.def"))) <> Modern
  /\ generateHTML Samples.cyan Samples.isTruthy Samples.stackText None
       Samples.unversionedPage
       (Samples.httpsURL "example.org" "/spec/index.html" "")
       (createTimer 0 300000) 1000 [ReadyResolved]
     = Returned (lit "<html>legacy</html>")
  /\ exporter Samples.unversionedPage
     = inr (fun _ => lit "data:text/html;charset=utf-8,%3Chtml%3Emodern").
Proof.
  split; [vm_compute; discriminate|].
  split; [vm_compute; repeat constructor|].
  split; [reflexivity|]. split; [reflexivity|].
  split; [vm_compute; discriminate|].
  split; reflexivity.
Qed.

(** A second way in which C10 as stated fails: the single component of
    "12abc" is not a decimal integer, yet [parseInt] reads its digit prefix
    and the parsed version is [12], not NaN. *)
Lemma digit_prefix_version_selects_legacy :
  lit "12abc" <> lit "Developer Edition"
  /\ Forall (fun c => isDecimalInteger c = false) (split 46 (lit "12abc"))
  /\ getVersion (lit "12abc") = [Int 12]
  /\ ~ Forall (fun v => v = NaN) (getVersion (lit "12abc"))
  /\ selectExport (byValue (getVersion (lit "12abc"))) = Legacy.
Proof.
  split; [vm_compute; discriminate|].
  split; [vm_compute; repeat constructor|].
  split; [reflexivity|].
  split; [|reflexivity].
  intros H. vm_compute in H. inversion H as [|? ? Hc _]. discriminate.
Qed.

End VersionParsing.

(** ** The readiness race *)

Section ReadinessRace.

Lemma settle_rejected (ms : Z) (e : exn) (evs : list event) :
  fold_left (settle ms) evs (Rejected e) = Rejected e.
Proof. induction evs as [|ev evs IH]; simpl; auto. Qed.

Lemma timeout_timer_first (ms : Z) (evs : list event) :
  timeout (TimerFired :: evs) ms = Rejected (Reason (timeoutMsg ms)).
Proof. unfold timeout. simpl. apply settle_rejected. Qed.

(** C2, as the code has it: when the timer fires before the readiness
    promise settles, extraction fails with the timeout message, and the
    number of milliseconds in it is what was left on the timer when the
    wait began: the configured duration minus the time spent since the
    timer was created, floored at zero.  That number never exceeds the
    configured duration, and for a positive duration it equals the
    configured duration exactly when no time has been spent.  (Durations
    are safe integers and the clock does not run backwards.) *)
Theorem timeout_reports_remaining (pg : page) (v : list value)
    (d t0 now : Z) (evs : list event) :
  0 <= d <= maxSafeInteger -> t0 <= now ->
  evaluateHTML pg v (createTimer t0 d) now (TimerFired :: evs)
  = ([], Threw (Reason (lit "Timeout: document.respecIsReady didn't resolve in "
                        ++ toString (Z.max 0 (d - (now - t0))) ++ lit "ms.")))
  /\ remaining (createTimer t0 d) now = Z.max 0 (d - (now - t0))
  /\ 0 <= Z.max 0 (d - (now - t0)) <= d
  /\ (0 < d -> (Z.max 0 (d - (now - t0)) = d <-> now = t0)).
Proof.
  intros Hd Hnow.
  split; [unfold evaluateHTML; rewrite timeout_timer_first; reflexivity|].
  split; [reflexivity|]. split; lia.
Qed.

Lemma timeout_reports_remaining_witness :
  evaluateHTML Samples.noPage (getVersion (respecVersion Samples.noPage))
               (createTimer 0 300000) 1000 [TimerFired; ReadyResolved]
  = ([], Threw (Reason (lit "Timeout: document.respecIsReady didn't resolve in "
                        ++ toString (Z.max 0 (300000 - (1000 - 0))) ++ lit "ms.")))
  /\ remaining (createTimer 0 300000) 1000 = Z.max 0 (300000 - (1000 - 0))
  /\ 0 <= Z.max 0 (300000 - (1000 - 0)) <= 300000
  /\ (0 < 300000 -> (Z.max 0 (300000 - (1000 - 0)) = 300000 <-> 1000 = 0)).
Proof.
  apply (timeout_reports_remaining Samples.noPage
           (getVersion (respecVersion Samples.noPage)) 300000 0 1000 [ReadyResolved]).
  - unfold maxSafeInteger. lia.
  - lia.
Defined.

(** C2 as stated fails: with a configured timeout of 300000 ms and one
    second already spent when the wait begins, the message names 299000 ms;
    the configured duration does not occur in it. *)
Lemma timeout_message_not_configured_duration :
  evaluateHTML Samples.noPage (getVersion (respecVersion Samples.noPage))
               (createTimer 0 300000) 1000 [TimerFired]
  = ([], Threw (Reason (timeoutMsg 299000)))
  /\ timeoutMsg 299000 <> timeoutMsg 300000
  /\ includes (timeoutMsg 299000) (toString 300000) = false.
Proof.
  split; [reflexivity|]. split; [|vm_compute; reflexivity].
  vm_compute. discriminate.
Qed.

End ReadinessRace.

(** ** The console relay *)

Section ConsoleRelay.

Variable colors_debug colors_error colors_warn : str -> str.

Local Abbreviation handle := (handleConsoleMessage colors_debug colors_error colors_warn).

Lemma noise_guard (m : consoleMessage) :
  (str_eqb (msgType m) (lit "error") || str_eqb (msgType m) (lit "warning"))
  && negb (str_eqb (msgText m) [])
  && (List.length (msgArgs m) =? 0)%nat = true
  <-> isBrowserNoise m.
Proof.
  unfold isBrowserNoise. rewrite !andb_true_iff, orb_true_iff, negb_true_iff.
  rewrite !str_eqb_eq, str_eqb_neq, Nat.eqb_eq, length_zero_iff_nil.
  tauto.
Qed.

Lemma noise_guard_false (m : consoleMessage) :
  ~ isBrowserNoise m ->
  (str_eqb (msgType m) (lit "error") || str_eqb (msgType m) (lit "warning"))
  && negb (str_eqb (msgText m) [])
  && (List.length (msgArgs m) =? 0)%nat = false.
Proof.
  intros H. apply not_true_is_false. intros E. apply H. now apply noise_guard.
Qed.

(** The resolved text contains the readiness-polling expression. *)
Lemma polling_text_iff (m : consoleMessage) :
  test respecDoneRegex (resolvedText m) = true <-> mentionsPolling m.
Proof. apply respecDone_test. Qed.

(** C4: for every console event, (1) an "error" or "warning" with non-empty
    raw text and no structured arguments changes nothing: no line printed,
    no flag set; (2) a "warning" whose resolved text matches
    [document.respecDone] changes nothing either; (3) any other "error"
    sets the error-halt flag (and prints one line); (4) any other "warning"
    sets the warning-halt flag (and prints one line); (5) an event of any
    other severity changes nothing. *)
Theorem console_relay_classification (st : relay) (m : consoleMessage) :
  (isBrowserNoise m -> handle st m = st)
  /\ (msgType m = lit "warning" -> mentionsPolling m -> handle st m = st)
  /\ (msgType m = lit "error" -> ~ isBrowserNoise m ->
      error (flags (handle st m)) = true
      /\ warn (flags (handle st m)) = warn (flags st)
      /\ List.length (printed (handle st m)) = S (List.length (printed st)))
  /\ (msgType m = lit "warning" -> ~ isBrowserNoise m -> ~ mentionsPolling m ->
      warn (flags (handle st m)) = true
      /\ error (flags (handle st m)) = error (flags st)
      /\ List.length (printed (handle st m)) = S (List.length (printed st)))
  /\ (msgType m <> lit "error" -> msgType m <> lit "warning" ->
      handle st m = st).
Proof.
  unfold handleConsoleMessage.
  split; [|split; [|split; [|split]]].
  - intros Hnoise. apply noise_guard in Hnoise. now rewrite Hnoise.
  - intros Hw Hre. apply polling_text_iff in Hre.
    destruct (_ && _ && _); [reflexivity|].
    rewrite Hw. simpl str_eqb. now rewrite Hre.
  - intros He Hgen.
    rewrite (noise_guard_false m Hgen), He. simpl.
    rewrite length_app. simpl. repeat split. lia.
  - intros Hw Hgen Hre.
    assert (Hre' : test respecDoneRegex (resolvedText m) = false).
    { apply not_true_is_false. intros E. apply Hre. now apply polling_text_iff. }
    rewrite (noise_guard_false m Hgen), Hw. simpl str_eqb. rewrite Hre'. simpl.
    rewrite length_app. simpl. repeat split. lia.
  - intros He Hw.
    apply str_eqb_neq in He, Hw. rewrite He, Hw. reflexivity.
Qed.

End ConsoleRelay.

(** ** Substrings *)

Section Substrings.

Lemma startsWith_app (s t : str) : startsWith (s ++ t) s = true.
Proof.
  induction s as [|x s IH]; simpl; [reflexivity|].
  now rewrite Z.eqb_refl, IH.
Qed.

Lemma includes_app (a s b : str) : includes (a ++ s ++ b) s = true.
Proof.
  induction a as [|x a IH]; simpl.
  - destruct (s ++ b) eqn:E; simpl; rewrite <- E, startsWith_app; reflexivity.
  - rewrite IH. apply orb_true_r.
Qed.

Lemma includes_intro (l s : str) :
  (exists a b, l = a ++ s ++ b) -> includes l s = true.
Proof. intros (a & b & ->). apply includes_app. Qed.

End Substrings.

(** ** The [colors] styles on one line *)

Lemma replaceAll_plain (p rep s : str) :
  Forall (fun c => c <> 27) s -> Samples.replaceAll (27 :: p) rep 0 s = s.
Proof.
  induction 1 as [|c s Hc _ IH]; [reflexivity|].
  cbn [Samples.replaceAll startsWith]. apply Z.eqb_neq in Hc. rewrite Hc.
  cbn [andb]. now rewrite IH.
Qed.

Lemma no_line_feed (s : str) :
  Forall (fun c => c <> 10) s -> existsb (fun c => c =? 10) s = false.
Proof.
  induction 1 as [|c s Hc _ IH]; [reflexivity|].
  cbn [existsb]. apply Z.eqb_neq in Hc. now rewrite Hc, IH.
Qed.

Lemma plainLine_no_esc (s : str) : plainLine s -> Forall (fun c => c <> 27) s.
Proof.
  intros H. eapply Forall_impl; [|exact H]. intros a Ha. cbv beta in Ha. tauto.
Qed.

Lemma plainLine_no_lf (s : str) : plainLine s -> Forall (fun c => c <> 10) s.
Proof.
  intros H. eapply Forall_impl; [|exact H]. intros a Ha. cbv beta in Ha. tauto.
Qed.

(** On a text of one line without escape characters a style of the
    [colors] package only puts its codes around the text. *)
Lemma applyStyle_wraps_line (n : string) (s : str) :
  plainLine s ->
  exists a b, Samples.applyStyle (Samples.sgr n) (Samples.sgr "39") s = a ++ s ++ b.
Proof.
  intros H. destruct s as [|c t]; [now exists [], []|].
  exists (Samples.sgr n), (Samples.sgr "39").
  unfold Samples.applyStyle.
  rewrite no_line_feed by now apply plainLine_no_lf.
  change (Samples.sgr "39") with (27 :: [91; 51; 57; 109]).
  rewrite replaceAll_plain by now apply plainLine_no_esc.
  reflexivity.
Qed.

Lemma cyan_wraps_line (s : str) :
  plainLine s -> exists a b, Samples.cyan s = a ++ s ++ b.
Proof. apply applyStyle_wraps_line. Qed.

(** ** Request interception *)

Section Interception.

Variable colors_info : str -> str.
Variable buildsDir : str.
Variable readFile : str -> option str.

Local Abbreviation step1 := (step colors_info buildsDir readFile).
Local Abbreviation run_events := (steps colors_info buildsDir readFile).

(** A request the predicate rejects is continued at once. *)
Lemma rejected_request_continues (st : net) (r : request) :
  listening st = true -> isRespecScript r = false ->
  requestInterceptor r = CallContinue
  /\ answered (step1 st (Arrives r)) = (r, Continued) :: answered st.
Proof.
  intros Hl Hr. unfold requestInterceptor. rewrite Hr. simpl.
  split; [reflexivity|]. rewrite Hl. unfold requestInterceptor. now rewrite Hr.
Qed.

(** An accepted request whose path the profile pattern does not match makes
    the listener throw before it answers: the page state is left as it was,
    with the request neither answered nor continued. *)
Lemma unmatched_profile_stalls (st : net) (r : request) :
  listening st = true -> isRespecScript r = true ->
  exec respecProfileRegex (pathname (url r)) = None ->
  requestInterceptor r = Throws TypeError /\ step1 st (Arrives r) = st.
Proof.
  intros Hl Hr He.
  assert (H : requestInterceptor r = Throws TypeError).
  { unfold requestInterceptor. now rewrite Hr, He. }
  split; [exact H|]. simpl. now rewrite Hl, H.
Qed.

End Interception.

(** C9: some request is accepted by the interception predicate while the
    profile pattern does not match its path: a GET script request to
    www.w3.org whose path begins with /Tools/respec/ and whose last segment
    does not begin with "respec-".  For it the match is null, indexing it
    throws, and the listener neither substitutes the local script nor lets
    the request continue. *)
Theorem accepted_request_without_profile :
  exists r : request,
    method r = lit "GET" /\ resourceType r = lit "script"
    /\ host (url r) = lit "www.w3.org"
    /\ startsWith (pathname (url r)) (lit "/Tools/respec/") = true
    /\ startsWith (filename (pathname (url r))) (lit "respec-") = false
    /\ isRespecScript r = true
    /\ exec respecProfileRegex (pathname (url r)) = None
    /\ requestInterceptor r = Throws TypeError
    /\ (forall colors_info buildsDir readFile st,
          listening st = true ->
          step colors_info buildsDir readFile st (Arrives r) = st).
Proof.
  exists (Samples.scriptRequest "www.w3.org" "/Tools/respec/foo.js").
  repeat (split; [reflexivity|]).
  intros colors_info buildsDir readFile st Hl.
  now apply unmatched_profile_stalls.
Qed.

Section InterceptionRuns.

Variable colors_info : str -> str.
Variable buildsDir : str.
Variable readFile : str -> option str.

Local Abbreviation step1 := (step colors_info buildsDir readFile).
Local Abbreviation run_events := (steps colors_info buildsDir readFile).

Lemma steps_app (st : net) (a b : list netEvent) :
  run_events st (a ++ b) = run_events (run_events st a) b.
Proof. apply fold_left_app. Qed.

(** Nothing registers the listener again or switches interception back on. *)
Lemma disarmed_step (st : net) (ev : netEvent) :
  listening st = false -> intercepting st = false ->
  listening (step1 st ev) = false /\ intercepting (step1 st ev) = false.
Proof.
  intros Hl Hi. destruct ev as [r|i|i]; simpl.
  - rewrite Hl, Hi. simpl. auto.
  - destruct (nth_error (reading st) i) as [[r path]|]; [|auto].
    destruct (readFile path); simpl; auto.
  - destruct (nth_error (responding st) i); simpl; auto.
Qed.

Lemma disarmed_steps (evs : list netEvent) (st : net) :
  listening st = false -> intercepting st = false ->
  listening (run_events st evs) = false /\ intercepting (run_events st evs) = false.
Proof.
  revert st. induction evs as [|ev evs IH]; intros st Hl Hi; simpl; [auto|].
  destruct (disarmed_step st ev Hl Hi) as [Hl' Hi']. now apply IH.
Qed.

Lemma disarmed_request_passes (st : net) (r : request) :
  listening st = false -> intercepting st = false ->
  answered (step1 st (Arrives r)) = (r, Continued) :: answered st.
Proof. intros Hl Hi. simpl. now rewrite Hl, Hi. Qed.

Lemma length_remove_nth {A} (i : nat) (l : list A) (x : A) :
  nth_error l i = Some x -> S (List.length (remove_nth i l)) = List.length l.
Proof.
  revert i. induction l as [|y l IH]; intros i H; [destruct i; discriminate|].
  destruct i as [|i]; simpl in *; [reflexivity|]. now rewrite (IH i H).
Qed.

(** A started read means that the predicate accepted the request. *)
Lemma startRead_accepted (r : request) (profile : str) :
  requestInterceptor r = StartRead profile -> isRespecScript r = true.
Proof.
  unfold requestInterceptor. destruct (isRespecScript r); [reflexivity|discriminate].
Qed.

(** One event adds at most one to the substitutions made and the reads
    pending, and only when it is the arrival of an accepted request at a
    listener that is still registered; and the listener is never
    registered again. *)
Lemma substitutions_step (st : net) (ev : netEvent) :
  (substitutions (step1 st ev) + List.length (reading (step1 st ev))
   <= substitutions st + List.length (reading st)
      + (if listening st then List.length (acceptedArrivals [ev]) else 0))%nat
  /\ (listening st = false -> listening (step1 st ev) = false).
Proof.
  unfold substitutions, acceptedArrivals.
  destruct ev as [r|i|i]; cbn [step arrivals flat_map app filter].
  - destruct (listening st) eqn:Hl.
    + destruct (requestInterceptor r) as [|profile|e] eqn:E;
        cbn [answered reading listening filter isSubstituted snd].
      * split; [lia|discriminate].
      * rewrite (startRead_accepted r profile E), length_app. simpl. split; [lia|discriminate].
      * split; [lia|discriminate].
    + destruct (intercepting st);
        cbn [answered reading listening filter isSubstituted snd]; split; auto; lia.
  - destruct (nth_error (reading st) i) as [[r path]|] eqn:E.
    + pose proof (length_remove_nth i (reading st) _ E).
      destruct (readFile path);
        cbn [answered reading listening filter isSubstituted snd List.length];
        split; auto; destruct (listening st); lia.
    + split; auto. destruct (listening st); lia.
  - destruct (nth_error (responding st) i);
      cbn [answered reading listening]; split; auto; destruct (listening st); lia.
Qed.

Lemma acceptedArrivals_cons (ev : netEvent) (evs : list netEvent) :
  List.length (acceptedArrivals (ev :: evs))
  = (List.length (acceptedArrivals [ev]) + List.length (acceptedArrivals evs))%nat.
Proof.
  unfold acceptedArrivals. cbn [arrivals flat_map].
  now rewrite app_nil_r, filter_app, length_app.
Qed.

Lemma substitutions_steps (evs : list netEvent) : forall st,
  (substitutions (run_events st evs) + List.length (reading (run_events st evs))
   <= substitutions st + List.length (reading st)
      + (if listening st then List.length (acceptedArrivals evs) else 0))%nat.
Proof.
  induction evs as [|ev evs IH]; intros st; [simpl; destruct (listening st); lia|].
  change (run_events st (ev :: evs)) with (run_events (step1 st ev) evs).
  specialize (IH (step1 st ev)).
  destruct (substitutions_step st ev) as [Hstep Hoff].
  rewrite acceptedArrivals_cons.
  destruct (listening st) eqn:Hl.
  - destruct (listening (step1 st ev)); lia.
  - rewrite (Hoff eq_refl) in IH. lia.
Qed.

Lemma quiescent_after_request (st : net) (r : request) :
  quiescent st ->
  quiescent (run_events st [Arrives r; FileRead 0; Responded 0]).
Proof.
  destruct st as [ic li rd rs an out].
  unfold quiescent, substitutions; simpl.
  intros (-> & -> & [[-> Hs] | (-> & -> & Hs)]).
  - destruct (requestInterceptor r) as [|profile|e]; simpl.
    + tauto.
    + destruct (readFile (localPath buildsDir profile)); simpl.
      * rewrite Hs. intuition lia.
      * tauto.
    + tauto.
  - simpl. tauto.
Qed.

Lemma quiescent_one_at_a_time (rs : list request) (st : net) :
  quiescent st -> quiescent (run_events st (handledOneAtATime rs)).
Proof.
  revert st. induction rs as [|r rs IH]; intros st H; [exact H|].
  change (handledOneAtATime (r :: rs))
    with ([Arrives r; FileRead 0; Responded 0] ++ handledOneAtATime rs).
  rewrite steps_app. apply IH. now apply quiescent_after_request.
Qed.

(** C7, as the code has it: (1) when the [respond] of a substitution
    completes, the listener is removed and interception is disabled;
    (2) from then on they stay off, and every request that arrives is
    passed through unmodified; (3) whatever the order of events, the
    requests answered with the local build are at most as many as the
    accepted requests that arrived; (4) and at most as many as the accepted
    requests that arrived before the listener was removed, so that a run in
    which one accepted request arrives before the removal has at most one
    substitution, whatever else arrives in between; (5) in a run in which
    each request is handled to completion before the next one arrives, at
    most one request is answered with the local build. *)
Theorem substitution_disarms_interception :
  (forall st i, nth_error (responding st) i <> None ->
     listening (step1 st (Responded i)) = false
     /\ intercepting (step1 st (Responded i)) = false)
  /\ (forall st evs r,
        listening st = false -> intercepting st = false ->
        answered (step1 (run_events st evs) (Arrives r))
        = (r, Continued) :: answered (run_events st evs))
  /\ (forall evs,
        (substitutions (run_events useLocalReSpec evs)
         <= List.length (acceptedArrivals evs))%nat)
  /\ (forall evs1 evs2,
        listening (run_events useLocalReSpec evs1) = false ->
        (substitutions (run_events useLocalReSpec (evs1 ++ evs2))
         <= List.length (acceptedArrivals evs1))%nat)
  /\ (forall rs,
        (substitutions (run_events useLocalReSpec (handledOneAtATime rs)) <= 1)%nat).
Proof.
  split; [|split; [|split; [|split]]].
  - intros st i H. simpl. destruct (nth_error (responding st) i); [|contradiction].
    simpl. auto.
  - intros st evs r Hl Hi.
    destruct (disarmed_steps evs st Hl Hi) as [Hl' Hi'].
    now apply disarmed_request_passes.
  - intros evs. pose proof (substitutions_steps evs useLocalReSpec) as H.
    cbn [listening useLocalReSpec reading List.length] in H.
    change (substitutions useLocalReSpec) with 0%nat in H. lia.
  - intros evs1 evs2 Hoff. rewrite steps_app.
    pose proof (substitutions_steps evs1 useLocalReSpec) as H1.
    pose proof (substitutions_steps evs2 (run_events useLocalReSpec evs1)) as H2.
    rewrite Hoff in H2.
    cbn [listening useLocalReSpec reading List.length] in H1.
    change (substitutions useLocalReSpec) with 0%nat in H1. lia.
  - intros rs.
    assert (H : quiescent useLocalReSpec).
    { unfold quiescent, substitutions; simpl. auto. }
    apply (quiescent_one_at_a_time rs) in H.
    destruct H as (_ & _ & [[_ H] | (_ & _ & H)]); lia.
Qed.

End InterceptionRuns.

Lemma substitution_disarms_interception_witness :
  answered
    (steps Samples.blue Samples.buildsDir Samples.everyBuild useLocalReSpec
       [Arrives (Samples.scriptRequest "www.w3.org" "/Tools/respec/respec-w3c");
        FileRead 0; Responded 0;
        Arrives (Samples.scriptRequest "www.w3.org" "/Tools/respec/respec-w3c")])
  = [(Samples.scriptRequest "www.w3.org" "/Tools/respec/respec-w3c", Continued);
     (Samples.scriptRequest "www.w3.org" "/Tools/respec/respec-w3c",
      Substituted (lit "/opt/respec/builds/respec-w3c.js") (lit "/* local build */"))]
  /\ (substitutions
        (steps Samples.blue Samples.buildsDir Samples.everyBuild useLocalReSpec
           ([Arrives (Samples.scriptRequest "www.w3.org" "/Tools/respec/respec-w3c");
             Arrives (Samples.scriptRequest "example.org" "/app.js");
             FileRead 0; Responded 0]
            ++ [Arrives (Samples.scriptRequest "www.w3.org"
                                               "/Tools/respec/respec-w3c-common");
                FileRead 0; Responded 0]))
      <= 1)%nat.
Proof.
  pose proof (substitution_disarms_interception
                Samples.blue Samples.buildsDir Samples.everyBuild) as (H1 & H2 & _ & H4 & _).
  split; [|exact (H4 [Arrives (Samples.scriptRequest "www.w3.org" "/Tools/respec/respec-w3c");
                      Arrives (Samples.scriptRequest "example.org" "/app.js");
                      FileRead 0; Responded 0]
                     [Arrives (Samples.scriptRequest "www.w3.org"
                                                     "/Tools/respec/respec-w3c-common");
                      FileRead 0; Responded 0] eq_refl)].
  set (r := Samples.scriptRequest "www.w3.org" "/Tools/respec/respec-w3c").
  set (st1 := steps Samples.blue Samples.buildsDir Samples.everyBuild useLocalReSpec
                [Arrives r; FileRead 0]).
  assert (Hr : nth_error (responding st1) 0 <> None) by (vm_compute; discriminate).
  destruct (H1 st1 0%nat Hr) as [Hl Hi].
  change (answered
            (step Samples.blue Samples.buildsDir Samples.everyBuild
               (steps Samples.blue Samples.buildsDir Samples.everyBuild
                  (step Samples.blue Samples.buildsDir Samples.everyBuild st1 (Responded 0))
                  [])
               (Arrives r)) = [(r, Continued);
                               (r, Substituted (lit "/opt/respec/builds/respec-w3c.js")
                                     (lit "/* local build */"))]).
  rewrite (H2 _ [] r Hl Hi). reflexivity.
Defined.

(** C7 as stated fails: when a second accepted request arrives while the
    listener is still reading the local build for the first one, both
    requests are answered with a local build. *)
Lemma concurrent_requests_both_substituted :
  substitutions
    (steps Samples.blue Samples.buildsDir Samples.everyBuild useLocalReSpec
       [Arrives (Samples.scriptRequest "www.w3.org" "/Tools/respec/respec-w3c");
        Arrives (Samples.scriptRequest "www.w3.org" "/Tools/respec/respec-w3c-common");
        FileRead 0; FileRead 0; Responded 0; Responded 0])
  = 2%nat
  /\ ~ (forall readFile evs,
          (substitutions (steps Samples.blue Samples.buildsDir readFile
                            useLocalReSpec evs) <= 1)%nat).
Proof.
  split; [reflexivity|].
  intros H.
  specialize (H Samples.everyBuild
    [Arrives (Samples.scriptRequest "www.w3.org" "/Tools/respec/respec-w3c");
     Arrives (Samples.scriptRequest "www.w3.org" "/Tools/respec/respec-w3c-common");
     FileRead 0; FileRead 0; Responded 0; Responded 0]).
  vm_compute in H. lia.
Qed.

(** ** The interception predicate *)

Section InterceptionPredicate.

Lemma split_app_sep (sep : Z) (a s : str) :
  split sep (a ++ sep :: s) = split sep a ++ split sep s.
Proof.
  induction a as [|c a IH]; simpl.
  - now rewrite Z.eqb_refl.
  - destruct (c =? sep); [now rewrite IH|].
    rewrite IH. destruct (split sep a) as [|h r] eqn:E; [|reflexivity].
    exfalso. exact (split_not_nil sep a E).
Qed.

Lemma split_no_sep (sep : Z) (s : str) :
  Forall (fun c => c <> sep) s -> split sep s = [s].
Proof.
  induction 1 as [|c s Hc HF IH]; simpl; [reflexivity|].
  apply Z.eqb_neq in Hc. now rewrite Hc, IH.
Qed.

Lemma last_app_cons {A} (l1 : list A) (x : A) (l2 : list A) (d : A) :
  last (l1 ++ x :: l2) d = last (x :: l2) d.
Proof.
  induction l1 as [|y l1 IH]; [reflexivity|].
  simpl app. rewrite <- IH. simpl. destruct (l1 ++ x :: l2) eqn:E; [|reflexivity].
  destruct l1; discriminate.
Qed.

(** The file name of a path is what follows its last slash. *)
Lemma filename_after_slash (dir f : str) :
  Forall (fun c => c <> 47) f -> filename (dir ++ 47 :: f) = f.
Proof.
  intros H. unfold filename.
  rewrite split_app_sep, (split_no_sep 47 f H).
  now rewrite last_app_cons.
Qed.

Lemma wordOrHyphen_not_slash (id : str) :
  Forall (fun c => isWordOrHyphen c = true) id -> Forall (fun c => c <> 47) id.
Proof.
  intros H. eapply Forall_impl; [|exact H].
  intros c Hc ->. discriminate.
Qed.

(** A path that ends with [/builds/respec-<identifier>.js] has a file name
    of the form [respec-<identifier>.js]. *)
Lemma build_file_has_respec_filename (path : str) :
  endsWithBuildFile path -> isRespecFileName (filename path) = true.
Proof.
  intros (dir & id & -> & Hne & HF).
  assert (E : dir ++ lit "/builds/respec-" ++ id ++ lit ".js"
              = (dir ++ lit "/builds") ++ 47 :: (lit "respec-" ++ id ++ lit ".js")).
  { rewrite <- app_assoc. reflexivity. }
  rewrite E, filename_after_slash.
  - unfold isRespecFileName. apply test_iff.
    exists [], (lit "respec-" ++ id ++ lit ".js"), [].
    split; [now rewrite app_nil_r|].
    apply matches_seq. exists [], (lit "respec-" ++ id ++ lit ".js").
    split; [reflexivity|]. split; [now apply matches_bol|].
    apply matches_seq. exists (lit "respec-"), (id ++ lit ".js").
    split; [reflexivity|]. split; [now apply matches_text|].
    apply matches_seq. exists id, (lit ".js").
    split; [reflexivity|]. split; [now apply matches_plus_cls|].
    apply matches_seq. exists (lit ".js"), [].
    split; [now rewrite app_nil_r|]. split; [now apply matches_text|].
    now apply matches_eol.
  - apply Forall_app. split; [repeat constructor; discriminate|].
    apply Forall_app. split; [now apply wordOrHyphen_not_slash|].
    repeat constructor; discriminate.
Qed.

Lemma isRespecScript_get_script (r : request) :
  isRespecScript r = true -> method r = lit "GET" /\ resourceType r = lit "script".
Proof.
  unfold isRespecScript.
  destruct (str_eqb (method r) (lit "GET")) eqn:Em;
    destruct (str_eqb (resourceType r) (lit "script")) eqn:Et;
    simpl; try discriminate.
  intros _. split; now apply str_eqb_eq.
Qed.

Lemma isRespecScript_by_host (r : request) :
  method r = lit "GET" -> resourceType r = lit "script" ->
  isRespecScript r =
  if str_eqb (host (url r)) (lit "www.w3.org") then
    startsWith (pathname (url r)) (lit "/Tools/respec/")
    && negb (includes (pathname (url r)) (lit "respec-highlight"))
  else if str_eqb (host (url r)) (lit "w3c.github.io") then
    startsWith (pathname (url r)) (lit "/respec/builds/")
  else test respecBuildRegex (pathname (url r)).
Proof.
  intros Hm Ht. unfold isRespecScript. rewrite Hm, Ht, !str_eqb_refl. reflexivity.
Qed.

(** C3, as the code has it: the predicate accepts a request only if it is
    a GET of resource type "script"; for such a request, on www.w3.org it
    accepts exactly the paths that begin with /Tools/respec/ and do not
    contain "respec-highlight"; on w3c.github.io exactly those that begin
    with /respec/builds/; on any other host exactly those that end with
    /builds/respec-<identifier>.js (so the file name has the form
    respec-<identifier>.js and lies in a directory named builds); and every
    request it does not accept is continued unmodified. *)
Theorem interception_predicate (r : request) :
  (isRespecScript r = true ->
     method r = lit "GET" /\ resourceType r = lit "script")
  /\ (method r = lit "GET" -> resourceType r = lit "script" ->
        (host (url r) = lit "www.w3.org" ->
           (isRespecScript r = true <->
            startsWith (pathname (url r)) (lit "/Tools/respec/") = true
            /\ includes (pathname (url r)) (lit "respec-highlight") = false))
        /\ (host (url r) = lit "w3c.github.io" ->
           (isRespecScript r = true <->
            startsWith (pathname (url r)) (lit "/respec/builds/") = true))
        /\ (host (url r) <> lit "www.w3.org" ->
            host (url r) <> lit "w3c.github.io" ->
            (isRespecScript r = true <-> endsWithBuildFile (pathname (url r)))
            /\ (isRespecScript r = true ->
                isRespecFileName (filename (pathname (url r))) = true)))
  /\ (isRespecScript r = false ->
        requestInterceptor r = CallContinue
        /\ forall colors_info buildsDir readFile st,
             listening st = true ->
             answered (step colors_info buildsDir readFile st (Arrives r))
             = (r, Continued) :: answered st).
Proof.
  split; [apply isRespecScript_get_script|]. split.
  - intros Hm Ht. rewrite (isRespecScript_by_host r Hm Ht).
    split; [|split].
    + intros Hh. rewrite Hh, str_eqb_refl.
      rewrite andb_true_iff, negb_true_iff. tauto.
    + intros Hh. rewrite Hh. simpl str_eqb. tauto.
    + intros H1 H2. apply str_eqb_neq in H1, H2. rewrite H1, H2.
      split; [apply respecBuild_test|].
      intros H. apply build_file_has_respec_filename. now apply respecBuild_test.
  - intros Hr. split.
    + unfold requestInterceptor. now rewrite Hr.
    + intros ci bd rf st Hl. now apply rejected_request_continues.
Qed.

Lemma interception_predicate_witness :
  isRespecScript (Samples.scriptRequest "localhost:8000" "/builds/respec-w3c.js") = true
  /\ isRespecFileName (lit "respec-w3c.js") = true.
Proof.
  pose proof (interception_predicate
                (Samples.scriptRequest "localhost:8000" "/builds/respec-w3c.js"))
    as (_ & H & _).
  destruct (H eq_refl eq_refl) as (_ & _ & H3).
  destruct H3 as [Hiff Hfile]; [vm_compute; discriminate | vm_compute; discriminate |].
  assert (Hacc : isRespecScript
                   (Samples.scriptRequest "localhost:8000" "/builds/respec-w3c.js") = true).
  { apply Hiff. exists [], (lit "w3c").
    split; [reflexivity|]. split; [discriminate|]. repeat constructor. }
  split; [exact Hacc|]. exact (Hfile Hacc).
Defined.

(** C3 as stated fails for other hosts: the file name of /respec-w3c.js
    matches respec-<identifier>.js at the end of the path, yet the GET
    script request for it is not accepted, because the file is not in a
    directory named builds. *)
Lemma respec_filename_outside_builds_rejected :
  method (Samples.scriptRequest "example.com" "/respec-w3c.js") = lit "GET"
  /\ resourceType (Samples.scriptRequest "example.com" "/respec-w3c.js") = lit "script"
  /\ host (url (Samples.scriptRequest "example.com" "/respec-w3c.js")) <> lit "www.w3.org"
  /\ host (url (Samples.scriptRequest "example.com" "/respec-w3c.js")) <> lit "w3c.github.io"
  /\ isRespecFileName
       (filename (pathname (url (Samples.scriptRequest "example.com" "/respec-w3c.js"))))
     = true
  /\ isRespecScript (Samples.scriptRequest "example.com" "/respec-w3c.js") = false.
Proof.
  repeat split; try reflexivity; vm_compute; discriminate.
Qed.

End InterceptionPredicate.

(** ** Percent-coding and the data URL *)

Section DataURL.

Ltac divmod := Z.div_mod_to_equations; lia.

Lemma hexVal_hexDigit (d : Z) : 0 <= d < 16 -> hexVal (hexDigit d) = Some d.
Proof.
  intros H. unfold hexVal, hexDigit, isDigit.
  destruct (Z.ltb_spec d 10).
  - replace ((48 <=? 48 + d) && (48 + d <=? 57)) with true
      by (symmetry; apply andb_true_iff; split; apply Z.leb_le; lia).
    f_equal. lia.
  - replace ((48 <=? 55 + d) && (55 + d <=? 57)) with false
      by (symmetry; apply andb_false_iff; right; apply Z.leb_gt; lia).
    replace ((65 <=? 55 + d) && (55 + d <=? 70)) with true
      by (symmetry; apply andb_true_iff; split; apply Z.leb_le; lia).
    f_equal. lia.
Qed.

Lemma readOctet_percent (b : Z) (r : str) :
  0 <= b < 256 -> readOctet (percent b ++ r) = Some (b, r).
Proof.
  intros H. unfold readOctet, percent. cbn [app]. rewrite Z.eqb_refl.
  rewrite !hexVal_hexDigit by divmod.
  do 2 f_equal. divmod.
Qed.

Lemma readCont_percent (b : Z) (r : str) :
  128 <= b < 192 -> readCont (percent b ++ r) = Some (b - 128, r).
Proof.
  intros H. unfold readCont. rewrite readOctet_percent by lia.
  replace ((128 <=? b) && (b <=? 191)) with true
    by (symmetry; apply andb_true_iff; split; apply Z.leb_le; lia).
  reflexivity.
Qed.

Lemma decodeEscape_utf8 (cp : Z) (r : str) :
  isScalar cp ->
  decodeEscape (percentAll (utf8 cp) ++ r) = Some (utf16 cp, r).
Proof.
  intros Hcp. unfold isScalar in Hcp. unfold utf8.
  destruct (Z.ltb_spec cp 128); [|destruct (Z.ltb_spec cp 2048); [|destruct (Z.ltb_spec cp 65536)]];
    unfold percentAll; cbn [flat_map]; rewrite <- ?app_assoc; cbn [app];
    unfold decodeEscape.
  - change (37 :: hexDigit (cp / 16) :: hexDigit (cp mod 16) :: r) with (percent cp ++ r).
    rewrite readOctet_percent by lia.
    destruct (Z.ltb_spec cp 128); [|lia].
    unfold utf16. destruct (Z.ltb_spec cp 65536); [reflexivity|lia].
  - change (37 :: hexDigit ((192 + cp / 64) / 16) :: hexDigit ((192 + cp / 64) mod 16)
              :: percent (128 + cp mod 64) ++ r)
      with (percent (192 + cp / 64) ++ percent (128 + cp mod 64) ++ r).
    rewrite readOctet_percent by divmod.
    destruct (Z.ltb_spec (192 + cp / 64) 128); [exfalso; divmod|].
    destruct (Z.ltb_spec (192 + cp / 64) 192); [exfalso; divmod|].
    destruct (Z.ltb_spec (192 + cp / 64) 224); [|exfalso; divmod].
    rewrite readCont_percent by divmod.
    replace ((192 + cp / 64 - 192) * 64 + (128 + cp mod 64 - 128)) with cp by divmod.
    destruct (Z.leb_spec 128 cp); [reflexivity|lia].
  - change (37 :: hexDigit ((224 + cp / 4096) / 16) :: hexDigit ((224 + cp / 4096) mod 16)
              :: percent (128 + (cp / 64) mod 64) ++ percent (128 + cp mod 64) ++ r)
      with (percent (224 + cp / 4096) ++ percent (128 + (cp / 64) mod 64)
              ++ percent (128 + cp mod 64) ++ r).
    rewrite readOctet_percent by divmod.
    destruct (Z.ltb_spec (224 + cp / 4096) 128); [exfalso; divmod|].
    destruct (Z.ltb_spec (224 + cp / 4096) 192); [exfalso; divmod|].
    destruct (Z.ltb_spec (224 + cp / 4096) 224); [exfalso; divmod|].
    destruct (Z.ltb_spec (224 + cp / 4096) 240); [|exfalso; divmod].
    rewrite !readCont_percent by divmod.
    replace ((224 + cp / 4096 - 224) * 4096 + (128 + (cp / 64) mod 64 - 128) * 64
             + (128 + cp mod 64 - 128)) with cp by divmod.
    destruct (Z.leb_spec 2048 cp); [|lia].
    replace ((55296 <=? cp) && (cp <=? 57343)) with false
      by (symmetry; apply andb_false_iff;
          destruct Hcp; [left; apply Z.leb_gt; lia | right; apply Z.leb_gt; lia]).
    reflexivity.
  - change (37 :: hexDigit ((240 + cp / 262144) / 16)
              :: hexDigit ((240 + cp / 262144) mod 16)
              :: percent (128 + (cp / 4096) mod 64) ++ percent (128 + (cp / 64) mod 64)
                 ++ percent (128 + cp mod 64) ++ r)
      with (percent (240 + cp / 262144) ++ percent (128 + (cp / 4096) mod 64)
              ++ percent (128 + (cp / 64) mod 64) ++ percent (128 + cp mod 64) ++ r).
    rewrite readOctet_percent by divmod.
    destruct (Z.ltb_spec (240 + cp / 262144) 128); [exfalso; divmod|].
    destruct (Z.ltb_spec (240 + cp / 262144) 192); [exfalso; divmod|].
    destruct (Z.ltb_spec (240 + cp / 262144) 224); [exfalso; divmod|].
    destruct (Z.ltb_spec (240 + cp / 262144) 240); [exfalso; divmod|].
    destruct (Z.ltb_spec (240 + cp / 262144) 248); [|exfalso; divmod].
    rewrite !readCont_percent by divmod.
    replace ((240 + cp / 262144 - 240) * 262144 + (128 + (cp / 4096) mod 64 - 128) * 4096
             + (128 + (cp / 64) mod 64 - 128) * 64 + (128 + cp mod 64 - 128))
      with cp by divmod.
    replace ((65536 <=? cp) && (cp <=? 1114111)) with true
      by (symmetry; apply andb_true_iff; split; apply Z.leb_le; lia).
    reflexivity.
Qed.

Lemma percentAll_utf8_head (cp : Z) (r : str) :
  exists t, percentAll (utf8 cp) ++ r = 37 :: t
            /\ (List.length r <= List.length t)%nat.
Proof.
  unfold utf8.
  destruct (cp <? 128); [|destruct (cp <? 2048); [|destruct (cp <? 65536)]];
    unfold percentAll; cbn [flat_map percent app]; eexists; (split; [reflexivity|]);
    cbn [List.length]; rewrite ?length_app; cbn [List.length]; lia.
Qed.

Lemma utf16_pair (c d : Z) :
  isLeadSurrogate c = true -> isTrailSurrogate d = true ->
  isScalar (codePointOfPair c d) /\ utf16 (codePointOfPair c d) = [c; d].
Proof.
  unfold isLeadSurrogate, isTrailSurrogate, codePointOfPair, isScalar, utf16.
  rewrite !andb_true_iff, !Z.leb_le. intros [H1 H2] [H3 H4].
  split; [lia|].
  destruct (Z.ltb_spec ((c - 55296) * 1024 + (d - 56320) + 65536) 65536); [lia|].
  f_equal; [|f_equal]; divmod.
Qed.

Lemma utf16_bmp (c : Z) : c < 65536 -> utf16 c = [c].
Proof. intros H. unfold utf16. destruct (Z.ltb_spec c 65536); [reflexivity|lia]. Qed.

Lemma unreserved_not_percent (c : Z) : isUnreserved c = true -> (c =? 37) = false.
Proof.
  intros H. destruct (Z.eqb_spec c 37) as [->|]; [discriminate|reflexivity].
Qed.

Lemma decode_escaped (n : nat) (cp : Z) (r : str) :
  isScalar cp ->
  (List.length (percentAll (utf8 cp) ++ r) <= S n)%nat ->
  decode (S n) (percentAll (utf8 cp) ++ r) = option_map (app (utf16 cp)) (decode n r)
  /\ (List.length r <= n)%nat.
Proof.
  intros Hcp Hlen.
  pose proof (decodeEscape_utf8 cp r Hcp) as Hd.
  destruct (percentAll_utf8_head cp r) as (t & E & Hl).
  rewrite E in *. cbn [decode]. rewrite Z.eqb_refl, Hd.
  cbn [List.length] in Hlen. split; [reflexivity|lia].
Qed.

Lemma decode_encode (k : nat) : forall h e n,
  (List.length h <= k)%nat ->
  encodeURIComponent h = Some e ->
  (List.length e <= n)%nat ->
  decode n e = Some h.
Proof.
  induction k as [|k IH]; intros h e n Hk He Hn.
  - destruct h; [|simpl in Hk; lia]. injection He as <-. destruct n; reflexivity.
  - destruct h as [|c t]; [injection He as <-; destruct n; reflexivity|].
    simpl in Hk. cbn [encodeURIComponent] in He.
    destruct (isUnreserved c) eqn:Eu.
    { destruct (encodeURIComponent t) as [e'|] eqn:Et; [|discriminate].
      injection He as <-. simpl in Hn. destruct n as [|n]; [lia|].
      cbn [decode]. rewrite (unreserved_not_percent c Eu).
      rewrite (IH t e' n); [reflexivity|lia|exact Et|lia]. }
    destruct (isTrailSurrogate c) eqn:Etr; [discriminate|].
    destruct (isLeadSurrogate c) eqn:Ele.
    { destruct t as [|d t']; [discriminate|].
      destruct (isTrailSurrogate d) eqn:Etd; [|discriminate].
      destruct (encodeURIComponent t') as [e'|] eqn:Et; [|discriminate].
      injection He as <-.
      destruct (utf16_pair c d Ele Etd) as [Hsc Hu].
      destruct n as [|n].
      { destruct (percentAll_utf8_head (codePointOfPair c d) e') as (t0 & E & _).
        rewrite E in Hn. simpl in Hn. lia. }
      destruct (decode_escaped n (codePointOfPair c d) e' Hsc Hn) as [-> Hl].
      simpl in Hk.
      rewrite (IH t' e' n); [|lia|exact Et|lia].
      cbn [option_map]. now rewrite Hu. }
    destruct ((0 <=? c) && (c <? 65536)) eqn:Er; [|discriminate].
    destruct (encodeURIComponent t) as [e'|] eqn:Et; [|discriminate].
    injection He as <-.
    apply andb_true_iff in Er as [Hr1 Hr2].
    apply Z.leb_le in Hr1. apply Z.ltb_lt in Hr2.
    assert (Hsc : isScalar c).
    { unfold isScalar, isLeadSurrogate, isTrailSurrogate in *.
      apply andb_false_iff in Etr, Ele.
      rewrite !Z.leb_gt in Etr, Ele. lia. }
    destruct n as [|n].
    { destruct (percentAll_utf8_head c e') as (t0 & E & _).
      rewrite E in Hn. simpl in Hn. lia. }
    destruct (decode_escaped n c e' Hsc Hn) as [-> Hl].
    rewrite (IH t e' n); [|lia|exact Et|lia].
    cbn [option_map]. now rewrite utf16_bmp.
Qed.

(** Percent-decoding undoes percent-encoding. *)
Theorem decodeURIComponent_encodeURIComponent (h e : str) :
  encodeURIComponent h = Some e -> decodeURIComponent e = Some h.
Proof.
  intros He. unfold decodeURIComponent.
  now apply (decode_encode (List.length h) h e (List.length e)).
Qed.

Lemma unreserved_is_ascii (c : Z) : isUnreserved c = true -> 33 <= c <= 126.
Proof.
  unfold isUnreserved, isAlpha, isDigit.
  rewrite !orb_true_iff, !andb_true_iff, !Z.leb_le, !Z.eqb_eq. lia.
Qed.

(** Encoding is defined on every well-formed text. *)
Lemma encodeURIComponent_defined (k : nat) : forall h,
  (List.length h <= k)%nat -> wellFormed h = true ->
  exists e, encodeURIComponent h = Some e.
Proof.
  induction k as [|k IH]; intros h Hk Hwf.
  - destruct h; [now exists []|simpl in Hk; lia].
  - destruct h as [|c t]; [now exists []|].
    simpl in Hk. cbn [encodeURIComponent wellFormed] in *.
    destruct (isUnreserved c) eqn:Eu.
    { pose proof (unreserved_is_ascii c Eu) as Hc.
      assert (El : isLeadSurrogate c = false).
      { unfold isLeadSurrogate. apply andb_false_iff. left. apply Z.leb_gt. lia. }
      rewrite El in Hwf. apply andb_true_iff in Hwf as [_ Hwf].
      destruct (IH t) as [e' ->]; [lia|exact Hwf|]. now eexists. }
    destruct (isLeadSurrogate c) eqn:El.
    { assert (Et : isTrailSurrogate c = false).
      { unfold isLeadSurrogate, isTrailSurrogate in *.
        apply andb_true_iff in El as [_ El]. apply Z.leb_le in El.
        apply andb_false_iff. left. apply Z.leb_gt. lia. }
      rewrite Et. destruct t as [|d t']; [discriminate|].
      apply andb_true_iff in Hwf as [Hd Hwf]. rewrite Hd.
      simpl in Hk. destruct (IH t') as [e' ->]; [lia|exact Hwf|]. now eexists. }
    apply andb_true_iff in Hwf as [Hwf Ht].
    apply andb_true_iff in Hwf as [Hr Htr].
    apply negb_true_iff in Htr. rewrite Htr, Hr.
    destruct (IH t) as [e' ->]; [lia|exact Ht|]. now eexists.
Qed.

(** C6: for every HTML text [h] that has a percent-encoding (every text
    without a lone surrogate has one), the modern extraction path applied
    to the data URL "data:text/html;charset=utf-8," followed by that
    encoding recovers exactly [h]: the prefix pattern strips the fixed
    prefix and percent-decoding the remainder gives [h] back; and so does
    [evaluateHTML] on the modern path when [rsDocToDataURL] returns that
    data URL. *)
Theorem data_url_round_trip (h e : str) :
  encodeURIComponent h = Some e ->
  replace dataUrlPrefixRegex (lit "data:text/html;charset=utf-8," ++ e) [] = e
  /\ fromDataURL (lit "data:text/html;charset=utf-8," ++ e) = Returned h
  /\ (forall pg v t now evs rsDocToDataURL,
        selectExport v = Modern ->
        exporter pg = inr rsDocToDataURL ->
        rsDocToDataURL (lit "text/html") = lit "data:text/html;charset=utf-8," ++ e ->
        evaluateHTML pg v t now (ReadyResolved :: evs) = ([], Returned h)).
Proof.
  intros He.
  assert (Hd : fromDataURL (lit "data:text/html;charset=utf-8," ++ e) = Returned h).
  { unfold fromDataURL. rewrite strip_data_url_prefix.
    now rewrite (decodeURIComponent_encodeURIComponent h e He). }
  split; [apply strip_data_url_prefix|]. split; [exact Hd|].
  intros pg v t now evs f Hv Hf Hurl.
  rewrite evaluateHTML_ready, Hv, Hf, Hurl. now rewrite Hd.
Qed.

Lemma data_url_round_trip_witness :
  fromDataURL (lit "data:text/html;charset=utf-8,%3Chtml%3E%E2%82%AC%F0%9F%98%B1")
  = Returned [60; 104; 116; 109; 108; 62; 8364; 55357; 56881].
Proof.
  apply (data_url_round_trip [60; 104; 116; 109; 108; 62; 8364; 55357; 56881]
           (lit "%3Chtml%3E%E2%82%AC%F0%9F%98%B1")).
  reflexivity.
Defined.

(** The hypothesis of the round trip holds for every well-formed text. *)
Lemma well_formed_text_round_trips (h : str) :
  wellFormed h = true ->
  exists e, encodeURIComponent h = Some e
            /\ fromDataURL (lit "data:text/html;charset=utf-8," ++ e) = Returned h.
Proof.
  intros Hwf.
  destruct (encodeURIComponent_defined (List.length h) h (le_n _) Hwf) as [e He].
  exists e. split; [exact He|].
  pose proof (decodeURIComponent_encodeURIComponent h e He) as Hd.
  unfold fromDataURL. now rewrite strip_data_url_prefix, Hd.
Qed.

End DataURL.

Lemma console_relay_classification_witness :
  error (flags (handleConsoleMessage Samples.cyan Samples.red Samples.yellow
                  Samples.freshRelay
                  {| msgType := lit "error"; msgText := lit "JSHandle@error";
                     msgArgs := [lit "ReferenceError: x is not defined"] |})) = true
  /\ handleConsoleMessage Samples.cyan Samples.red Samples.yellow
       Samples.freshRelay
       {| msgType := lit "error";
          msgText := lit "Failed to load resource: net::ERR_FAILED";
          msgArgs := [] |} = Samples.freshRelay.
Proof.
  split.
  - pose proof (console_relay_classification Samples.cyan Samples.red Samples.yellow
                  Samples.freshRelay
                  {| msgType := lit "error"; msgText := lit "JSHandle@error";
                     msgArgs := [lit "ReferenceError: x is not defined"] |})
      as (_ & _ & H & _).
    apply H; [reflexivity|].
    unfold isBrowserNoise. simpl. intros (_ & _ & E). discriminate.
  - pose proof (console_relay_classification Samples.cyan Samples.red Samples.yellow
                  Samples.freshRelay
                  {| msgType := lit "error";
                     msgText := lit "Failed to load resource: net::ERR_FAILED";
                     msgArgs := [] |})
      as (H & _).
    apply H. unfold isBrowserNoise. simpl.
    split; [now left|]. split; [discriminate|reflexivity].
Defined.

(* ================================================================== *)
(** * Further properties of the script *)
(* ================================================================== *)

(** ** Capture groups and the profile of a request *)

Section Captures.

Lemma star_no_captures (step_ : str -> list branch) :
  (forall s m s' c, In (m, s', c) (step_ s) -> c = []) ->
  forall n s m s' c, In (m, s', c) (star step_ n s) -> c = [].
Proof.
  intros Hstep. induction n as [|n IH]; intros s m s' c Hin; simpl in Hin.
  - destruct Hin as [E|[]]. now injection E.
  - apply in_app_or in Hin as [Hin|[E|[]]]; [|now injection E].
    apply in_flat_map in Hin as ([[m1 s1] c1] & Hb & Hin).
    destruct (shorter (rest (m1, s1, c1)) s); [|contradiction].
    apply in_andThen in Hin as (m2 & s2 & c2 & Hin & E).
    injection E as -> -> ->.
    rewrite (Hstep _ _ _ _ Hb), (IH _ _ _ _ Hin). reflexivity.
Qed.

(** A pattern without capturing groups sets no group. *)
Lemma groupFree_no_captures (r : regex) (input : str) :
  groupFree r = true ->
  forall s m s' c, In (m, s', c) (run r input s) -> c = [].
Proof.
  induction r as [|ch|p|r1 IH1 r2 IH2|r1 IH1|r1 IH1|i r1 IH1| |];
    simpl; intros Hg s m s' c Hin; try discriminate.
  - destruct Hin as [E|[]]. now injection E.
  - destruct s as [|x t]; [contradiction|].
    destruct (x =? ch); [|contradiction]. destruct Hin as [E|[]]. now injection E.
  - destruct s as [|x t]; [contradiction|].
    destruct (p x); [|contradiction]. destruct Hin as [E|[]]. now injection E.
  - apply andb_prop in Hg as [Hg1 Hg2].
    apply in_flat_map in Hin as ([[m1 s1] c1] & Hb & Hin).
    apply in_andThen in Hin as (m2 & s2 & c2 & Hin & E).
    injection E as -> -> ->.
    rewrite (IH1 Hg1 _ _ _ _ Hb), (IH2 Hg2 _ _ _ _ Hin). reflexivity.
  - apply in_flat_map in Hin as ([[m1 s1] c1] & Hb & Hin).
    apply in_andThen in Hin as (m2 & s2 & c2 & Hin & E).
    injection E as -> -> ->.
    rewrite (IH1 Hg _ _ _ _ Hb).
    rewrite (star_no_captures (run r1 input) (IH1 Hg) _ _ _ _ _ Hin). reflexivity.
  - apply in_app_or in Hin as [Hin|[E|[]]]; [now apply (IH1 Hg _ _ _ _ Hin)|now injection E].
  - destruct (List.length s =? List.length input)%nat; [|contradiction].
    destruct Hin as [E|[]]. now injection E.
  - destruct s; [|contradiction]. destruct Hin as [E|[]]. now injection E.
Qed.

(** The branch [exec] reports comes from a run at the position it reports. *)
Lemma scan_some_in (r : regex) (input : str) : forall s pre res,
  input = pre ++ s -> scan r input pre s = Some res ->
  exists s0, input = before res ++ s0
             /\ In (matched res, after res, groups res) (run r input s0).
Proof.
  induction s as [|x t IH]; intros pre res Hpre Hs; simpl in Hs.
  - destruct (run r input []) as [|[[m s'] c] l] eqn:E; [discriminate|].
    injection Hs as <-. simpl. exists []. rewrite E. split; [exact Hpre|now left].
  - destruct (run r input (x :: t)) as [|[[m s'] c] l] eqn:E.
    + apply (IH (pre ++ [x])); [now rewrite <- app_assoc|exact Hs].
    + injection Hs as <-. simpl. exists (x :: t). rewrite E. split; [exact Hpre|now left].
Qed.

Lemma matches_opt (r : regex) (pre m post : str) :
  matches (Opt r) pre m post <-> m = [] \/ matches r pre m post.
Proof.
  split.
  - inversion 1; subst; auto.
  - intros [->|H]; [constructor|now constructor].
Qed.

Lemma matches_group (i : nat) (r : regex) (pre m post : str) :
  matches (Group i r) pre m post <-> matches r pre m post.
Proof. split; [inversion 1; now subst|now constructor]. Qed.

(** What the profile pattern matches. *)
Lemma respecProfile_matches (pre m post : str) :
  matches respecProfileRegex pre m post <->
  post = [] /\ exists id ext,
    m = 47 :: lit "respec-" ++ id ++ ext
    /\ (ext = [] \/ ext = lit ".js")
    /\ id <> [] /\ Forall (fun c => isWordOrHyphen c = true) id.
Proof.
  unfold respecProfileRegex. split.
  - intros H.
    apply matches_seq in H as (m1 & m2 & -> & H1 & H).
    apply matches_chr in H1.
    apply matches_seq in H as (g & m3 & -> & Hg & H).
    apply matches_group in Hg.
    apply matches_seq in Hg as (g1 & id & -> & Hg1 & Hid).
    apply matches_text in Hg1. apply matches_plus_cls in Hid as [Hne HF].
    apply matches_seq in H as (ext & m4 & -> & Hext & H).
    apply matches_opt in Hext. apply matches_eol in H as [-> ->].
    subst. split; [reflexivity|]. exists id, ext.
    rewrite app_nil_r, <- app_assoc. simpl.
    repeat split; auto.
    destruct Hext as [-> | Hext]; [now left|right; now apply matches_text in Hext].
  - intros (-> & id & ext & -> & Hext & Hne & HF).
    apply matches_seq. exists [47], (lit "respec-" ++ id ++ ext).
    split; [reflexivity|]. split; [now apply matches_chr|].
    apply matches_seq. exists (lit "respec-" ++ id), ext.
    split; [now rewrite <- app_assoc|]. split.
    + apply matches_group. apply matches_seq. exists (lit "respec-"), id.
      split; [reflexivity|]. split; [now apply matches_text|now apply matches_plus_cls].
    + apply matches_seq. exists ext, []. split; [now rewrite app_nil_r|].
      split; [|now apply matches_eol].
      apply matches_opt. destruct Hext as [-> | ->]; [now left|right; now apply matches_text].
Qed.

(** The profile pattern matches exactly the paths that end with
    [/respec-<identifier>] or [/respec-<identifier>.js]. *)
Lemma respecProfile_exec (path : str) :
  exec respecProfileRegex path <> None <-> endsWithProfile path.
Proof.
  assert (H : exec respecProfileRegex path <> None <-> test respecProfileRegex path = true).
  { unfold test. destruct (exec respecProfileRegex path); split; congruence. }
  rewrite H, test_iff. unfold endsWithProfile. split.
  - intros (pre & m & post & -> & Hm).
    apply respecProfile_matches in Hm as (-> & id & ext & -> & Hext & Hne & HF).
    exists pre, id, ext. rewrite app_nil_r. auto.
  - intros (dir & id & ext & -> & Hext & Hne & HF).
    exists dir, (47 :: lit "respec-" ++ id ++ ext), [].
    split; [now rewrite app_nil_r|].
    apply respecProfile_matches. split; [reflexivity|]. now exists id, ext.
Qed.

(** In every branch of the profile pattern, group 1 holds the
    [respec-<identifier>] part of the matched text. *)
Lemma respecProfile_group (input pre s m s' : str) (c : captures) :
  input = pre ++ s ->
  In (m, s', c) (run respecProfileRegex input s) ->
  exists id ext,
    m = 47 :: lit "respec-" ++ id ++ ext /\ s' = []
    /\ (ext = [] \/ ext = lit ".js")
    /\ id <> [] /\ Forall (fun c => isWordOrHyphen c = true) id
    /\ group c 1 = Some (lit "respec-" ++ id).
Proof.
  intros Hpre Hin.
  unfold respecProfileRegex in Hin.
  change (In (m, s', c)
            (flat_map (fun b => andThen b (run
               (Seq (Group 1 (Seq (text (lit "respec-")) (Plus (Cls isWordOrHyphen))))
                    (Seq (Opt (text (lit ".js"))) Eol)) input))
               (run (Chr 47) input s))) in Hin.
  apply in_flat_map in Hin as ([[m1 s1] c1] & Hb1 & Hin).
  apply in_andThen in Hin as (m2 & s2 & c2 & Hin & E).
  change (In (m2, s2, c2)
            (flat_map (fun b => andThen b (run (Seq (Opt (text (lit ".js"))) Eol) input))
               (run (Group 1 (Seq (text (lit "respec-")) (Plus (Cls isWordOrHyphen))))
                    input s1))) in Hin.
  apply in_flat_map in Hin as ([[g sg] cg] & Hbg & Hin).
  apply in_andThen in Hin as (m3 & s3 & c3 & Hin & E3).
  change (In (g, sg, cg)
            (map (fun b : branch => let '(m, s', c) := b in (m, s', (1%nat, m) :: c))
               (run (Seq (text (lit "respec-")) (Plus (Cls isWordOrHyphen))) input s1)))
    in Hbg.
  apply in_map_iff in Hbg as ([[g0 sg0] cg0] & Eg & Hbg).
  injection Eg as -> -> <-.
  destruct (run_sound _ _ _ _ _ _ _ Hb1 Hpre) as [Hs Hm1].
  apply matches_chr in Hm1. subst m1.
  assert (Hc1 : c1 = [])
    by exact (groupFree_no_captures (Chr 47) input eq_refl _ _ _ _ Hb1).
  assert (Hcg0 : cg0 = [])
    by exact (groupFree_no_captures
                (Seq (text (lit "respec-")) (Plus (Cls isWordOrHyphen))) input eq_refl
                _ _ _ _ Hbg).
  assert (Hc3 : c3 = [])
    by exact (groupFree_no_captures (Seq (Opt (text (lit ".js"))) Eol) input eq_refl
                _ _ _ _ Hin).
  assert (Hpre1 : input = (pre ++ [47]) ++ s1) by now rewrite <- app_assoc, <- Hs.
  destruct (run_sound _ _ _ _ _ _ _ Hbg Hpre1) as [Hs1 Hg].
  apply matches_seq in Hg as (g1 & id & Eg & Hg1 & Hid).
  apply matches_text in Hg1. apply matches_plus_cls in Hid as [Hne HF].
  assert (Hpre2 : input = ((pre ++ [47]) ++ g) ++ sg) by now rewrite <- app_assoc, <- Hs1.
  destruct (run_sound _ _ _ _ _ _ _ Hin Hpre2) as [Hs2 Hm3].
  apply matches_seq in Hm3 as (ext & m4 & Em3 & Hext & H4).
  apply matches_eol in H4 as [Em4 Es3].
  apply matches_opt in Hext.
  injection E as Em Es Ec. injection E3 as Em2 Es2 Ec2.
  exists id, ext.
  split.
  { rewrite Em, Em2, Em3, Em4, Eg, Hg1, app_nil_r, <- app_assoc. reflexivity. }
  split; [now rewrite Es, Es2|].
  split.
  { destruct Hext as [-> | Hx]; [now left|right; now apply matches_text in Hx]. }
  split; [exact Hne|]. split; [exact HF|].
  rewrite Ec, Ec2, Hc3, Hcg0, Hc1, Eg, Hg1. reflexivity.
Qed.

End Captures.

Section InterceptorProfile.

Lemma span_unique_rev (p : Z -> bool) (w1 w2 r1 r2 : str) (x y : Z) :
  Forall (fun c => p c = true) w1 -> Forall (fun c => p c = true) w2 ->
  p x = false -> p y = false ->
  r1 ++ x :: w1 = r2 ++ y :: w2 ->
  r1 = r2 /\ x = y /\ w1 = w2.
Proof.
  intros H1 H2 Hx Hy E.
  apply (f_equal (@rev Z)) in E.
  rewrite !rev_app_distr in E. simpl in E. rewrite <- !app_assoc in E. simpl in E.
  destruct (span_unique p (rev w1) (rev w2) x y (rev r1) (rev r2)) as (Ew & Exy & Er);
    auto using Forall_rev.
  apply (f_equal (@rev Z)) in Ew, Er. rewrite !rev_involutive in Ew, Er. auto.
Qed.

Lemma wordOrHyphen_no_slash (w : str) :
  Forall (fun c => isWordOrHyphen c = true) w ->
  Forall (fun c => negb (c =? 47) = true) w.
Proof.
  intros H. eapply Forall_impl; [|exact H]. intros c Hc.
  destruct (Z.eqb_spec c 47) as [->|]; [discriminate|reflexivity].
Qed.

(** The profile of a path that ends with /builds/respec-<id>.js is
    respec-<id>. *)
Lemma build_file_profile (dir id before w ext : str) :
  Forall (fun c => isWordOrHyphen c = true) id ->
  Forall (fun c => isWordOrHyphen c = true) w ->
  ext = [] \/ ext = lit ".js" ->
  dir ++ lit "/builds/respec-" ++ id ++ lit ".js"
  = before ++ 47 :: lit "respec-" ++ w ++ ext ->
  w = id.
Proof.
  intros Hid Hw Hext E.
  assert (E' : (dir ++ lit "/builds") ++ 47 :: (lit "respec-" ++ id ++ lit ".js")
               = before ++ 47 :: (lit "respec-" ++ w ++ ext)).
  { rewrite <- app_assoc. exact E. }
  apply (span_unique_rev (fun c => negb (c =? 47))) in E' as (_ & _ & E'); try reflexivity.
  - apply app_inv_head in E'.
    destruct Hext as [-> | ->].
    + rewrite app_nil_r in E'. subst w.
      apply Forall_app in Hw as [_ Hw]. inversion Hw as [|? ? Hdot _]. discriminate.
    + apply app_inv_tail in E'. now symmetry.
  - apply Forall_app. split; [repeat constructor|].
    apply Forall_app. split; [now apply wordOrHyphen_no_slash|repeat constructor].
  - apply Forall_app. split; [repeat constructor|].
    apply Forall_app. split; [now apply wordOrHyphen_no_slash|].
    destruct Hext as [-> | ->]; repeat constructor.
Qed.

(** What [exec] reports for the profile pattern. *)
Lemma respecProfile_result (path : str) (res : matchResult) :
  exec respecProfileRegex path = Some res ->
  exists id ext,
    path = before res ++ 47 :: lit "respec-" ++ id ++ ext
    /\ (ext = [] \/ ext = lit ".js")
    /\ id <> [] /\ Forall (fun c => isWordOrHyphen c = true) id
    /\ group (groups res) 1 = Some (lit "respec-" ++ id).
Proof.
  intros He. unfold exec in He.
  destruct (scan_some_in respecProfileRegex path path [] res eq_refl He)
    as (s0 & Hin & Hrun).
  destruct (run_sound _ _ _ _ _ _ _ Hrun Hin) as [Hs0 _].
  destruct (respecProfile_group _ _ _ _ _ _ Hin Hrun)
    as (id & ext & Em & Ea & Hext & Hne & HF & Hg).
  exists id, ext. repeat split; auto.
  rewrite Hin, Hs0, Em, Ea, app_nil_r. reflexivity.
Qed.

(** X1: whenever the listener goes on to read a local build, the request was
    accepted, the profile is [respec-<identifier>] taken from the end of the
    path (before an optional [.js]), and it consists of letters, digits,
    underscores and hyphens only.  The fallback for a group that did not
    take part in the match is never used. *)
Theorem interceptor_profile_shape (r : request) (profile : str) :
  requestInterceptor r = StartRead profile ->
  isRespecScript r = true
  /\ (exists dir id ext,
        pathname (url r) = dir ++ 47 :: profile ++ ext
        /\ profile = lit "respec-" ++ id
        /\ (ext = [] \/ ext = lit ".js") /\ id <> [])
  /\ Forall (fun c => isWordOrHyphen c = true) profile.
Proof.
  unfold requestInterceptor.
  destruct (isRespecScript r); cbn [negb]; [|discriminate].
  destruct (exec respecProfileRegex (pathname (url r))) as [res|] eqn:He; [|discriminate].
  destruct (respecProfile_result _ _ He) as (id & ext & Ep & Hext & Hne & HF & Hg).
  rewrite Hg. intros E. injection E as <-.
  split; [reflexivity|]. split.
  - exists (before res), id, ext. split; [exact Ep|auto].
  - change (Forall (fun c => isWordOrHyphen c = true) (lit "respec-" ++ id)).
    apply Forall_app. split; [repeat constructor|exact HF].
Qed.

(** Up to its first [await], the listener throws exactly on accepted
    requests whose path does not end with /respec-<identifier> or
    /respec-<identifier>.js, and what it throws is the TypeError of indexing
    a null match. *)
Lemma prefix_throws_iff (r : request) (e : exn) :
  requestInterceptor r = Throws e <->
  e = TypeError /\ isRespecScript r = true /\ ~ endsWithProfile (pathname (url r)).
Proof.
  unfold requestInterceptor.
  destruct (isRespecScript r); cbn [negb].
  - destruct (exec respecProfileRegex (pathname (url r))) as [res|] eqn:He.
    + assert (Hp : endsWithProfile (pathname (url r))).
      { apply respecProfile_exec. rewrite He. discriminate. }
      split.
      * destruct (group (groups res) 1); discriminate.
      * intros (_ & _ & Hn). contradiction.
    + split.
      * intros E. injection E as <-. repeat split.
        intros Hp. apply respecProfile_exec in Hp. contradiction.
      * intros (-> & _ & _). reflexivity.
  - split; [discriminate|]. intros (_ & H & _). discriminate.
Qed.

Lemma prefix_continues_iff (r : request) :
  requestInterceptor r = CallContinue <-> isRespecScript r = false.
Proof.
  unfold requestInterceptor. destruct (isRespecScript r); cbn [negb].
  - split; [|discriminate].
    destruct (exec respecProfileRegex (pathname (url r))) as [res|]; [|discriminate].
    destruct (group (groups res) 1); discriminate.
  - tauto.
Qed.

Lemma prefix_reads_profile (r : request) (profile : str) :
  requestInterceptor r = StartRead profile ->
  isRespecScript r = true /\ endsWithProfile (pathname (url r)).
Proof.
  unfold requestInterceptor.
  destruct (isRespecScript r); cbn [negb]; [|discriminate].
  destruct (exec respecProfileRegex (pathname (url r))) as [res|] eqn:He; [|discriminate].
  intros _. split; [reflexivity|].
  apply respecProfile_exec. rewrite He. discriminate.
Qed.

Variable colors_info : str -> str.
Variable buildsDir : str.
Variable readFile : str -> option str.

Local Abbreviation run_events := (steps colors_info buildsDir readFile).

(** How the listener ends for a request handled alone on a page with
    interception armed. *)
Lemma handled_alone (r : request) :
  answered (run_events useLocalReSpec (handledAlone r))
  = match requestInterceptor r with
    | CallContinue => [(r, Continued)]
    | Throws _ => []
    | StartRead profile =>
        match readFile (localPath buildsDir profile) with
        | Some body => [(r, Substituted (localPath buildsDir profile) body)]
        | None => []
        end
    end.
Proof.
  unfold handledAlone, steps, useLocalReSpec. simpl.
  destruct (requestInterceptor r) as [|profile|e]; simpl; [reflexivity| |reflexivity].
  destruct (readFile (localPath buildsDir profile)); reflexivity.
Qed.

(** X2: a request handled by the listener (alone, on a page with
    interception armed; [continue] and [respond] succeed) is left without
    any answer, the listener failing, exactly when the predicate accepted it
    and either its path does not end with /respec-<identifier> or
    /respec-<identifier>.js, where the listener throws the TypeError of
    indexing a null match before its first [await], or the local build of
    its profile cannot be read, where [readFile] rejects.  A request the
    predicate rejected is continued, and an accepted one whose local build
    can be read is answered with the content of that file. *)
Theorem listener_fails_iff (r : request) :
  (forall e, requestInterceptor r = Throws e <->
             e = TypeError /\ isRespecScript r = true
             /\ ~ endsWithProfile (pathname (url r)))
  /\ (answered (run_events useLocalReSpec (handledAlone r)) = []
      <-> isRespecScript r = true
          /\ (~ endsWithProfile (pathname (url r))
              \/ exists profile,
                   requestInterceptor r = StartRead profile
                   /\ readFile (localPath buildsDir profile) = None))
  /\ (isRespecScript r = false ->
      answered (run_events useLocalReSpec (handledAlone r)) = [(r, Continued)])
  /\ (forall profile body,
        requestInterceptor r = StartRead profile ->
        readFile (localPath buildsDir profile) = Some body ->
        answered (run_events useLocalReSpec (handledAlone r))
        = [(r, Substituted (localPath buildsDir profile) body)]).
Proof.
  split; [intros e; apply prefix_throws_iff|].
  rewrite handled_alone.
  split; [|split].
  - destruct (requestInterceptor r) as [|profile|e] eqn:E.
    + apply prefix_continues_iff in E. split; [discriminate|].
      intros [H _]. congruence.
    + destruct (prefix_reads_profile r profile E) as [Hacc Hp].
      destruct (readFile (localPath buildsDir profile)) as [body|] eqn:Ef.
      * split; [discriminate|].
        intros (_ & [Hn | (profile' & E' & Ef')]); [contradiction|].
        injection E' as <-. congruence.
      * split; [|reflexivity]. intros _. split; [exact Hacc|].
        right. exists profile. now split.
    + apply prefix_throws_iff in E as (_ & Hacc & Hn).
      split; [|reflexivity]. intros _. split; [exact Hacc|now left].
  - intros Hrej. apply prefix_continues_iff in Hrej. now rewrite Hrej.
  - intros profile body E Ef. now rewrite E, Ef.
Qed.

(** X3: on hosts other than www.w3.org and w3c.github.io every accepted
    request has a profile: its path is dir/builds/respec-<id>.js, the
    listener does not throw the TypeError there and goes on to read the
    local build of profile respec-<id>; the request is answered with the
    content of that file when it can be read, and is left without an answer,
    the listener failing, when it cannot. *)
Theorem other_host_accepted_has_profile (r : request) :
  method r = lit "GET" -> resourceType r = lit "script" ->
  host (url r) <> lit "www.w3.org" -> host (url r) <> lit "w3c.github.io" ->
  isRespecScript r = true ->
  exists dir id,
    pathname (url r) = dir ++ lit "/builds/respec-" ++ id ++ lit ".js"
    /\ requestInterceptor r = StartRead (lit "respec-" ++ id)
    /\ answered (run_events useLocalReSpec (handledAlone r))
       = match readFile (localPath buildsDir (lit "respec-" ++ id)) with
         | Some body =>
             [(r, Substituted (localPath buildsDir (lit "respec-" ++ id)) body)]
         | None => []
         end.
Proof.
  intros Hm Ht H1 H2 Hacc.
  pose proof Hacc as Hb.
  rewrite (isRespecScript_by_host r Hm Ht) in Hb.
  apply str_eqb_neq in H1, H2. rewrite H1, H2 in Hb.
  apply respecBuild_test in Hb as (dir & id & Ep & Hne & HF).
  exists dir, id. split; [exact Ep|].
  assert (E : requestInterceptor r = StartRead (lit "respec-" ++ id)).
  { unfold requestInterceptor. rewrite Hacc. cbn [negb].
    destruct (exec respecProfileRegex (pathname (url r))) as [res|] eqn:He.
    - destruct (respecProfile_result _ _ He) as (w & ext & Ep' & Hext & Hnw & HFw & Hg).
      rewrite Hg. rewrite Ep in Ep'.
      now rewrite (build_file_profile dir id (before res) w ext HF HFw Hext Ep').
    - exfalso.
      assert (Hp : endsWithProfile (pathname (url r))).
      { exists (dir ++ lit "/builds"), id, (lit ".js").
        rewrite Ep, <- app_assoc. repeat split; auto. }
      apply respecProfile_exec in Hp. contradiction. }
  split; [exact E|]. rewrite handled_alone, E. reflexivity.
Qed.

End InterceptorProfile.

(** ** Substitutions over a whole run *)

Section NetInvariants.

Variable colors_info : str -> str.
Variable buildsDir : str.
Variable readFile : str -> option str.

Local Abbreviation step1 := (step colors_info buildsDir readFile).
Local Abbreviation run_events := (steps colors_info buildsDir readFile).

Lemma in_remove_nth {A} (x : A) (i : nat) (l : list A) :
  In x (remove_nth i l) -> In x l.
Proof.
  revert i. induction l as [|y l IH]; intros i H; [destruct i; exact H|].
  destruct i as [|i]; simpl in H; [now right|].
  destruct H as [->|H]; [now left|right; exact (IH i H)].
Qed.

Local Abbreviation wellServed1 := (wellServed buildsDir readFile).

Lemma wellServed_step (st : net) (ev : netEvent) :
  wellServed1 st -> wellServed1 (step1 st ev).
Proof.
  intros [Hr Ha]. destruct ev as [r|i|i]; simpl.
  - destruct (listening st).
    + destruct (requestInterceptor r) as [|profile|e] eqn:E; simpl.
      * split; [exact Hr|]. constructor; [exact I|exact Ha].
      * split; [|exact Ha]. apply Forall_app. split; [exact Hr|].
        constructor; [|constructor]. now exists profile.
      * now split.
    + destruct (intercepting st); [now split|].
      split; [exact Hr|]. constructor; [exact I|exact Ha].
  - destruct (nth_error (reading st) i) as [[r path]|] eqn:E; [|now split].
    assert (Hown : readsOwnBuild buildsDir (r, path)).
    { rewrite Forall_forall in Hr. apply Hr. eapply nth_error_In. exact E. }
    assert (Hrest : Forall (readsOwnBuild buildsDir) (remove_nth i (reading st))).
    { rewrite Forall_forall in *. intros x Hx. apply Hr. now apply in_remove_nth in Hx. }
    destruct (readFile path) as [body|] eqn:Ef; simpl.
    + split; [exact Hrest|]. constructor; [|exact Ha]. now split.
    + now split.
  - destruct (nth_error (responding st) i); [|now split]. now split.
Qed.

Lemma wellServed_steps (evs : list netEvent) (st : net) :
  wellServed1 st -> wellServed1 (run_events st evs).
Proof.
  revert st. induction evs as [|ev evs IH]; intros st H; [exact H|].
  apply IH. now apply wellServed_step.
Qed.

(** What a started read says about the request. *)
Lemma startRead_inv (r : request) (profile : str) :
  requestInterceptor r = StartRead profile ->
  isRespecScript r = true
  /\ exists dir id ext,
       pathname (url r) = dir ++ 47 :: lit "respec-" ++ id ++ ext
       /\ (ext = [] \/ ext = lit ".js")
       /\ id <> [] /\ Forall (fun c => isWordOrHyphen c = true) id
       /\ profile = lit "respec-" ++ id.
Proof.
  unfold requestInterceptor.
  destruct (isRespecScript r); cbn [negb]; [|discriminate].
  destruct (exec respecProfileRegex (pathname (url r))) as [res|] eqn:He; [|discriminate].
  destruct (respecProfile_result _ _ He) as (id & ext & Ep & Hext & Hne & HF & Hg).
  rewrite Hg. intros E. split; [reflexivity|].
  exists (before res), id, ext. repeat split; auto. congruence.
Qed.

(** X4: in every run with interception armed, a request is answered with
    a local build only if the predicate accepted it, and the body it gets
    is the content of the file respec-<identifier>.js directly inside the
    builds directory, with an identifier of letters, digits, underscores
    and hyphens. *)
Theorem substituted_only_local_builds (evs : list netEvent)
    (r : request) (path body : str) :
  In (r, Substituted path body) (answered (run_events useLocalReSpec evs)) ->
  isRespecScript r = true
  /\ readFile path = Some body
  /\ exists id,
       path = buildsDir ++ lit "/respec-" ++ id ++ lit ".js"
       /\ id <> [] /\ Forall (fun c => isWordOrHyphen c = true) id.
Proof.
  intros Hin.
  assert (H0 : wellServed1 useLocalReSpec) by (split; constructor).
  apply (wellServed_steps evs) in H0. destruct H0 as [_ Ha].
  rewrite Forall_forall in Ha. specialize (Ha _ Hin).
  destruct Ha as [(profile & Hp & Epath) Hfile]. simpl in Hp, Epath.
  destruct (startRead_inv r profile Hp) as (Hacc & dir & id & ext & _ & _ & Hne & HF & ->).
  split; [exact Hacc|]. split; [exact Hfile|].
  exists id. split; [|auto].
  rewrite Epath. unfold localPath. now rewrite <- app_assoc.
Qed.

(** X5: the listener answers only what it was handed: at any point of a
    run the answers given and the reads still pending together never
    outnumber the requests that have arrived. *)
Theorem answers_bounded_by_arrivals (evs : list netEvent) (st : net) :
  (List.length (answered (run_events st evs))
   + List.length (reading (run_events st evs))
   <= List.length (answered st) + List.length (reading st)
      + List.length (arrivals evs))%nat.
Proof.
  revert st. induction evs as [|ev evs IH]; intros st; [simpl; lia|].
  change (run_events st (ev :: evs)) with (run_events (step1 st ev) evs).
  specialize (IH (step1 st ev)).
  assert (Hstep : (List.length (answered (step1 st ev))
                   + List.length (reading (step1 st ev))
                   + List.length (arrivals evs)
                   <= List.length (answered st) + List.length (reading st)
                      + List.length (arrivals (ev :: evs)))%nat).
  { destruct ev as [r|i|i]; simpl.
    - destruct (listening st).
      + destruct (requestInterceptor r); simpl; rewrite ?length_app; simpl; lia.
      + destruct (intercepting st); simpl; lia.
    - destruct (nth_error (reading st) i) as [[r path]|] eqn:E; [|lia].
      pose proof (length_remove_nth i (reading st) _ E).
      destruct (readFile path); simpl; lia.
    - destruct (nth_error (responding st) i); simpl; lia. }
  lia.
Qed.

End NetInvariants.

(** ** The console relay over a whole run *)

Section RelayRun.

Variable colors_debug colors_error colors_warn : str -> str.

Local Abbreviation handle := (handleConsoleMessage colors_debug colors_error colors_warn).
Local Abbreviation relay_all := (relayAll colors_debug colors_error colors_warn).

Lemma handle_error_flag (st : relay) (m : consoleMessage) :
  error (flags (handle st m)) = true <->
  error (flags st) = true \/ isGenuineError m.
Proof.
  unfold handleConsoleMessage, isGenuineError.
  destruct (_ && _ && _) eqn:G.
  - apply noise_guard in G. tauto.
  - assert (Hn : ~ isBrowserNoise m).
    { intros H. apply noise_guard in H. congruence. }
    destruct (str_eqb (msgType m) (lit "error")) eqn:Ee.
    + apply str_eqb_eq in Ee. simpl. tauto.
    + apply str_eqb_neq in Ee.
      destruct (str_eqb (msgType m) (lit "warning"));
        [destruct (test respecDoneRegex (resolvedText m))|]; simpl; tauto.
Qed.

Lemma handle_warn_flag (st : relay) (m : consoleMessage) :
  warn (flags (handle st m)) = true <->
  warn (flags st) = true \/ isGenuineWarning m.
Proof.
  unfold handleConsoleMessage, isGenuineWarning.
  destruct (_ && _ && _) eqn:G.
  - apply noise_guard in G. tauto.
  - assert (Hn : ~ isBrowserNoise m).
    { intros H. apply noise_guard in H. congruence. }
    destruct (str_eqb (msgType m) (lit "error")) eqn:Ee.
    + apply str_eqb_eq in Ee. simpl. split; [tauto|].
      intros [H|(Hw & _)]; [exact H|]. rewrite Hw in Ee. discriminate.
    + destruct (str_eqb (msgType m) (lit "warning")) eqn:Ew.
      * apply str_eqb_eq in Ew.
        destruct (test respecDoneRegex (resolvedText m)) eqn:Et.
        -- apply polling_text_iff in Et. tauto.
        -- assert (~ mentionsPolling m).
           { intros H. apply polling_text_iff in H. congruence. }
           simpl. tauto.
      * apply str_eqb_neq in Ew. tauto.
Qed.

Lemma relayAll_error_flag (msgs : list consoleMessage) (st : relay) :
  error (flags (relay_all st msgs)) = true <->
  error (flags st) = true \/ Exists isGenuineError msgs.
Proof.
  revert st. induction msgs as [|m msgs IH]; intros st; simpl.
  - rewrite Exists_nil. tauto.
  - unfold relayAll in *. simpl. rewrite IH, handle_error_flag, Exists_cons. tauto.
Qed.

Lemma relayAll_warn_flag (msgs : list consoleMessage) (st : relay) :
  warn (flags (relay_all st msgs)) = true <->
  warn (flags st) = true \/ Exists isGenuineWarning msgs.
Proof.
  revert st. induction msgs as [|m msgs IH]; intros st; simpl.
  - rewrite Exists_nil. tauto.
  - unfold relayAll in *. simpl. rewrite IH, handle_warn_flag, Exists_cons. tauto.
Qed.

(** X6: over the whole stream of console events of a run, the error-halt
    flag ends up set exactly when some event was a genuine error, and the
    warning-halt flag exactly when some event was a genuine warning;
    and a flag that is set is never cleared. *)
Theorem relay_flags_iff (msgs : list consoleMessage) :
  (error (flags (relay_all noFlags msgs)) = true <-> Exists isGenuineError msgs)
  /\ (warn (flags (relay_all noFlags msgs)) = true <-> Exists isGenuineWarning msgs)
  /\ (forall st,
        (error (flags st) = true -> error (flags (relay_all st msgs)) = true)
        /\ (warn (flags st) = true -> warn (flags (relay_all st msgs)) = true)).
Proof.
  split; [|split].
  - rewrite relayAll_error_flag. simpl. intuition discriminate.
  - rewrite relayAll_warn_flag. simpl. intuition discriminate.
  - intros st. split; intros H.
    + apply relayAll_error_flag. now left.
    + apply relayAll_warn_flag. now left.
Qed.

End RelayRun.

(** ** The run as a whole *)

Section WholeRun.

Variable colors_debug colors_error colors_warn : str -> str.
Variable pageUrlMethod : str.
Variable errTruthy : exn -> bool.
Variable errStack : exn -> str.
Variable pathIsAbsolute : str -> bool.
Variable pathResolve : str -> str -> str.
Variable cwd : str.
Variable writable : str -> bool.

Local Abbreviation run_script :=
  (fetchAndWrite colors_debug colors_error colors_warn pageUrlMethod errTruthy errStack
                 pathIsAbsolute pathResolve cwd writable).
Local Abbreviation relay_all := (relayAll colors_debug colors_error colors_warn).

(** Splits a run at every point where it can end. *)
Ltac run_cases out :=
  unfold fetchAndWrite, writeTo; cbv zeta;
  destruct (launch _) eqn:Hlaunch;
  [ | destruct (parseURL _ _) eqn:Hurl;
      [ destruct (navigation _) eqn:Hnav;
        [ | destruct (checkResponse _ _ _ _) eqn:Hresp;
            [ | destruct (checkIfReSpec _ _ _ _) eqn:Hdoc;
                [ destruct (generateHTML _ _ _ _ _ _ _ _ _) eqn:Hgen;
                  [ destruct (_ && _ || _ && _) eqn:Habort;
                    [ | destruct out;
                        [ destruct (str_eqb _ []) eqn:Hempty;
                          [ | destruct (writable _) eqn:Hw ]
                        | ] ]
                  | | ]
                | | ] ] ]
      | ] ];
  cbn [fst snd].

Ltac not_in :=
  rewrite ?in_app_iff; cbn [In];
  try match goal with
      | |- context [if ?b then _ else _] => destruct b; cbn [In]
      end;
  intuition discriminate.

Ltac close_last :=
  match goal with
  | |- exists pre, ?l ++ [CloseBrowser] = pre ++ [CloseBrowser] /\ _ =>
      exists l; split; [reflexivity|not_in]
  | |- exists pre, ?l ++ ?w ++ [Sleep 1000; ClosePage; CloseBrowser]
                   = pre ++ [CloseBrowser] /\ _ =>
      exists (l ++ w ++ [Sleep 1000; ClosePage]); split;
      [now rewrite <- !app_assoc|not_in]
  end.

(** X7: once the browser has been launched, the script closes it exactly
    once, as the last thing it does, whenever the run ends by returning or
    throwing; a run that ends in [process.exit] or never settles does not
    close it; and when the launch itself fails nothing is opened or closed. *)
Theorem browser_closed_when_settled (src : str) (out : option str)
    (pol : haltPolicy) (opts : options) (env : environment) :
  match snd (run_script src out pol opts env) with
  | Resolves _ | Rejects _ =>
      match launch env with
      | None =>
          exists pre, fst (run_script src out pol opts env) = pre ++ [CloseBrowser]
                      /\ ~ In CloseBrowser pre
      | Some _ =>
          ~ In CloseBrowser (fst (run_script src out pol opts env))
          /\ ~ In NewPage (fst (run_script src out pol opts env))
      end
  | Exits _ | NeverSettles => ~ In CloseBrowser (fst (run_script src out pol opts env))
  end.
Proof.
  run_cases out; first [close_last | split; not_in | not_in].
Qed.

Lemma abort_iff (pol : haltPolicy) (msgs : list consoleMessage) :
  haltOnError pol && error (flags (relay_all noFlags msgs))
  || haltOnWarn pol && warn (flags (relay_all noFlags msgs)) = true
  <-> (haltOnError pol = true /\ Exists isGenuineError msgs)
      \/ (haltOnWarn pol = true /\ Exists isGenuineWarning msgs).
Proof.
  rewrite orb_true_iff, !andb_true_iff.
  rewrite relayAll_error_flag, relayAll_warn_flag. simpl.
  intuition discriminate.
Qed.

Ltac no_output :=
  rewrite ?Forall_app; repeat split;
  try match goal with
      | |- context [if ?b then _ else _] => destruct b
      end;
  repeat (apply Forall_cons; [exact (fun f : False => f)|]); apply Forall_nil.

(** X8: when the caller asked to halt on errors and a genuine error was
    relayed, or asked to halt on warnings and a genuine warning was relayed,
    the run never writes the result, neither to standard output nor to a
    file, and never resolves. *)
Theorem halt_precedes_output (src : str) (out : option str)
    (pol : haltPolicy) (opts : options) (env : environment) :
  (haltOnError pol = true /\ Exists isGenuineError (consoleEvents env))
  \/ (haltOnWarn pol = true /\ Exists isGenuineWarning (consoleEvents env)) ->
  Forall (fun e => ~ isOutput e) (fst (run_script src out pol opts env))
  /\ forall html, snd (run_script src out pol opts env) <> Resolves html.
Proof.
  intros H. apply abort_iff in H.
  run_cases out; try congruence; (split; [no_output|discriminate]).
Qed.

(** X9: the script ends the process itself only with status 1, and only
    for one of two reasons: the halt policy met a relayed genuine error or
    warning, or writing the output file failed. *)
Theorem exit_only_on_halt_or_write_failure (src : str) (out : option str)
    (pol : haltPolicy) (opts : options) (env : environment) (code : Z) :
  snd (run_script src out pol opts env) = Exits code ->
  code = 1
  /\ ((haltOnError pol = true /\ Exists isGenuineError (consoleEvents env))
      \/ (haltOnWarn pol = true /\ Exists isGenuineWarning (consoleEvents env))
      \/ exists o, out = Some o /\ o <> []
                   /\ writable (if pathIsAbsolute o then o else pathResolve cwd o) = false).
Proof.
  run_cases out; intros E; try discriminate; injection E as <-;
    (split; [reflexivity|]).
  - apply abort_iff in Habort. tauto.
  - right; right. eexists. split; [reflexivity|]. split; [|exact Hw].
    now apply str_eqb_neq.
Qed.

(** X10: when the run resolves, the value is the HTML that [generateHTML]
    returned for the parsed URL, and the end of the run is: the output for
    the destination ([null]: the HTML to standard output; the empty string:
    nothing; a path: one file, at the path itself when absolute and resolved
    against the working directory otherwise), then the one-second wait, the
    page close and the browser close.  Nothing is written before that. *)
Theorem resolved_run_shape (src : str) (out : option str)
    (pol : haltPolicy) (opts : options) (env : environment) (html : str) :
  snd (run_script src out pol opts env) = Resolves html ->
  exists u pre,
    parseURL env src = Some u
    /\ generateHTML colors_debug errTruthy errStack (versionWait env) (thePage env) u
         (createTimer (clockAtStart env) (timeoutOpt opts))
         (clockAtWait env) (race env) = Returned html
    /\ Forall (fun e => ~ isOutput e) pre
    /\ fst (run_script src out pol opts env)
       = pre
         ++ match out with
            | None => [StdoutWrite html]
            | Some o =>
                if str_eqb o [] then []
                else [WriteFile (if pathIsAbsolute o then o else pathResolve cwd o) html]
            end
         ++ [Sleep 1000; ClosePage; CloseBrowser].
Proof.
  run_cases out; intros E; try discriminate; injection E as <-;
    match goal with
    | |- exists u pre, Some ?v = Some u /\ _ =>
        exists v;
        match goal with
        | |- exists pre, _ /\ _ /\ _ /\ ?nav ++ _ = _ => exists nav
        end
    end;
    (split; [reflexivity|]); (split; [exact Hgen|]); (split; [no_output|]);
    rewrite ?Hempty; reflexivity.
Qed.

(** X11: whatever the outcome, the script navigates at most once, to the
    [href] of the parsed URL and with the [timeout] option as the bound, and
    only after the console listener has been attached and, with [useLocal],
    after interception has been armed; without [useLocal] interception is
    never armed. *)
Theorem listeners_armed_before_navigation (src : str) (out : option str)
    (pol : haltPolicy) (opts : options) (env : environment) :
  (forall target ms,
     In (Goto target ms) (fst (run_script src out pol opts env)) ->
     exists u post,
       parseURL env src = Some u /\ target = href u /\ ms = timeoutOpt opts
       /\ fst (run_script src out pol opts env)
          = ([Mkdtemp; Launch (disableSandbox opts) (debug opts); NewPage]
             ++ (if useLocal opts then [ArmInterception] else [])
             ++ [ListenConsole]) ++ [Goto (href u) (timeoutOpt opts)] ++ post
       /\ (forall target' ms', ~ In (Goto target' ms') post))
  /\ (useLocal opts = false ->
      ~ In ArmInterception (fst (run_script src out pol opts env))).
Proof.
  split.
  - intros target ms.
    run_cases out; intros Hin;
      try (exfalso; revert Hin; not_in);
      match goal with
      | _ : _ = Some ?v |- exists u post, Some _ = Some u /\ _ =>
          exists v;
          assert (Ht : target = href v /\ ms = timeoutOpt opts)
            by (revert Hin; rewrite ?in_app_iff; cbn [In];
                destruct (useLocal opts); cbn [In];
                intuition (try discriminate);
                match goal with
                | H : Goto _ _ = Goto _ _ |- _ => injection H; auto
                end);
          destruct Ht as [-> ->]
      end;
      eexists; (split; [reflexivity|]); (split; [reflexivity|]);
      (split; [reflexivity|]);
      (split; [rewrite <- ?app_assoc; reflexivity|]);
      intros t' m'; cbn [In app]; intuition discriminate.
  - intros Hu. run_cases out; rewrite ?Hu; rewrite ?in_app_iff; cbn [In];
      intuition discriminate.
Qed.

End WholeRun.

(** ** Version text, the readiness race, data URL payloads, error report *)

Section DecimalText.

Lemma uint_text_digits (d : Decimal.uint) :
  Forall (fun c => isDigit c = true) (lit (NilEmpty.string_of_uint d)).
Proof. induction d; simpl; constructor; auto. Qed.

Lemma uint_text_value (d : Decimal.uint) : forall (acc : positive) (z : Z),
  z = Z.pos acc ->
  fold_left (fun a c => 10 * a + (c - 48)) (lit (NilEmpty.string_of_uint d)) z
  = Z.pos (Pos.of_uint_acc d acc).
Proof.
  induction d; intros acc z Hz; unfold lit in *;
    cbn [NilEmpty.string_of_uint list_ascii_of_string map fold_left Pos.of_uint_acc];
    [exact Hz| ..]; apply IHd; subst z;
    match goal with
    | |- context [Z.of_N (N_of_ascii ?a)] =>
        let v := eval vm_compute in (Z.of_N (N_of_ascii a)) in
        change (Z.of_N (N_of_ascii a)) with v
    end; lia.
Qed.

Lemma uint_text_value0 (d : Decimal.uint) :
  digitsValue (lit (NilEmpty.string_of_uint d)) = Z.of_N (Pos.of_uint d).
Proof.
  unfold digitsValue. induction d; try exact IHd; try reflexivity;
    apply (uint_text_value d); reflexivity.
Qed.

Lemma takeDigits_all (ds : str) :
  Forall (fun c => isDigit c = true) ds -> takeDigits ds = ds.
Proof. induction 1 as [|c ds Hc _ IH]; simpl; [reflexivity|]. now rewrite Hc, IH. Qed.

Lemma digit_facts (c : Z) :
  isDigit c = true ->
  isWhiteSpace c = false /\ (c =? 45) = false /\ (c =? 43) = false /\ c <> 46 /\ c <> 68.
Proof.
  unfold isDigit. rewrite andb_true_iff, !Z.leb_le. intros [H1 H2].
  repeat split; try lia; try (apply Z.eqb_neq; lia).
  unfold isWhiteSpace.
  repeat match goal with
         | |- context [?a =? ?b] => replace (a =? b) with false by (symmetry; apply Z.eqb_neq; lia)
         end.
  replace (c <=? 8202) with true by (symmetry; apply Z.leb_le; lia).
  replace (8192 <=? c) with false by (symmetry; apply Z.leb_gt; lia).
  reflexivity.
Qed.

(** The decimal numeral of a positive number. *)
Lemma pos_text (p : positive) :
  exists d ds, toString (Z.pos p) = d :: ds
               /\ Forall (fun c => isDigit c = true) (d :: ds)
               /\ digitsValue (d :: ds) = Z.pos p
               /\ toString (Z.neg p) = 45 :: d :: ds.
Proof.
  unfold toString. simpl Z.to_int.
  pose proof (Unsigned.to_uint_nonnil p) as Hn.
  pose proof (Unsigned.of_to p) as Hv.
  pose proof (uint_text_digits (Pos.to_uint p)) as Hd.
  pose proof (uint_text_value0 (Pos.to_uint p)) as Hval.
  rewrite Hv in Hval.
  unfold NilZero.string_of_int, NilZero.string_of_uint.
  destruct (Pos.to_uint p) eqn:E; [contradiction| ..];
    match goal with
    | H : Forall _ (lit ?s) |- _ =>
        simpl in H |- *; simpl in Hval;
        eexists; eexists; repeat split; [exact H|exact Hval]
    end.
Qed.

(** [parseInt] reads back what the number prints as. *)
Lemma parseInt_toString (z : Z) : parseInt (toString z) = Int z.
Proof.
  destruct z as [|p|p].
  - reflexivity.
  - destruct (pos_text p) as (d & ds & -> & HF & Hv & _).
    inversion HF as [|? ? Hd HF']; subst.
    destruct (digit_facts d Hd) as (Hw & Hm & Hp & _).
    unfold parseInt. cbn [trimStart]. rewrite Hw, Hm, Hp.
    rewrite (takeDigits_all (d :: ds) HF), Hv. f_equal.
  - destruct (pos_text p) as (d & ds & _ & HF & Hv & ->).
    inversion HF as [|? ? Hd HF']; subst.
    unfold parseInt. cbn [trimStart]. change (isWhiteSpace 45) with false. cbv iota.
    change (45 =? 45) with true. cbv iota.
    rewrite (takeDigits_all (d :: ds) HF), Hv. f_equal.
Qed.

Lemma toString_no_dot (z : Z) : Forall (fun c => c <> 46) (toString z).
Proof.
  assert (H : forall ds, Forall (fun c => isDigit c = true) ds -> Forall (fun c => c <> 46) ds).
  { intros ds HF. eapply Forall_impl; [|exact HF]. intros c Hc. now apply digit_facts in Hc. }
  destruct z as [|p|p].
  - repeat constructor. discriminate.
  - destruct (pos_text p) as (d & ds & -> & HF & _). now apply H.
  - destruct (pos_text p) as (d & ds & _ & HF & _ & ->).
    constructor; [discriminate|now apply H].
Qed.

Lemma toString_head (z : Z) : exists c t, toString z = c :: t /\ c <> 68.
Proof.
  destruct z as [|p|p].
  - exists 48, []. split; [reflexivity|discriminate].
  - destruct (pos_text p) as (d & ds & -> & HF & _).
    inversion HF as [|? ? Hd _]; subst. exists d, ds. split; [reflexivity|].
    now apply digit_facts in Hd.
  - destruct (pos_text p) as (d & ds & _ & _ & _ & ->).
    exists 45, (d :: ds). split; [reflexivity|discriminate].
Qed.

Lemma split_join (sep : Z) (l : list str) :
  l <> [] -> Forall (Forall (fun c => c <> sep)) l ->
  split sep (join [sep] l) = l.
Proof.
  intros Hne HF. induction HF as [|x l Hx HF IH]; [contradiction|].
  destruct l as [|y l].
  - simpl. now apply split_no_sep.
  - change (join [sep] (x :: y :: l)) with (x ++ sep :: join [sep] (y :: l)).
    rewrite split_app_sep, (split_no_sep sep x Hx), IH; [reflexivity|discriminate].
Qed.

Lemma dotted_parses (l : list Z) :
  l <> [] -> getVersion (dotted l) = map Int l.
Proof.
  intros Hne. unfold getVersion.
  assert (Hde : str_eqb (dotted l) (lit "Developer Edition") = false).
  { apply str_eqb_neq. destruct l as [|z l]; [contradiction|].
    destruct (toString_head z) as (c & t & Ez & Hc).
    unfold dotted. intros E.
    destruct l as [|z' l]; simpl in E; rewrite Ez in E; simpl in E;
      injection E as E _; contradiction. }
  rewrite Hde. unfold dotted.
  change (lit ".") with [46].
  rewrite split_join.
  - rewrite map_map. apply map_ext. intros z. apply parseInt_toString.
  - destruct l; [contradiction|discriminate].
  - apply Forall_map. apply Forall_forall. intros z _. apply toString_no_dot.
Qed.

End DecimalText.

Section VersionText.

(** X12: a version written as dot-separated decimal numbers (each a
    non-negative safe integer) parses to exactly those numbers, and joining
    the parsed array with dots, as the error report of [generateHTML] does,
    gives the version string back.  The transfer of the array by value
    changes nothing for such a version. *)
Theorem dotted_version_round_trip (l : list Z) :
  l <> [] -> Forall (fun z => 0 <= z <= maxSafeInteger) l ->
  getVersion (dotted l) = map Int l
  /\ versionText (getVersion (dotted l)) = dotted l
  /\ byValue (getVersion (dotted l)) = map Int l
  /\ versionText (byValue (getVersion (dotted l))) = dotted l.
Proof.
  intros Hne Hsafe. pose proof (dotted_parses l Hne) as Hp.
  assert (Hb : byValue (map Int l) = map Int l).
  { clear Hp Hne. induction Hsafe as [|z l Hz _ IH]; [reflexivity|].
    cbn [map]. rewrite byValue_exact, IH; [reflexivity|].
    unfold isExact. lia. }
  split; [exact Hp|].
  rewrite Hp, Hb. unfold versionText, dotted. now rewrite map_map.
Qed.

(** X13: only the first two components of the version decide the export
    path; and a version that is a bare major number M selects the legacy
    path exactly when M < 20, although M.0.0 selects it exactly when
    M <= 20: for "20" the missing minor compares as not less than 10. *)
Theorem bare_major_version (M : Z) :
  0 <= M <= maxSafeInteger ->
  (selectExport (getVersion (dotted [M])) = Legacy <-> M < 20)
  /\ (selectExport (getVersion (dotted [M; 0; 0])) = Legacy <-> M <= 20)
  /\ (forall a b rest, selectExport (a :: b :: rest) = selectExport [a; b]).
Proof.
  intros _. split; [|split].
  - rewrite dotted_parses by discriminate.
    change (selectExport (map Int [M]))
      with (if (M <? 20) || ((M =? 20) && false) then Legacy else Modern).
    rewrite andb_false_r, orb_false_r.
    destruct (Z.ltb_spec M 20); split; try reflexivity; try lia; discriminate.
  - rewrite dotted_parses by discriminate.
    change (selectExport (map Int [M; 0; 0]))
      with (if (M <? 20) || ((M =? 20) && true) then Legacy else Modern).
    rewrite andb_true_r.
    destruct (Z.ltb_spec M 20); destruct (Z.eqb_spec M 20); cbn [orb];
      split; try reflexivity; try lia; discriminate.
  - reflexivity.
Qed.

End VersionText.

Section Race.

Lemma settle_settled (ms : Z) (evs : list event) (st : settled) :
  st <> Pending -> fold_left (settle ms) evs st = st.
Proof.
  intros H. induction evs as [|e evs IH]; [reflexivity|].
  simpl. destruct st; [contradiction| |]; exact IH.
Qed.

Lemma timeout_head (ms : Z) (e : event) (evs : list event) :
  timeout (e :: evs) ms = settle ms Pending e.
Proof.
  unfold timeout. simpl. apply settle_settled. destruct e; discriminate.
Qed.

(** X14: the readiness wait is decided by the first callback alone:
    whatever is delivered after it changes nothing; if the page's promise
    rejects first, extraction fails with the page's reason and not with the
    timeout message; and if neither callback ever comes, extraction never
    settles. *)
Theorem first_callback_decides (pg : page) (v : list value) (t : timer) (now : Z)
    (e : event) (evs : list event) :
  evaluateHTML pg v t now (e :: evs) = evaluateHTML pg v t now [e]
  /\ (forall tag, evaluateHTML pg v t now (ReadyRejected tag :: evs)
                  = ([], Threw (PageReason tag)))
  /\ evaluateHTML pg v t now [] = ([], Hung).
Proof.
  split; [|split].
  - unfold evaluateHTML. now rewrite !timeout_head.
  - intros tag. unfold evaluateHTML. now rewrite timeout_head.
  - reflexivity.
Qed.

(** X15: when the time allowed is already used up as the readiness wait
    begins (the clock is at or past start + duration), the wait gets zero
    milliseconds, and a timer that fires first reports 0ms. *)
Theorem exhausted_budget_reports_zero (pg : page) (v : list value)
    (t0 d now : Z) (evs : list event) :
  t0 + d <= now ->
  remaining (createTimer t0 d) now = 0
  /\ evaluateHTML pg v (createTimer t0 d) now (TimerFired :: evs)
     = ([], Threw (Reason (lit "Timeout: document.respecIsReady didn't resolve in 0ms."))).
Proof.
  intros H.
  assert (Hr : remaining (createTimer t0 d) now = 0).
  { unfold remaining, createTimer. simpl. lia. }
  split; [exact Hr|].
  unfold evaluateHTML. rewrite timeout_head, Hr. reflexivity.
Qed.

End Race.

Section DataUrlEdges.

Lemma readOctet_stray (x : str) (b : Z) (r : str) :
  readOctet (x ++ [37]) = Some (b, r) -> exists r', r = r' ++ [37].
Proof.
  destruct x as [|c [|h [|l x']]]; simpl; try discriminate.
  - destruct (c =? 37); [|discriminate]. destruct (hexVal h); discriminate.
  - destruct (c =? 37); [|discriminate].
    destruct (hexVal h); [|discriminate]. destruct (hexVal l); [|discriminate].
    intros E. injection E as _ <-. now exists x'.
Qed.

Lemma readCont_stray (x : str) (b : Z) (r : str) :
  readCont (x ++ [37]) = Some (b, r) -> exists r', r = r' ++ [37].
Proof.
  unfold readCont. destruct (readOctet (x ++ [37])) as [[b0 r0]|] eqn:E; [|discriminate].
  destruct (_ && _); [|discriminate]. intros E'. injection E' as _ <-.
  exact (readOctet_stray _ _ _ E).
Qed.

Lemma decodeEscape_stray (x u r : str) :
  decodeEscape (x ++ [37]) = Some (u, r) -> exists r', r = r' ++ [37].
Proof.
  unfold decodeEscape.
  destruct (readOctet (x ++ [37])) as [[b r0]|] eqn:E0; [|discriminate].
  destruct (readOctet_stray _ _ _ E0) as [x0 ->].
  destruct (b <? 128); [intros E; injection E as _ <-; now exists x0|].
  destruct (b <? 192); [discriminate|].
  destruct (readCont (x0 ++ [37])) as [[c1 r1]|] eqn:E1;
    [destruct (readCont_stray _ _ _ E1) as [x1 ->]|].
  2: { destruct (b <? 224); [discriminate|destruct (b <? 240); [discriminate|]].
       destruct (b <? 248); discriminate. }
  destruct (b <? 224).
  { destruct (128 <=? _); [|discriminate]. intros E; injection E as _ <-. now exists x1. }
  destruct (readCont (x1 ++ [37])) as [[c2 r2]|] eqn:E2;
    [destruct (readCont_stray _ _ _ E2) as [x2 ->]|].
  2: { destruct (b <? 240); [discriminate|]. destruct (b <? 248); discriminate. }
  destruct (b <? 240).
  { destruct (_ && _); [|discriminate]. intros E; injection E as _ <-. now exists x2. }
  destruct (b <? 248); [|discriminate].
  destruct (readCont (x2 ++ [37])) as [[c3 r3]|] eqn:E3; [|discriminate].
  destruct (readCont_stray _ _ _ E3) as [x3 ->].
  destruct (_ && _); [|discriminate]. intros E; injection E as _ <-. now exists x3.
Qed.

Lemma decode_stray (n : nat) : forall s, decode n (s ++ [37]) = None.
Proof.
  induction n as [|n IH]; intros s.
  - destruct s; reflexivity.
  - destruct s as [|c t].
    + reflexivity.
    + change ((c :: t) ++ [37]) with (c :: (t ++ [37])). cbn [decode].
      destruct (c =? 37).
      * change (c :: t ++ [37]) with ((c :: t) ++ [37]).
        destruct (decodeEscape ((c :: t) ++ [37])) as [[u r]|] eqn:E; [|reflexivity].
        destruct (decodeEscape_stray _ _ _ E) as [r' ->]. now rewrite IH.
      * now rewrite IH.
Qed.

Lemma decode_plain (n : nat) : forall s,
  Forall (fun c => c <> 37) s -> (List.length s <= n)%nat -> decode n s = Some s.
Proof.
  induction n as [|n IH]; intros s HF Hn.
  - destruct s; [reflexivity|simpl in Hn; lia].
  - destruct s as [|c t]; [reflexivity|].
    inversion HF as [|? ? Hc HF']; subst. simpl in Hn.
    cbn [decode]. apply Z.eqb_neq in Hc. rewrite Hc, IH; [reflexivity|exact HF'|lia].
Qed.

(** X16: on the modern path, a data URL whose payload ends in a stray
    percent sign makes extraction throw URIError whatever precedes it, and a
    payload without any percent sign is returned as it is. *)
Theorem data_url_payload_edges (s : str) :
  fromDataURL (lit "data:text/html;charset=utf-8," ++ s ++ [37]) = Threw URIError
  /\ (Forall (fun c => c <> 37) s ->
      fromDataURL (lit "data:text/html;charset=utf-8," ++ s) = Returned s).
Proof.
  split.
  - unfold fromDataURL. rewrite strip_data_url_prefix.
    unfold decodeURIComponent. now rewrite decode_stray.
  - intros HF. unfold fromDataURL. rewrite strip_data_url_prefix.
    unfold decodeURIComponent. now rewrite decode_plain.
Qed.

End DataUrlEdges.

Section ErrorReport.

Variable colors_debug : str -> str.
Variable errTruthy : exn -> bool.
Variable errStack : exn -> str.

(** The theme function leaves every stretch of its argument that has no
    line break in one piece, provided the argument has no escape character:
    it only adds colour codes, around the text and at line breaks. *)
Hypothesis debug_keeps_lines :
  forall s l, Forall (fun c => c <> 27) s -> oneLine l ->
              includes s l = true -> includes (colors_debug s) l = true.

Lemma startsWith_elim (l s : str) :
  startsWith l s = true -> exists b, l = s ++ b.
Proof.
  revert l. induction s as [|y s IH]; intros l H; [now exists l|].
  destruct l as [|x l]; [discriminate|]. simpl in H.
  apply andb_prop in H as [Hx H]. apply Z.eqb_eq in Hx. subst y.
  destruct (IH l H) as [b ->]. now exists b.
Qed.

Lemma includes_elim (l s : str) :
  includes l s = true -> exists a b, l = a ++ s ++ b.
Proof.
  induction l as [|x l IH]; simpl; intros H.
  - rewrite orb_false_r in H. apply startsWith_elim in H as [b ->]. now exists [], b.
  - apply orb_prop in H as [H|H].
    + apply startsWith_elim in H as [b ->]. now exists [], b.
    + destruct (IH H) as (a & b & ->). now exists (x :: a), b.
Qed.

Lemma includes_skip (x y s : str) : includes y s = true -> includes (x ++ y) s = true.
Proof.
  intros H. apply includes_elim in H as (a & b & ->).
  apply includes_intro. exists (x ++ a), b. now rewrite <- app_assoc.
Qed.

Lemma includes_keep (x y s : str) : includes x s = true -> includes (x ++ y) s = true.
Proof.
  intros H. apply includes_elim in H as (a & b & ->).
  apply includes_intro. exists a, (b ++ y). now rewrite <- !app_assoc.
Qed.

Lemma includes_front (s y : str) : includes (s ++ y) s = true.
Proof. apply includes_intro. now exists [], y. Qed.

Lemma plainLine_oneLine (s : str) : plainLine s -> oneLine s.
Proof.
  intros H. eapply Forall_impl; [|exact H]. intros a Ha. cbv beta in Ha. tauto.
Qed.

Lemma digits_plain (ds : str) :
  Forall (fun c => isDigit c = true) ds -> plainLine ds.
Proof.
  intros H. eapply Forall_impl; [|exact H]. intros c Hc.
  unfold isDigit in Hc. apply andb_prop in Hc as [H1 H2].
  apply Z.leb_le in H1, H2. lia.
Qed.

Lemma toString_plain (z : Z) : plainLine (toString z).
Proof.
  destruct z as [|p|p].
  - repeat constructor; discriminate.
  - destruct (pos_text p) as (d & ds & -> & HF & _). now apply digits_plain.
  - destruct (pos_text p) as (d & ds & _ & HF & _ & ->).
    constructor; [repeat split; discriminate|now apply digits_plain].
Qed.

(** The version as the report prints it is one line of digits, signs and
    dots. *)
Lemma versionText_plain (version : list value) :
  plainLine (versionText (byValue version)).
Proof.
  unfold versionText.
  induction version as [|v l IH]; [constructor|].
  assert (Hv : plainLine (elementText (match v with
                                       | Undefined | NaN => Null
                                       | Null => Null
                                       | Int z => if isFinite z then Int z else Null
                                       end))).
  { destruct v as [| | |z]; try constructor.
    destruct (isFinite z); [apply toString_plain|constructor]. }
  cbn [byValue map] in *. destruct l as [|w l]; [exact Hv|].
  cbn [join]. apply Forall_app. split; [exact Hv|].
  apply Forall_app. split; [repeat constructor; discriminate|exact IH].
Qed.

Ltac literal_chars :=
  vm_compute;
  repeat (apply Forall_cons; [try discriminate; repeat split; discriminate|]);
  apply Forall_nil.

(** X17: when the in-page evaluation fails, [generateHTML] throws an Error
    whose message names the document by its full URL (the [href], query
    included), gives the version as it reached the script (parsed, by
    value) joined by dots, so that a non-numeric component prints as
    nothing, and, for a truthy failure value, carries after "Error: " the
    first line of its stack text, or any beginning of the stack that is
    free of line breaks.  (The URL is one line without escape characters,
    the version components are safe integers or not numbers, and the stack
    has no escape character.) *)
Theorem error_report_contents (pg : page) (u : URL) (t : timer) (now : Z)
    (events : list event) (err : exn) :
  plainLine (href u) ->
  Forall isExact (getVersion (respecVersion pg)) ->
  (errTruthy err = true -> Forall (fun c => c <> 27) (errStack err)) ->
  snd (evaluateHTML pg (byValue (getVersion (respecVersion pg))) t now events)
  = Threw err ->
  exists msg,
    generateHTML colors_debug errTruthy errStack None pg u t now events
    = Threw (Error msg)
    /\ includes msg (lit "Specification: " ++ href u) = true
    /\ includes msg (lit "ReSpec version: "
                     ++ versionText (byValue (getVersion (respecVersion pg)))) = true
    /\ (errTruthy err = true ->
        forall line rest, errStack err = line ++ rest -> oneLine line ->
                          includes msg (lit "Error: " ++ line) = true).
Proof.
  intros Hu _ Hstack He. unfold generateHTML. rewrite He.
  eexists. split; [reflexivity|].
  unfold generateErrorMsg.
  set (vt := versionText (byValue (getVersion (respecVersion pg)))).
  assert (Hvt : plainLine vt) by apply versionText_plain.
  clearbody vt.
  set (head := lit "Specification: " ++ href u ++ [10]
               ++ lit "ReSpec version: " ++ vt ++ [10]
               ++ lit "File a bug: https://github.com/w3c/respec/" ++ [10]).
  set (tail := if errTruthy err then lit "Error: " ++ errStack err ++ [10] else []).
  assert (Hhead : Forall (fun c => c <> 27) head).
  { unfold head. rewrite !Forall_app.
    repeat split; try literal_chars; now apply plainLine_no_esc. }
  assert (Htail : Forall (fun c => c <> 27) tail).
  { unfold tail. destruct (errTruthy err); [|constructor].
    rewrite !Forall_app. repeat split; try literal_chars. now apply Hstack. }
  assert (Hbody : Forall (fun c => c <> 27) (head ++ tail)).
  { apply Forall_app. now split. }
  split; [|split].
  - do 3 apply includes_skip. apply debug_keeps_lines; [exact Hbody| |].
    + apply Forall_app. split; [literal_chars|now apply plainLine_oneLine].
    + apply includes_keep. unfold head. rewrite app_assoc. apply includes_front.
  - do 3 apply includes_skip. apply debug_keeps_lines; [exact Hbody| |].
    + apply Forall_app. split; [literal_chars|now apply plainLine_oneLine].
    + apply includes_keep. unfold head. do 3 apply includes_skip.
      rewrite app_assoc. apply includes_front.
  - intros Ht line rest Es Hline.
    do 3 apply includes_skip. apply debug_keeps_lines; [exact Hbody| |].
    + apply Forall_app. split; [literal_chars|exact Hline].
    + apply includes_skip. unfold tail. rewrite Ht, Es.
      apply includes_intro. exists [], (rest ++ [10]).
      cbn [app]. now rewrite <- !app_assoc.
Qed.

End ErrorReport.

(** ** The [colors] styles on texts of several lines *)

Section Styles.

Variable open close : str.

Local Abbreviation reopen := (Samples.reopenLines open close).

Lemma includes_nil (s : str) : includes s [] = true.
Proof. destruct s; reflexivity. Qed.

Lemma oneLine_head (x : Z) (l : str) :
  oneLine (x :: l) -> Samples.isLineBreak x = false /\ oneLine l.
Proof.
  intros H. inversion H as [|? ? [H10 H13] Hl]; subst. split; [|exact Hl].
  unfold Samples.isLineBreak. apply Z.eqb_neq in H10, H13. now rewrite H10, H13.
Qed.

(** A stretch without line breaks passes through unchanged; the style is
    opened again before it when it follows a line break. *)
Lemma reopen_line (l : str) : forall (y : str) (b : bool),
  oneLine l -> l <> [] ->
  reopen b (l ++ y) = (if b then open else []) ++ l ++ reopen false y.
Proof.
  induction l as [|x l IH]; intros y b Hl Hne; [contradiction|].
  apply oneLine_head in Hl as [Hx Hl].
  cbn [app Samples.reopenLines]. rewrite Hx.
  destruct l as [|x' l'].
  - destruct b; cbn [app]; now rewrite <- ?app_assoc.
  - rewrite (IH y false Hl) by discriminate.
    destruct b; cbn [app]; now rewrite <- ?app_assoc.
Qed.

Lemma reopen_app (a : str) : forall (z : str) (b : bool),
  exists pre b', reopen b (a ++ z) = pre ++ reopen b' z.
Proof.
  induction a as [|x a IH]; intros z b; [now exists [], b|].
  cbn [app Samples.reopenLines].
  destruct (Samples.isLineBreak x).
  - destruct (IH z true) as (pre & b' & ->).
    exists ((if b then [x] else close ++ [x]) ++ pre), b'.
    now rewrite app_assoc.
  - destruct (IH z false) as (pre & b' & ->).
    exists ((if b then open ++ [x] else [x]) ++ pre), b'.
    now rewrite app_assoc.
Qed.

Lemma reopen_keeps (l x : str) (b : bool) :
  oneLine l -> includes x l = true -> includes (reopen b x) l = true.
Proof.
  intros Hl Hin. destruct l as [|c l]; [apply includes_nil|].
  apply includes_elim in Hin as (a & y & ->).
  destruct (reopen_app a ((c :: l) ++ y) b) as (pre & b' & ->).
  rewrite (reopen_line (c :: l) y b' Hl) by discriminate.
  apply includes_intro. exists (pre ++ if b' then open else []), (reopen false y).
  now rewrite <- app_assoc.
Qed.

End Styles.

(** With colours on, a style of the [colors] package leaves every stretch
    without line breaks of a text without escape characters in one piece. *)
Lemma applyStyle_keeps_lines (n : string) (s l : str) :
  Forall (fun c => c <> 27) s -> oneLine l -> includes s l = true ->
  includes (Samples.applyStyle (Samples.sgr n) (Samples.sgr "39") s) l = true.
Proof.
  intros Hs Hl Hin. destruct s as [|c t]; [exact Hin|].
  unfold Samples.applyStyle.
  change (Samples.sgr "39") with (27 :: [91; 51; 57; 109]).
  rewrite (replaceAll_plain _ _ _ Hs).
  assert (H : includes (Samples.sgr n ++ (c :: t) ++ 27 :: [91; 51; 57; 109]) l = true).
  { apply includes_skip. now apply includes_keep. }
  destruct (existsb _ _); [now apply reopen_keeps|exact H].
Qed.

Lemma cyan_keeps_lines (s l : str) :
  Forall (fun c => c <> 27) s -> oneLine l -> includes s l = true ->
  includes (Samples.cyan s) l = true.
Proof. apply applyStyle_keeps_lines. Qed.

(** ** The response check after navigation *)

Section Navigation.

Variable colors_debug colors_error colors_warn : str -> str.
Variable pageUrlMethod : str.
Variable errTruthy : exn -> bool.
Variable errStack : exn -> str.
Variable pathIsAbsolute : str -> bool.
Variable pathResolve : str -> str -> str.
Variable cwd : str.
Variable writable : str -> bool.

(** On a text of one line without escape characters, the theme function
    only puts text around its argument. *)
Hypothesis debug_wraps_line :
  forall s, plainLine s -> exists a b, colors_debug s = a ++ s ++ b.

(** The theme functions add colour codes, which have no question mark. *)
Hypothesis debug_adds_no_query : forall s, ~ In 63 s -> ~ In 63 (colors_debug s).
Hypothesis warn_adds_no_query : forall s, ~ In 63 s -> ~ In 63 (colors_warn s).

Local Abbreviation check := (checkResponse colors_debug colors_warn).
Local Abbreviation run_script :=
  (fetchAndWrite colors_debug colors_error colors_warn pageUrlMethod errTruthy errStack
                 pathIsAbsolute pathResolve cwd writable).

Lemma checkResponse_fails_iff (u : URL) (resp : response) :
  check u resp <> None <-> ok resp = false /\ status resp <> 0.
Proof.
  unfold checkResponse.
  destruct (ok resp); simpl.
  - split; [congruence | intros [H _]; discriminate].
  - destruct (status resp =? 0) eqn:E; simpl.
    + apply Z.eqb_eq in E. split; [congruence | intros [_ H]; contradiction].
    + apply Z.eqb_neq in E. split; [auto | discriminate].
Qed.

(** A run that gets a response which fails the check rejects with the
    error of the check. *)
Lemma run_after_navigation (src : str) (out : option str) (pol : haltPolicy)
    (opts : options) (env : environment) (u : URL) (resp : response) (e : exn) :
  launch env = None -> parseURL env src = Some u -> navigation env = inr resp ->
  check u resp = Some e ->
  snd (run_script src out pol opts env) = Rejects e.
Proof.
  intros Hl Hu Hn Hc. unfold fetchAndWrite. now rewrite Hl, Hu, Hn, Hc.
Qed.

Lemma toString_no_query (z : Z) : ~ In 63 (toString z).
Proof.
  intros H. destruct z as [|p|p].
  - vm_compute in H. intuition discriminate.
  - destruct (pos_text p) as (d & ds & E & HF & _). rewrite E in H.
    rewrite Forall_forall in HF. apply HF in H. discriminate.
  - destruct (pos_text p) as (d & ds & _ & HF & _ & E). rewrite E in H.
    destruct H as [H|H]; [discriminate|].
    rewrite Forall_forall in HF. apply HF in H. discriminate.
Qed.

(** C5: in a run that reaches a navigation response (status codes are
    below 1000, and the origin and pathname of a URL are one line of text
    without escape characters), the run fails at the response check exactly
    when the response is not successful and its status code is not zero.
    It then rejects with the HTTP-error message, which contains the URL's
    origin followed by its pathname, is the same whatever the URL's query
    is, since only the origin and the pathname enter it, and contains no
    question mark when the origin and the pathname have none, hence no
    query.  A response that is successful or has status zero is treated
    like a 200: the run continues exactly as it does for a successful
    response. *)
Theorem http_error_check (src : str) (out : option str) (pol : haltPolicy)
    (opts : options) (env : environment) (u : URL) (resp : response) :
  launch env = None -> parseURL env src = Some u -> navigation env = inr resp ->
  0 <= status resp < 1000 -> plainLine (origin u ++ pathname u) ->
  ((exists e, check u resp = Some e
              /\ snd (run_script src out pol opts env) = Rejects e)
   <-> ok resp = false /\ status resp <> 0)
  /\ (ok resp = false -> status resp <> 0 ->
      exists msg,
        msg = colors_warn ([55357; 56545] ++ lit " HTTP Error "
                           ++ toString (status resp) ++ lit ":")
              ++ lit " " ++ colors_debug (origin u ++ pathname u)
        /\ snd (run_script src out pol opts env) = Rejects (Error msg)
        /\ includes msg (origin u ++ pathname u) = true
        /\ (forall env' u',
              launch env' = None -> parseURL env' src = Some u' ->
              navigation env' = inr resp ->
              origin u' = origin u -> pathname u' = pathname u ->
              snd (run_script src out pol opts env') = Rejects (Error msg))
        /\ (~ In 63 (origin u ++ pathname u) ->
            forall q, includes msg (63 :: q) = false))
  /\ (ok resp = true \/ status resp = 0 ->
      run_script src out pol opts env
      = run_script src out pol opts (withResponse env {| ok := true; status := 200 |})).
Proof.
  intros Hl Hu Hn Hs Hp.
  split; [|split].
  - split.
    + intros (e & He & _). apply (checkResponse_fails_iff u resp). congruence.
    + intros H. apply (proj2 (checkResponse_fails_iff u resp)) in H.
      destruct (check u resp) as [e|] eqn:E; [|contradiction].
      exists e. split; [reflexivity|]. now apply (run_after_navigation _ _ _ _ _ u resp).
  - intros Hok Hst. eexists. split; [reflexivity|].
    assert (Hc : forall u', origin u' = origin u -> pathname u' = pathname u ->
                 check u' resp
                 = Some (Error (colors_warn ([55357; 56545] ++ lit " HTTP Error "
                                             ++ toString (status resp) ++ lit ":")
                                ++ lit " " ++ colors_debug (origin u ++ pathname u)))).
    { intros u' Ho Hpa. unfold checkResponse. rewrite Hok, Ho, Hpa.
      apply Z.eqb_neq in Hst. now rewrite Hst. }
    split; [|split; [|split]].
    + apply (run_after_navigation _ _ _ _ _ u resp); auto.
    + destruct (debug_wraps_line _ Hp) as (a & b & ->).
      apply includes_intro. exists (colors_warn ([55357; 56545] ++ lit " HTTP Error "
                                     ++ toString (status resp) ++ lit ":")
                                    ++ 32 :: a), b.
      exact (app_assoc _ (32 :: a) _).
    + intros env' u' Hl' Hu' Hn' Ho Hpa.
      apply (run_after_navigation _ _ _ _ _ u' resp); auto.
    + intros Hq q. apply not_true_is_false. intros Hin.
      apply includes_elim in Hin as (a & b & E).
      assert (Hmsg : In 63 (colors_warn ([55357; 56545] ++ lit " HTTP Error "
                                         ++ toString (status resp) ++ lit ":")
                            ++ lit " " ++ colors_debug (origin u ++ pathname u))).
      { rewrite E. apply in_or_app. right. now left. }
      rewrite !in_app_iff in Hmsg. destruct Hmsg as [H|[H|H]].
      * revert H. apply warn_adds_no_query.
        rewrite !in_app_iff. intros [H|[H|[H|H]]].
        -- vm_compute in H. intuition discriminate.
        -- vm_compute in H. intuition discriminate.
        -- now apply toString_no_query in H.
        -- vm_compute in H. intuition discriminate.
      * vm_compute in H. intuition discriminate.
      * revert H. now apply debug_adds_no_query.
  - intros Hpass.
    assert (Hc : check u resp = None).
    { destruct (check u resp) eqn:E; [|reflexivity].
      assert (Hf : check u resp <> None) by congruence.
      apply (proj1 (checkResponse_fails_iff u resp)) in Hf. destruct Hf as [Hok Hst].
      destruct Hpass; congruence. }
    unfold fetchAndWrite, withResponse. cbn [launch parseURL navigation clockAtStart
      theDocument versionWait thePage clockAtWait race consoleEvents].
    rewrite Hl, Hu, Hn, Hc. reflexivity.
Qed.

End Navigation.

(** The characters of a styled text come from the text and the codes. *)
Lemma replaceAll_chars (pat rep : str) (x : Z) (s : str) : forall skip,
  In x (Samples.replaceAll pat rep skip s) -> In x rep \/ In x s.
Proof.
  induction s as [|c t IH]; intros skip H; [contradiction|].
  cbn [Samples.replaceAll] in H. destruct skip as [|k].
  - destruct (startsWith (c :: t) pat).
    + apply in_app_or in H as [H|H]; [now left|].
      apply IH in H as [H|H]; [now left|right; now right].
    + destruct H as [H|H]; [right; now left|].
      apply IH in H as [H|H]; [now left|right; now right].
  - apply IH in H as [H|H]; [now left|right; now right].
Qed.

Lemma reopenLines_chars (open close : str) (x : Z) (s : str) : forall b,
  In x (Samples.reopenLines open close b s) -> In x open \/ In x close \/ In x s.
Proof.
  induction s as [|c t IH]; intros b H.
  - cbn [Samples.reopenLines] in H. destruct b; [now left|contradiction].
  - cbn [Samples.reopenLines] in H.
    destruct (Samples.isLineBreak c); apply in_app_or in H as [H|H].
    + destruct b; [destruct H as [H|[]]; right; right; now left|].
      apply in_app_or in H as [H|[H|[]]]; [right; now left|right; right; now left].
    + apply IH in H as [H|[H|H]]; auto. right; right; now right.
    + destruct b; [|destruct H as [H|[]]; right; right; now left].
      apply in_app_or in H as [H|[H|[]]]; [now left|right; right; now left].
    + apply IH in H as [H|[H|H]]; auto. right; right; now right.
Qed.

Lemma applyStyle_chars (open close : str) (x : Z) (s : str) :
  In x (Samples.applyStyle open close s) -> In x open \/ In x close \/ In x s.
Proof.
  destruct s as [|c t]; [contradiction|].
  unfold Samples.applyStyle.
  assert (H : In x (open ++ Samples.replaceAll close open 0 (c :: t) ++ close) ->
              In x open \/ In x close \/ In x (c :: t)).
  { rewrite !in_app_iff. intros [H|[H|H]]; auto.
    apply replaceAll_chars in H as [H|H]; auto. }
  destruct (existsb _ _); [|exact H].
  intros Hin. apply reopenLines_chars in Hin as [Hin|[Hin|Hin]]; auto.
Qed.

Lemma applyStyle_adds_no_query (n : string) (s : str) :
  Forall (fun a => isDigit (Z.of_N (N_of_ascii a)) = true) (list_ascii_of_string n) ->
  ~ In 63 s -> ~ In 63 (Samples.applyStyle (Samples.sgr n) (Samples.sgr "39") s).
Proof.
  intros Hn Hs Hin.
  assert (Hsgr : forall m,
             Forall (fun a => isDigit (Z.of_N (N_of_ascii a)) = true)
                    (list_ascii_of_string m) ->
             ~ In 63 (Samples.sgr m)).
  { intros m Hm. unfold Samples.sgr, lit. rewrite !in_app_iff, in_map_iff.
    intros [H|[(a & Ea & Ha)|H]].
    - cbn [In] in H. intuition discriminate.
    - rewrite Forall_forall in Hm. apply Hm in Ha. rewrite Ea in Ha. discriminate.
    - cbn [In] in H. intuition discriminate. }
  apply applyStyle_chars in Hin as [H|[H|H]].
  - now apply (Hsgr n).
  - apply (Hsgr "39"%string); [repeat constructor|exact H].
  - contradiction.
Qed.

Lemma cyan_adds_no_query (s : str) : ~ In 63 s -> ~ In 63 (Samples.cyan s).
Proof. apply applyStyle_adds_no_query. repeat constructor. Qed.

Lemma yellow_adds_no_query (s : str) : ~ In 63 s -> ~ In 63 (Samples.yellow s).
Proof. apply applyStyle_adds_no_query. repeat constructor. Qed.

Lemma http_error_check_witness :
  exists msg,
    snd (Samples.sampleRun None Samples.haltOnBoth Samples.notFoundRun)
    = Rejects (Error msg)
    /\ includes msg (lit "https://example.org/spec/index.html") = true
    /\ includes msg (lit "404") = true
    /\ includes msg (lit "?key=secret") = false.
Proof.
  pose proof (http_error_check Samples.cyan Samples.red Samples.yellow
                (lit "function url() { ... }") Samples.isTruthy Samples.stackText
                Samples.posixAbsolute Samples.posixResolve (lit "/home/user")
                Samples.everyPathWritable cyan_wraps_line
                cyan_adds_no_query yellow_adds_no_query
                (lit "https://example.org/spec/index.html?key=secret")
                None Samples.haltOnBoth defaultOptions Samples.notFoundRun
                (Samples.httpsURL "example.org" "/spec/index.html" "?key=secret")
                {| ok := false; status := 404 |}) as H.
  destruct H as (_ & H & _).
  - reflexivity.
  - reflexivity.
  - reflexivity.
  - simpl. lia.
  - vm_compute. repeat (apply Forall_cons; [repeat split; discriminate|]). apply Forall_nil.
  - destruct (H eq_refl) as (msg & Emsg & Hrun & Hin & _ & Hq).
    + simpl. discriminate.
    + exists msg. split; [exact Hrun|]. split; [exact Hin|].
      split; [rewrite Emsg; vm_compute; reflexivity|].
      apply (Hq ltac:(vm_compute; intuition discriminate) (lit "key=secret")).
Defined.

(** ** The warning of the legacy export path *)

Section LegacyWarning.

Variable colors_debug colors_error colors_warn : str -> str.

Lemma includes_cons_miss (c : Z) (s p : str) :
  startsWith (c :: s) p = false -> includes (c :: s) p = includes s p.
Proof. intros H. cbn [includes]. now rewrite H. Qed.

(** The fixed part of the warning does not overlap the polling expression. *)
Lemma oldVersionWarning_polling (pg : page) :
  includes (oldVersionWarning pg) (lit "document.respecDone")
  = includes (respecVersion pg ++ lit ".") (lit "document.respecDone").
Proof.
  unfold oldVersionWarning.
  set (v := respecVersion pg ++ lit ".").
  cbn [lit list_ascii_of_string map app].
  repeat (rewrite includes_cons_miss by reflexivity).
  reflexivity.
Qed.

(** X18: when the readiness wait succeeds and the version selects the
    legacy export path, [evaluateHTML] writes exactly one warning to the
    page console; unless the page's own version string spells out
    [document.respecDone], the relay counts that warning as genuine, so
    any stream of console events that contains it leaves the warning-halt
    flag set. *)
Theorem legacy_warning_raises_flag (pg : page) (version : list value)
    (t : timer) (now : Z) (events : list event) :
  timeout events (remaining t now) = Fulfilled ->
  selectExport version = Legacy ->
  includes (respecVersion pg ++ lit ".") (lit "document.respecDone") = false ->
  exists w,
    fst (evaluateHTML pg version t now events) = [w]
    /\ isGenuineWarning (warnEvent w)
    /\ forall before after,
         warn (flags (relayAll colors_debug colors_error colors_warn noFlags
                               (before ++ warnEvent w :: after))) = true.
Proof.
  intros Ht Hs Hv. exists (oldVersionWarning pg).
  assert (G : isGenuineWarning (warnEvent (oldVersionWarning pg))).
  { split; [reflexivity|split].
    - intros (_ & _ & N). discriminate N.
    - intros (a & b & E).
      assert (R : resolvedText (warnEvent (oldVersionWarning pg)) = oldVersionWarning pg).
      { unfold resolvedText, warnEvent, oldVersionWarning.
        cbn [msgArgs filter app].
        replace (str_eqb _ (lit "undefined")) with false by reflexivity.
        reflexivity. }
      rewrite R in E.
      pose proof (includes_intro _ _ (ex_intro _ a (ex_intro _ b E))) as I.
      rewrite oldVersionWarning_polling in I. congruence. }
  split; [|split].
  - unfold evaluateHTML. now rewrite Ht, Hs.
  - exact G.
  - intros before after. apply relayAll_warn_flag. right.
    apply Exists_app. right. now constructor.
Qed.

End LegacyWarning.

(** ** Instances of the properties above *)

Lemma interceptor_profile_shape_witness :
  isRespecScript (Samples.scriptRequest "localhost:8000" "/builds/respec-w3c.js") = true
  /\ (exists dir id ext,
        pathname (url (Samples.scriptRequest "localhost:8000" "/builds/respec-w3c.js"))
        = dir ++ 47 :: lit "respec-w3c" ++ ext
        /\ lit "respec-w3c" = lit "respec-" ++ id
        /\ (ext = [] \/ ext = lit ".js") /\ id <> [])
  /\ Forall (fun c => isWordOrHyphen c = true) (lit "respec-w3c").
Proof.
  apply (interceptor_profile_shape
           (Samples.scriptRequest "localhost:8000" "/builds/respec-w3c.js")
           (lit "respec-w3c")).
  vm_compute. reflexivity.
Defined.

Lemma other_host_accepted_has_profile_witness :
  exists dir id,
    pathname (url (Samples.scriptRequest "localhost:8000" "/builds/respec-w3c.js"))
    = dir ++ lit "/builds/respec-" ++ id ++ lit ".js"
    /\ requestInterceptor (Samples.scriptRequest "localhost:8000" "/builds/respec-w3c.js")
       = StartRead (lit "respec-" ++ id)
    /\ answered (steps Samples.blue Samples.buildsDir Samples.noBuild useLocalReSpec
                   (handledAlone
                      (Samples.scriptRequest "localhost:8000" "/builds/respec-w3c.js")))
       = match Samples.noBuild (localPath Samples.buildsDir (lit "respec-" ++ id)) with
         | Some body =>
             [(Samples.scriptRequest "localhost:8000" "/builds/respec-w3c.js",
               Substituted (localPath Samples.buildsDir (lit "respec-" ++ id)) body)]
         | None => []
         end.
Proof.
  apply (other_host_accepted_has_profile Samples.blue Samples.buildsDir Samples.noBuild
           (Samples.scriptRequest "localhost:8000" "/builds/respec-w3c.js")).
  - reflexivity.
  - reflexivity.
  - vm_compute. discriminate.
  - vm_compute. discriminate.
  - vm_compute. reflexivity.
Defined.

Lemma substituted_only_local_builds_witness :
  isRespecScript (Samples.scriptRequest "www.w3.org" "/Tools/respec/respec-w3c") = true
  /\ Samples.everyBuild (lit "/opt/respec/builds/respec-w3c.js")
     = Some (lit "/* local build */")
  /\ exists id,
       lit "/opt/respec/builds/respec-w3c.js"
       = Samples.buildsDir ++ lit "/respec-" ++ id ++ lit ".js"
       /\ id <> [] /\ Forall (fun c => isWordOrHyphen c = true) id.
Proof.
  apply (substituted_only_local_builds Samples.blue Samples.buildsDir Samples.everyBuild
           [Arrives (Samples.scriptRequest "www.w3.org" "/Tools/respec/respec-w3c");
            FileRead 0]
           (Samples.scriptRequest "www.w3.org" "/Tools/respec/respec-w3c")
           (lit "/opt/respec/builds/respec-w3c.js") (lit "/* local build */")).
  vm_compute. left. reflexivity.
Defined.

Lemma halt_precedes_output_witness :
  Forall (fun e => ~ isOutput e)
         (fst (Samples.sampleRun None Samples.haltOnBoth Samples.failingRun))
  /\ forall html,
       snd (Samples.sampleRun None Samples.haltOnBoth Samples.failingRun) <> Resolves html.
Proof.
  apply (halt_precedes_output Samples.cyan Samples.red Samples.yellow
           (lit "function url() { ... }") Samples.isTruthy Samples.stackText
           Samples.posixAbsolute Samples.posixResolve (lit "/home/user")
           Samples.everyPathWritable
           (lit "https://example.org/spec/index.html?key=secret")
           None Samples.haltOnBoth defaultOptions Samples.failingRun).
  left. split; [reflexivity|].
  apply Exists_cons_hd. split; [reflexivity|].
  intros (_ & _ & E). discriminate.
Defined.

Lemma exit_only_on_halt_or_write_failure_witness :
  1 = 1
  /\ ((haltOnError Samples.haltOnBoth = true
       /\ Exists isGenuineError (consoleEvents Samples.failingRun))
      \/ (haltOnWarn Samples.haltOnBoth = true
          /\ Exists isGenuineWarning (consoleEvents Samples.failingRun))
      \/ exists o, @None str = Some o /\ o <> []
                   /\ Samples.everyPathWritable
                        (if Samples.posixAbsolute o then o
                         else Samples.posixResolve (lit "/home/user") o) = false).
Proof.
  apply (exit_only_on_halt_or_write_failure Samples.cyan Samples.red Samples.yellow
           (lit "function url() { ... }") Samples.isTruthy Samples.stackText
           Samples.posixAbsolute Samples.posixResolve (lit "/home/user")
           Samples.everyPathWritable
           (lit "https://example.org/spec/index.html?key=secret")
           None Samples.haltOnBoth defaultOptions Samples.failingRun 1).
  vm_compute. reflexivity.
Defined.

Lemma resolved_run_shape_witness :
  exists u pre,
    parseURL Samples.quietRun (lit "https://example.org/spec/index.html?key=secret")
    = Some u
    /\ generateHTML Samples.cyan Samples.isTruthy Samples.stackText
         (versionWait Samples.quietRun) (thePage Samples.quietRun) u
         (createTimer (clockAtStart Samples.quietRun) (timeoutOpt defaultOptions))
         (clockAtWait Samples.quietRun) (race Samples.quietRun)
       = Returned (lit "<html>")
    /\ Forall (fun e => ~ isOutput e) pre
    /\ fst (Samples.sampleRun None Samples.haltOnBoth Samples.quietRun)
       = pre ++ [StdoutWrite (lit "<html>")] ++ [Sleep 1000; ClosePage; CloseBrowser].
Proof.
  apply (resolved_run_shape Samples.cyan Samples.red Samples.yellow
           (lit "function url() { ... }") Samples.isTruthy Samples.stackText
           Samples.posixAbsolute Samples.posixResolve (lit "/home/user")
           Samples.everyPathWritable
           (lit "https://example.org/spec/index.html?key=secret")
           None Samples.haltOnBoth defaultOptions Samples.quietRun (lit "<html>")).
  vm_compute. reflexivity.
Defined.

Lemma dotted_version_round_trip_witness :
  getVersion (lit "20.10.0") = [Int 20; Int 10; Int 0]
  /\ versionText (getVersion (lit "20.10.0")) = lit "20.10.0"
  /\ byValue (getVersion (lit "20.10.0")) = [Int 20; Int 10; Int 0]
  /\ versionText (byValue (getVersion (lit "20.10.0"))) = lit "20.10.0".
Proof.
  apply (dotted_version_round_trip [20; 10; 0]).
  - discriminate.
  - unfold maxSafeInteger. repeat constructor; lia.
Defined.

Lemma bare_major_version_witness :
  selectExport (getVersion (lit "20")) = Modern
  /\ selectExport (getVersion (lit "20.0.0")) = Legacy.
Proof.
  destruct (bare_major_version 20) as (H1 & H2 & _).
  - unfold maxSafeInteger. lia.
  - split.
    + destruct (selectExport (getVersion (lit "20"))) eqn:E; [|reflexivity].
      apply H1 in E. lia.
    + apply H2. lia.
Defined.

Lemma exhausted_budget_reports_zero_witness :
  remaining (createTimer 0 1000) 2000 = 0
  /\ evaluateHTML Samples.modernPage (getVersion (lit "30.0.0"))
       (createTimer 0 1000) 2000 [TimerFired; ReadyResolved]
     = ([], Threw (Reason (lit "Timeout: document.respecIsReady didn't resolve in 0ms."))).
Proof.
  apply (exhausted_budget_reports_zero Samples.modernPage (getVersion (lit "30.0.0"))
           0 1000 2000 [ReadyResolved]).
  lia.
Defined.

Lemma data_url_payload_edges_witness :
  fromDataURL (lit "data:text/html;charset=utf-8,<p>done</p>")
  = Returned (lit "<p>done</p>").
Proof.
  apply (proj2 (data_url_payload_edges (lit "<p>done</p>"))).
  repeat constructor; discriminate.
Defined.

Lemma error_report_contents_witness :
  exists msg,
    generateHTML Samples.cyan Samples.isTruthy Samples.stackText None Samples.modernPage
      (Samples.httpsURL "example.org" "/spec/index.html" "?key=secret")
      (createTimer 0 1000) 0 [TimerFired]
    = Threw (Error msg)
    /\ includes msg (lit "Specification: "
                     ++ href (Samples.httpsURL "example.org" "/spec/index.html"
                                               "?key=secret")) = true
    /\ includes msg (lit "ReSpec version: "
                     ++ versionText (byValue (getVersion (respecVersion Samples.modernPage))))
       = true
    /\ (Samples.isTruthy (Reason (timeoutMsg 1000)) = true ->
        forall line rest,
          Samples.stackText (Reason (timeoutMsg 1000)) = line ++ rest -> oneLine line ->
          includes msg (lit "Error: " ++ line) = true).
Proof.
  apply (error_report_contents Samples.cyan Samples.isTruthy Samples.stackText
           cyan_keeps_lines Samples.modernPage
           (Samples.httpsURL "example.org" "/spec/index.html" "?key=secret")
           (createTimer 0 1000) 0 [TimerFired] (Reason (timeoutMsg 1000))).
  - vm_compute. repeat (apply Forall_cons; [repeat split; discriminate|]). apply Forall_nil.
  - replace (getVersion (respecVersion Samples.modernPage))
      with [Int 30; Int 0; Int 0] by reflexivity.
    repeat (apply Forall_cons; [unfold isExact, maxSafeInteger; lia|]). apply Forall_nil.
  - intros _. vm_compute. repeat (apply Forall_cons; [discriminate|]). apply Forall_nil.
  - reflexivity.
Defined.

Lemma legacy_warning_raises_flag_witness :
  exists w,
    fst (evaluateHTML Samples.legacyPage (getVersion (lit "19.5.2"))
                      (createTimer 0 300000) 1000 [ReadyResolved]) = [w]
    /\ isGenuineWarning (warnEvent w)
    /\ forall before after,
         warn (flags (relayAll Samples.cyan Samples.red Samples.yellow noFlags
                               (before ++ warnEvent w :: after))) = true.
Proof.
  apply legacy_warning_raises_flag; reflexivity.
Defined.
